(** * SCD Type 1 merges (test.py) and audit columns (scripts/utils.py,
      scripts/ingest.py): a shallow embedding and its properties.

    The PySpark and pandas operations the scripts call are embedded as
    functions over explicit tables; the functions of the repository are
    then transcribed call by call on top of them. *)

From Stdlib Require Import List String Ascii ZArith Bool Arith Lia Permutation.
From Stdlib Require Import DecimalString.
From Stdlib Require OrderedTypeEx Sorted.
From stdpp Require gmap strings.
Import ListNotations.

Local Open Scope string_scope.
Local Open Scope list_scope.

(** ** Results of calls that may raise *)

(** The two exceptions the embedded calls can raise: Spark's
    [AnalysisException] (a column reference that cannot be resolved against
    a schema, or is ambiguous) and Python's [IndexError]. *)
Inductive error : Type :=
| AnalysisException
| IndexError.

Inductive result (A : Type) : Type :=
| Ok (a : A)
| Err (e : error).

Arguments Ok {A} a.
Arguments Err {A} e.

Definition bind {A B : Type} (m : result A) (f : A -> result B) : result B :=
  match m with
  | Ok a => f a
  | Err e => Err e
  end.

Notation "x <- m ;; k" := (bind m (fun x => k))
  (at level 20, m at level 100, k at level 200, only parsing).

Fixpoint mapM {A B : Type} (f : A -> result B) (l : list A) : result (list B) :=
  match l with
  | [] => Ok []
  | a :: l' => b <- f a ;; bs <- mapM f l' ;; Ok (b :: bs)
  end.

(** ** Spark tables *)

Module Spark.

(** Cell values.  [VNull] is SQL NULL (Python [None]); [VBool] only arises
    from [isNotNull]. *)
Inductive value : Type :=
| VNull
| VInt (n : Z)
| VStr (s : string)
| VBool (b : bool).

Definition value_eqb (a b : value) : bool :=
  match a, b with
  | VNull, VNull => true
  | VInt n, VInt m => Z.eqb n m
  | VStr s, VStr t => String.eqb s t
  | VBool x, VBool y => Bool.eqb x y
  | _, _ => false
  end.

Definition is_null (v : value) : bool :=
  match v with VNull => true | _ => false end.

Definition Row : Type := list value.

Fixpoint row_eqb (r r' : Row) : bool :=
  match r, r' with
  | [], [] => true
  | a :: r1, b :: r2 => value_eqb a b && row_eqb r1 r2
  | _, _ => false
  end.

(** A DataFrame: the schema (column names in order) and the rows, each row
    holding one cell per column. *)
Record DataFrame : Type := mkDF {
  columns : list string;
  rows : list Row
}.

Definition mem (c : string) (cs : list string) : bool :=
  existsb (String.eqb c) cs.

Fixpoint col_index (c : string) (cols : list string) : option nat :=
  match cols with
  | [] => None
  | x :: xs => if String.eqb c x then Some 0 else option_map S (col_index c xs)
  end.

(** Resolution of a column name against a schema: Spark's analyzer rejects
    a name that is absent, and one that is ambiguous.  The name is looked
    up as it is written.  Spark itself ignores the case of letters and
    reads a dot or a backtick in the name as a path; on plain names that
    are distinct up to case ([Fragment.plain_schema]) this is the same
    lookup. *)
Definition resolve (cols : list string) (c : string) : result nat :=
  match col_index c cols with
  | Some i => if mem c (skipn (S i) cols) then Err AnalysisException else Ok i
  | None => Err AnalysisException
  end.

Definition cell (r : Row) (i : nat) : value := nth i r VNull.

(** The cell of a row under a column name, NULL when the schema has no
    such column. *)
Definition cell_by_name (cols : list string) (r : Row) (c : string) : value :=
  match col_index c cols with
  | Some i => cell r i
  | None => VNull
  end.

Fixpoint has_dup (cs : list string) : bool :=
  match cs with
  | [] => false
  | c :: cs' => mem c cs' || has_dup cs'
  end.

(** [df.select] on a list of column names. *)
Definition select (df : DataFrame) (cols : list string) : result DataFrame :=
  idx <- mapM (resolve (columns df)) cols ;;
  Ok {| columns := cols; rows := map (fun r => map (cell r) idx) (rows df) |}.

(** [df.distinct()]: rows compared cell by cell, NULL equal to NULL; the
    first occurrence is the one kept. *)
Fixpoint distinct_rows (l : list Row) : list Row :=
  match l with
  | [] => []
  | r :: l' => r :: filter (fun r' => negb (row_eqb r r')) (distinct_rows l')
  end.

Definition distinct (df : DataFrame) : DataFrame :=
  {| columns := columns df; rows := distinct_rows (rows df) |}.

(** SQL equality as a join condition: NULL matches nothing, itself
    included.  Cells are compared as they are: Spark compares typed
    columns and casts one side when the declared types differ, which does
    not arise between columns of one declared type
    ([Fragment.conforms]). *)
Definition sql_eq (a b : value) : bool :=
  negb (is_null a) && negb (is_null b) && value_eqb a b.

Fixpoint keys_match (k k' : list value) : bool :=
  match k, k' with
  | [], [] => true
  | a :: k1, b :: k2 => sql_eq a b && keys_match k1 k2
  | _, _ => false
  end.

Definition key_at (idx : list nat) (r : Row) : list value := map (cell r) idx.

(** [left.join(right, on=on, how="left_anti")] with a list of column names.
    PySpark inspects [on[0]], so an empty list raises [IndexError].  The
    output of a join on names lists the key columns first, then the other
    columns of the left side. *)
Definition join_left_anti (left right : DataFrame) (on : list string)
  : result DataFrame :=
  match on with
  | [] => Err IndexError
  | _ :: _ =>
      li <- mapM (resolve (columns left)) on ;;
      ri <- mapM (resolve (columns right)) on ;;
      let others := filter (fun c => negb (mem c on)) (columns left) in
      let out := on ++ others in
      let unmatched (r : Row) :=
        negb (existsb (fun r' => keys_match (key_at li r) (key_at ri r'))
                      (rows right)) in
      Ok {| columns := out;
            rows := map (fun r => map (cell_by_name (columns left) r) out)
                        (filter unmatched (rows left)) |}
  end.

(** [left.unionByName(right, allowMissingColumns=True)]: the columns of
    [left], then those of [right] that [left] lacks; the rows of [left]
    padded with NULLs, then the rows of [right] read by name.  Duplicate
    column names on either side are rejected. *)
Definition unionByName (left right : DataFrame) : result DataFrame :=
  if has_dup (columns left) || has_dup (columns right)
  then Err AnalysisException
  else
    let extra := filter (fun c => negb (mem c (columns left))) (columns right) in
    let out := columns left ++ extra in
    Ok {| columns := out;
          rows := map (fun r => r ++ repeat VNull (List.length extra)) (rows left)
                  ++ map (fun r => map (cell_by_name (columns right) r) out)
                         (rows right) |}.

(** *** Column expressions over the two aliased sides of a join *)

(** [col s_ c] stands for [F.col(f"s.{c}")], [col t_ c] for
    [F.col(f"t.{c}")].  Spark parses the string again, as a path: for a
    plain name [c] the path is the alias followed by the column [c], and
    the expression reads column [c] of that side. *)
Inductive alias : Type := s_ | t_.

Inductive Column : Type :=
| col (a : alias) (name : string)
| coalesce (x y : Column)
| isNotNull (x : Column)
| when_otherwise (cond x y : Column).

(** Expressions after analysis: names replaced by positions. *)
Inductive RColumn : Type :=
| rcol (a : alias) (i : nat)
| rcoalesce (x y : RColumn)
| risNotNull (x : RColumn)
| rwhen (cond x y : RColumn).

(** [t.join(s, on=on, how="fullouter")] keeps, for every output row, the
    row of each side it was built from, if any; the aliases [t.c] and [s.c]
    read from them. *)
Record Joined : Type := mkJoined {
  t_columns : list string;
  s_columns : list string;
  jrows : list (option Row * option Row)
}.

(** Spark fixes no order on the rows a full outer join returns.  The list
    below is one such order, the rows of [t] first; what is stated of the
    rows of the column-level merge is stated of them in any order. *)
Definition join_fullouter (t s : DataFrame) (on : list string) : result Joined :=
  match on with
  | [] => Err IndexError
  | _ :: _ =>
      ti <- mapM (resolve (columns t)) on ;;
      si <- mapM (resolve (columns s)) on ;;
      let m (tr sr : Row) := keys_match (key_at ti tr) (key_at si sr) in
      Ok {| t_columns := columns t;
            s_columns := columns s;
            jrows :=
              flat_map (fun tr =>
                          match filter (m tr) (rows s) with
                          | [] => [(Some tr, None)]
                          | ms => map (fun sr => (Some tr, Some sr)) ms
                          end) (rows t)
              ++ map (fun sr => (None, Some sr))
                     (filter (fun sr => negb (existsb (fun tr => m tr sr) (rows t)))
                             (rows s)) |}
  end.

Fixpoint analyze (j : Joined) (e : Column) : result RColumn :=
  match e with
  | col a c =>
      i <- resolve (match a with s_ => s_columns j | t_ => t_columns j end) c ;;
      Ok (rcol a i)
  | coalesce x y =>
      x' <- analyze j x ;; y' <- analyze j y ;; Ok (rcoalesce x' y')
  | isNotNull x => x' <- analyze j x ;; Ok (risNotNull x')
  | when_otherwise c x y =>
      c' <- analyze j c ;; x' <- analyze j x ;; y' <- analyze j y ;;
      Ok (rwhen c' x' y')
  end.

Definition side_cell (o : option Row) (i : nat) : value :=
  match o with
  | Some r => cell r i
  | None => VNull
  end.

Fixpoint eval (e : RColumn) (jr : option Row * option Row) : value :=
  match e with
  | rcol s_ i => side_cell (snd jr) i
  | rcol t_ i => side_cell (fst jr) i
  | rcoalesce x y => if is_null (eval x jr) then eval y jr else eval x jr
  | risNotNull x => VBool (negb (is_null (eval x jr)))
  | rwhen c x y =>
      match eval c jr with
      | VBool true => eval x jr
      | _ => eval y jr
      end
  end.

(** [joined.select] on a list of expressions, each expression carrying its output name. *)
Definition select_exprs (j : Joined) (exprs : list (Column * string))
  : result DataFrame :=
  es <- mapM (fun e => analyze j (fst e)) exprs ;;
  Ok {| columns := map snd exprs;
        rows := map (fun jr => map (fun e => eval e jr) es) (jrows j) |}.

End Spark.

(** ** test.py: the two SCD Type 1 merges *)

Module Scd.
Import Spark.

(** Python's [sorted] on strings (ordered by code point), as an insertion
    sort. *)
Fixpoint insert_sorted (c : string) (l : list string) : list string :=
  match l with
  | [] => [c]
  | x :: xs => if String.leb c x then c :: l else x :: insert_sorted c xs
  end.

Fixpoint sorted (l : list string) : list string :=
  match l with
  | [] => []
  | c :: l' => insert_sorted c (sorted l')
  end.

(** [set(a) | set(b)], as the list of its distinct elements. *)
Definition set_union (a b : list string) : list string :=
  nodup string_dec (a ++ b).

Definition scd_type1_full_replace (source target : DataFrame)
  (key_cols : list string) : result DataFrame :=
  sel <- select source key_cols ;;
  let src_keys := distinct sel in
  unchanged_target <- join_left_anti target src_keys key_cols ;;
  unionByName source unchanged_target.

(** The columns considered for update: [update_cols] filters only when it
    is truthy, so [None] and the empty list both leave every non-key column
    in. *)
Definition data_columns (source target : DataFrame) (key_cols : list string)
  (update_cols : option (list string)) : list string :=
  let all_cols := set_union (columns target) (columns source) in
  let data_cols := sorted (filter (fun c => negb (mem c key_cols)) all_cols) in
  match update_cols with
  | Some (u :: us) => filter (fun c => mem c (u :: us)) data_cols
  | _ => data_cols
  end.

(** The expression chosen for data column [c], the strings [f"s.{c}"] and
    [f"t.{c}"] read as the column [c] of either side, as they are for a
    plain name. *)
Definition chosen_expr (key_cols : list string) (prefer_source_when_null : bool)
  (c : string) : result (Column * string) :=
  let s_col := col s_ c in
  let t_col := col t_ c in
  if prefer_source_when_null then
    match key_cols with
    | [] => Err IndexError
    | k0 :: _ =>
        let presence_cond := isNotNull (col s_ k0) in
        Ok (when_otherwise presence_cond s_col t_col, c)
    end
  else Ok (when_otherwise (isNotNull s_col) s_col t_col, c).

Definition scd_type1_column_level (source target : DataFrame)
  (key_cols : list string) (update_cols : option (list string))
  (prefer_source_when_null : bool) : result DataFrame :=
  let data_cols := data_columns source target key_cols update_cols in
  joined <- join_fullouter target source key_cols ;;
  let key_exprs :=
    map (fun k => (coalesce (col s_ k) (col t_ k), k)) key_cols in
  chosen <- mapM (chosen_expr key_cols prefer_source_when_null) data_cols ;;
  select_exprs joined (key_exprs ++ chosen).

(** *** Preconditions and readings used to state the properties *)

(** A well-formed DataFrame: distinct column names, one cell per column in
    every row.  This bears on the shape of the table only; for a call to
    run on Spark as it does here, names and types are also to be as in
    [Fragment.covered]. *)
Definition wf (df : DataFrame) : bool :=
  negb (has_dup (columns df))
  && forallb (fun r => Nat.eqb (List.length r) (List.length (columns df)))
             (rows df).

Definition has_columns (df : DataFrame) (cs : list string) : bool :=
  forallb (fun c => mem c (columns df)) cs.

Definition nonempty (cs : list string) : bool :=
  match cs with [] => false | _ :: _ => true end.

(** The contract of both merges: well-formed inputs and a non-empty list of
    distinct key columns present on both sides. *)
Definition merge_inputs_ok (source target : DataFrame) (key_cols : list string)
  : bool :=
  wf source && wf target && nonempty key_cols && negb (has_dup key_cols)
  && has_columns source key_cols && has_columns target key_cols.

(** The key combination of a row, and a row read under another schema
    (NULL where the row has no such column). *)
Definition key_of (df : DataFrame) (key_cols : list string) (r : Row)
  : list value :=
  map (cell_by_name (columns df) r) key_cols.

Definition by_name (df : DataFrame) (out : list string) (r : Row) : Row :=
  map (cell_by_name (columns df) r) out.

Definition union_columns (source target : DataFrame) : list string :=
  columns source
  ++ filter (fun c => negb (mem c (columns source))) (columns target).

(** A key combination matched by some row of [df] under the join condition,
    and one that merely occurs among the keys of [df]. *)
Definition key_matched (df : DataFrame) (key_cols : list string)
  (k : list value) : bool :=
  existsb (fun r => keys_match k (key_of df key_cols r)) (rows df).

Definition key_occurs (df : DataFrame) (key_cols : list string)
  (k : list value) : bool :=
  existsb (fun r => row_eqb k (key_of df key_cols r)) (rows df).

Definition count_key (df : DataFrame) (key_cols : list string)
  (k : list value) : nat :=
  List.length (filter (fun r => row_eqb (key_of df key_cols r) k) (rows df)).

Definition no_null (k : list value) : bool :=
  forallb (fun v => negb (is_null v)) k.

Definition keys_not_null (df : DataFrame) (key_cols : list string) : bool :=
  forallb (fun r => no_null (key_of df key_cols r)) (rows df).

(** The full-replace result in closed form: the rows of [source], then the
    rows of [target] whose key is matched by no row of [source], all read
    under the union schema. *)
Definition full_replace_result (source target : DataFrame)
  (key_cols : list string) : DataFrame :=
  let out := union_columns source target in
  {| columns := out;
     rows := map (by_name source out) (rows source)
             ++ map (by_name target out)
                    (filter (fun r => negb (key_matched source key_cols
                                              (key_of target key_cols r)))
                            (rows target)) |}.

(** The full-replace result as the specification words it: the target rows
    kept are those whose key combination does not occur in [source]. *)
Definition spec_full_replace (source target : DataFrame)
  (key_cols : list string) : DataFrame :=
  let out := union_columns source target in
  {| columns := out;
     rows := map (by_name source out) (rows source)
             ++ map (by_name target out)
                    (filter (fun r => negb (key_occurs source key_cols
                                              (key_of target key_cols r)))
                            (rows target)) |}.

(** *** The example tables of [main] *)

Definition example_schema : list string := ["id"; "name"; "age"; "state"].

Definition tgt_df : DataFrame :=
  {| columns := example_schema;
     rows := [ [VInt 1; VStr "Alice"; VInt 30; VStr "NY"];
               [VInt 2; VStr "Bob"; VInt 25; VStr "CA"];
               [VInt 3; VStr "Charlie"; VInt 40; VStr "TX"] ] |}.

Definition src_df : DataFrame :=
  {| columns := example_schema;
     rows := [ [VInt 2; VStr "Bobby"; VInt 26; VNull];
               [VInt 4; VStr "Diana"; VInt 22; VStr "WA"] ] |}.

(** *** Tables with NULL and repeated keys *)

Definition null_key_source : DataFrame :=
  {| columns := ["id"; "name"];
     rows := [ [VNull; VStr "s"] ] |}.

Definition dup_key_target : DataFrame :=
  {| columns := ["id"; "name"];
     rows := [ [VNull; VStr "t"];
               [VInt 1; VStr "a"];
               [VInt 1; VStr "b"] ] |}.

Definition empty_target : DataFrame :=
  {| columns := ["id"; "name"]; rows := [] |}.

(** *** The column-level merge read by name *)

Definition side_by_name (cols : list string) (o : option Row) (c : string)
  : value :=
  match o with
  | Some r => cell_by_name cols r c
  | None => VNull
  end.

(** The value of an expression on a joined row, names looked up directly
    in the two schemas. *)
Fixpoint eval_named (scols tcols : list string) (e : Column)
  (jr : option Row * option Row) : value :=
  match e with
  | col s_ c => side_by_name scols (snd jr) c
  | col t_ c => side_by_name tcols (fst jr) c
  | coalesce x y =>
      if is_null (eval_named scols tcols x jr)
      then eval_named scols tcols y jr
      else eval_named scols tcols x jr
  | isNotNull x => VBool (negb (is_null (eval_named scols tcols x jr)))
  | when_otherwise c x y =>
      match eval_named scols tcols c jr with
      | VBool true => eval_named scols tcols x jr
      | _ => eval_named scols tcols y jr
      end
  end.

(** Every column an expression refers to exists on the side it names. *)
Fixpoint refs_ok (scols tcols : list string) (e : Column) : bool :=
  match e with
  | col s_ c => mem c scols
  | col t_ c => mem c tcols
  | coalesce x y => refs_ok scols tcols x && refs_ok scols tcols y
  | isNotNull x => refs_ok scols tcols x
  | when_otherwise c x y =>
      refs_ok scols tcols c && refs_ok scols tcols x && refs_ok scols tcols y
  end.

(** The rows of the full outer join of [target] and [source], keys read by
    name: every target row paired with each source row it matches, or with
    nothing; then the source rows no target row matches. *)
Definition joined_rows (source target : DataFrame) (key_cols : list string)
  : list (option Row * option Row) :=
  let m (tr sr : Row) :=
    keys_match (key_of target key_cols tr) (key_of source key_cols sr) in
  flat_map (fun tr =>
              match filter (m tr) (rows source) with
              | [] => [(Some tr, None)]
              | ms => map (fun sr => (Some tr, Some sr)) ms
              end) (rows target)
  ++ map (fun sr => (None, Some sr))
         (filter (fun sr => negb (existsb (fun tr => m tr sr) (rows target)))
                 (rows source)).

Definition s_value (source : DataFrame) (jr : option Row * option Row)
  (c : string) : value :=
  side_by_name (columns source) (snd jr) c.

Definition t_value (target : DataFrame) (jr : option Row * option Row)
  (c : string) : value :=
  side_by_name (columns target) (fst jr) c.

(** What a joined row is made of. *)
Definition joined_row_ok (source target : DataFrame) (key_cols : list string)
  (jr : option Row * option Row) : Prop :=
  match jr with
  | (Some tr, Some sr) =>
      In tr (rows target) /\ In sr (rows source)
      /\ keys_match (key_of target key_cols tr) (key_of source key_cols sr) = true
  | (Some tr, None) =>
      In tr (rows target)
      /\ key_matched source key_cols (key_of target key_cols tr) = false
  | (None, Some sr) =>
      In sr (rows source)
      /\ forall tr, In tr (rows target) ->
                    keys_match (key_of target key_cols tr)
                               (key_of source key_cols sr) = false
  | (None, None) => False
  end.

(** The contract of the column-level merge: that of the merge, and every
    column considered for update present on both sides ([s.c] and [t.c]
    must both resolve). *)
Definition column_level_inputs_ok (source target : DataFrame)
  (key_cols : list string) (update_cols : option (list string)) : bool :=
  merge_inputs_ok source target key_cols
  && forallb (fun c => mem c (columns source) && mem c (columns target))
             (data_columns source target key_cols update_cols).

(** The expressions the merge selects, and its result in closed form. *)
Definition key_expr (k : string) : Column * string :=
  (coalesce (col s_ k) (col t_ k), k).

Definition chosen_column (key_cols : list string)
  (prefer_source_when_null : bool) (c : string) : Column * string :=
  if prefer_source_when_null
  then (when_otherwise (isNotNull (col s_ (hd "" key_cols)))
                       (col s_ c) (col t_ c), c)
  else (when_otherwise (isNotNull (col s_ c)) (col s_ c) (col t_ c), c).

Definition column_level_row (source target : DataFrame)
  (key_cols data_cols : list string) (prefer_source_when_null : bool)
  (jr : option Row * option Row) : Row :=
  map (fun k => eval_named (columns source) (columns target)
                           (fst (key_expr k)) jr) key_cols
  ++ map (fun c => eval_named (columns source) (columns target)
                              (fst (chosen_column key_cols
                                      prefer_source_when_null c)) jr)
         data_cols.

Definition column_level_result (source target : DataFrame)
  (key_cols : list string) (update_cols : option (list string))
  (prefer_source_when_null : bool) : DataFrame :=
  let data_cols := data_columns source target key_cols update_cols in
  {| columns := key_cols ++ data_cols;
     rows := map (column_level_row source target key_cols data_cols
                                   prefer_source_when_null)
                 (joined_rows source target key_cols) |}.

(** Distinct key combinations within a table, NULL compared as a value. *)
Fixpoint rows_distinct (l : list (list value)) : bool :=
  match l with
  | [] => true
  | r :: l' => negb (existsb (row_eqb r) l') && rows_distinct l'
  end.

Definition unique_keys (df : DataFrame) (key_cols : list string) : bool :=
  rows_distinct (map (key_of df key_cols) (rows df)).

(** The key combination the merge gives the output row of a joined row. *)
Definition joined_key (source target : DataFrame) (key_cols : list string)
  (jr : option Row * option Row) : list value :=
  map (fun k => eval_named (columns source) (columns target)
                           (fst (key_expr k)) jr) key_cols.

(** *** The one-row tables of the policy examples *)

Definition bob_target : DataFrame :=
  {| columns := ["id"; "name"; "state"];
     rows := [ [VInt 1; VStr "Bob"; VStr "CA"] ] |}.

Definition bobby_source : DataFrame :=
  {| columns := ["id"; "name"; "state"];
     rows := [ [VInt 1; VStr "Bobby"; VNull] ] |}.

Definition null_key_target : DataFrame :=
  {| columns := ["id"; "name"];
     rows := [ [VNull; VStr "t"] ] |}.

(** *** Tables that differ in one column only *)







(** The example tables, with other states. *)
Definition bob_target_moved : DataFrame :=
  {| columns := ["id"; "name"; "state"];
     rows := [ [VInt 1; VStr "Bob"; VStr "TX"] ] |}.

Definition bobby_source_moved : DataFrame :=
  {| columns := ["id"; "name"; "state"];
     rows := [ [VInt 1; VStr "Bobby"; VStr "WA"] ] |}.

End Scd.

(** ** The tables the embedding is exact on *)

Module Fragment.
Import Spark Scd.

(** Spark resolves a column name without regard to case, reads a dot or a
    backtick in a name handed to [select] or to [F.col] as a path, gives
    every column one declared type and casts where the two sides of a
    comparison, of a union or of a [when] have different types.  The
    operations of [Spark] look names up as they are written and compare
    cells as they are.  The two agree on tables whose names are plain and
    pairwise distinct up to case, and whose columns of the same name have
    the same declared type; the properties of the merges are stated for
    such tables. *)

(** A plain name: not empty, made of ASCII letters, digits and
    underscores. *)
Definition is_name_char (a : ascii) : bool :=
  let n := nat_of_ascii a in
  (Nat.leb 48 n && Nat.leb n 57) || (Nat.leb 65 n && Nat.leb n 90)
  || Nat.eqb n 95 || (Nat.leb 97 n && Nat.leb n 122).

Fixpoint name_chars (s : string) : bool :=
  match s with
  | EmptyString => true
  | String a s' => is_name_char a && name_chars s'
  end.

Definition plain_name (c : string) : bool :=
  match c with
  | EmptyString => false
  | String _ _ => name_chars c
  end.

(** Equality of names up to the case of their letters. *)
Definition lower_char (a : ascii) : ascii :=
  let n := nat_of_ascii a in
  if Nat.leb 65 n && Nat.leb n 90 then ascii_of_nat (n + 32) else a.

Fixpoint lower (s : string) : string :=
  match s with
  | EmptyString => EmptyString
  | String a s' => String (lower_char a) (lower s')
  end.

Definition eq_ci (a b : string) : bool := String.eqb (lower a) (lower b).

Definition mem_ci (c : string) (cs : list string) : bool :=
  existsb (eq_ci c) cs.

(** Names of which no two differ in case only. *)
Definition case_consistent (names : list string) : bool :=
  forallb (fun a =>
             forallb (fun b => implb (eq_ci a b) (String.eqb a b)) names)
          names.

(** The names a merge hands to Spark: the columns of both tables and the
    key columns. *)
Definition plain_schema (source target : DataFrame) (key_cols : list string)
  : bool :=
  let names := columns source ++ columns target ++ key_cols in
  forallb plain_name names && case_consistent names.

(** Declared column types, and a table whose cells have the type declared
    for their column; NULL has every type. *)
Inductive dtype : Type := TInt | TStr | TBool.

Definition has_type (t : dtype) (v : value) : bool :=
  match v, t with
  | VNull, _ => true
  | VInt _, TInt => true
  | VStr _, TStr => true
  | VBool _, TBool => true
  | _, _ => false
  end.

Definition conforms (dtypes : string -> dtype) (df : DataFrame) : bool :=
  forallb (fun r =>
             forallb (fun c => has_type (dtypes c)
                                        (cell_by_name (columns df) r c))
                     (columns df))
          (rows df).

(** [covered dtypes source target key_cols]: the two tables stand for
    DataFrames in which column [c] is declared of type [dtypes c] on
    either side, and all names are plain and distinct up to case. *)
Definition covered (dtypes : string -> dtype) (source target : DataFrame)
  (key_cols : list string) : bool :=
  plain_schema source target key_cols
  && conforms dtypes source && conforms dtypes target.

(** The non-key columns the column-level merge considers: all of them, or
    those that a non-empty [update_cols] names. *)
Definition considered (key_cols : list string)
  (update_cols : option (list string)) (c : string) : bool :=
  negb (mem c key_cols)
  && match update_cols with
     | Some (u :: us) => mem c (u :: us)
     | _ => true
     end.

(** Every considered column of either table is a column of both. *)
Definition data_on_both_sides (source target : DataFrame)
  (key_cols : list string) (update_cols : option (list string)) : bool :=
  forallb (fun c => negb (considered key_cols update_cols c)
                    || (mem c (columns source) && mem c (columns target)))
          (columns source ++ columns target).

(** Two tables with the same columns and the same rows, in any order: the
    order in which a join returns its rows is not fixed by Spark. *)
Definition same_table (a b : DataFrame) : Prop :=
  columns a = columns b /\ Permutation (rows a) (rows b).

(** The types of the example tables. *)
Definition example_types (c : string) : dtype :=
  if String.eqb c "id" || String.eqb c "age" then TInt else TStr.

(** A target without the columns age and state, and a source without rows
    that has a column of its own. *)
Definition narrow_target : DataFrame :=
  {| columns := ["id"; "name"];
     rows := [ [VInt 1; VStr "Alice"] ] |}.

Definition empty_wide_source : DataFrame :=
  {| columns := ["id"; "extra"];
     rows := [] |}.

End Fragment.

(** ** SHA-256 (FIPS 180-4), as [hashlib.sha256] computes it *)

Module Sha256.
Local Open Scope Z_scope.

Definition mask32 : Z := 0xffffffff.

(** Addition of 32-bit words wraps around. *)
Definition add32 (x y : Z) : Z := Z.land (x + y) mask32.

Definition rotr (n x : Z) : Z :=
  Z.land (Z.lor (Z.shiftr x n) (Z.shiftl x (32 - n))) mask32.

Definition shr (n x : Z) : Z := Z.shiftr x n.

Definition not32 (x : Z) : Z := Z.lxor x mask32.

Definition Ch (x y z : Z) : Z := Z.lxor (Z.land x y) (Z.land (not32 x) z).

Definition Maj (x y z : Z) : Z :=
  Z.lxor (Z.lxor (Z.land x y) (Z.land x z)) (Z.land y z).

Definition bsig0 (x : Z) : Z := Z.lxor (Z.lxor (rotr 2 x) (rotr 13 x)) (rotr 22 x).
Definition bsig1 (x : Z) : Z := Z.lxor (Z.lxor (rotr 6 x) (rotr 11 x)) (rotr 25 x).
Definition ssig0 (x : Z) : Z := Z.lxor (Z.lxor (rotr 7 x) (rotr 18 x)) (shr 3 x).
Definition ssig1 (x : Z) : Z := Z.lxor (Z.lxor (rotr 17 x) (rotr 19 x)) (shr 10 x).

(** A word written in hexadecimal. *)
Definition hex_value (a : ascii) : Z :=
  let n := Z.of_N (N_of_ascii a) in
  if n <? 58 then n - 48 else n - 87.

Definition word_of_hex (s : string) : Z :=
  fold_left (fun acc a => 16 * acc + hex_value a) (list_ascii_of_string s) 0.

(** The round constants: the first 32 bits of the fractional parts of the
    cube roots of the first 64 primes. *)
Definition K : list Z :=
  map word_of_hex
    [ "428a2f98"; "71374491"; "b5c0fbcf"; "e9b5dba5";
      "3956c25b"; "59f111f1"; "923f82a4"; "ab1c5ed5";
      "d807aa98"; "12835b01"; "243185be"; "550c7dc3";
      "72be5d74"; "80deb1fe"; "9bdc06a7"; "c19bf174";
      "e49b69c1"; "efbe4786"; "0fc19dc6"; "240ca1cc";
      "2de92c6f"; "4a7484aa"; "5cb0a9dc"; "76f988da";
      "983e5152"; "a831c66d"; "b00327c8"; "bf597fc7";
      "c6e00bf3"; "d5a79147"; "06ca6351"; "14292967";
      "27b70a85"; "2e1b2138"; "4d2c6dfc"; "53380d13";
      "650a7354"; "766a0abb"; "81c2c92e"; "92722c85";
      "a2bfe8a1"; "a81a664b"; "c24b8b70"; "c76c51a3";
      "d192e819"; "d6990624"; "f40e3585"; "106aa070";
      "19a4c116"; "1e376c08"; "2748774c"; "34b0bcb5";
      "391c0cb3"; "4ed8aa4a"; "5b9cca4f"; "682e6ff3";
      "748f82ee"; "78a5636f"; "84c87814"; "8cc70208";
      "90befffa"; "a4506ceb"; "bef9a3f7"; "c67178f2" ]%string.

(** The eight working words. *)
Record state : Type := mkState {
  sa : Z; sb : Z; sc : Z; sd : Z; se : Z; sf : Z; sg : Z; sh : Z
}.

Definition H0 : state :=
  mkState (word_of_hex "6a09e667") (word_of_hex "bb67ae85")
          (word_of_hex "3c6ef372") (word_of_hex "a54ff53a")
          (word_of_hex "510e527f") (word_of_hex "9b05688c")
          (word_of_hex "1f83d9ab") (word_of_hex "5be0cd19").

Definition byte_of_ascii (a : ascii) : Z := Z.of_N (N_of_ascii a).

Definition bytes_of_string (s : string) : list Z :=
  map byte_of_ascii (list_ascii_of_string s).

(** [n] bytes of [x], most significant first. *)
Definition be_bytes (n : nat) (x : Z) : list Z :=
  map (fun i => Z.land (Z.shiftr x (8 * Z.of_nat i)) 0xff) (rev (seq 0 n)).

(** Padding: a 1 bit, zeros up to 56 modulo 64 bytes, the bit length on 8
    bytes. *)
Definition pad (msg : list Z) : list Z :=
  let len := Z.of_nat (List.length msg) in
  msg ++ [0x80] ++ repeat 0 (Z.to_nat ((55 - len) mod 64)) ++ be_bytes 8 (8 * len).

Fixpoint chunks (fuel n : nat) (l : list Z) : list (list Z) :=
  match fuel with
  | O => []
  | S fuel' =>
      match l with
      | [] => []
      | _ :: _ => firstn n l :: chunks fuel' n (skipn n l)
      end
  end.

Definition word_of_bytes (bs : list Z) : Z :=
  fold_left (fun acc b => acc * 256 + b) bs 0.

Definition words_of_block (block : list Z) : list Z :=
  map word_of_bytes (chunks 16 4 block).

(** The message schedule, newest word first. *)
Fixpoint extend (n : nat) (w : list Z) : list Z :=
  match n with
  | O => w
  | S n' =>
      extend n' (add32 (add32 (ssig1 (nth 1 w 0)) (nth 6 w 0))
                       (add32 (ssig0 (nth 14 w 0)) (nth 15 w 0)) :: w)
  end.

Definition schedule (block : list Z) : list Z :=
  rev (extend 48 (rev (words_of_block block))).

Definition round (st : state) (kw : Z * Z) : state :=
  let t1 := add32 (add32 (add32 (sh st) (bsig1 (se st)))
                         (add32 (Ch (se st) (sf st) (sg st)) (fst kw)))
                  (snd kw) in
  let t2 := add32 (bsig0 (sa st)) (Maj (sa st) (sb st) (sc st)) in
  mkState (add32 t1 t2) (sa st) (sb st) (sc st)
          (add32 (sd st) t1) (se st) (sf st) (sg st).

Definition compress (st : state) (block : list Z) : state :=
  let st' := fold_left round (combine K (schedule block)) st in
  mkState (add32 (sa st) (sa st')) (add32 (sb st) (sb st'))
          (add32 (sc st) (sc st')) (add32 (sd st) (sd st'))
          (add32 (se st) (se st')) (add32 (sf st) (sf st'))
          (add32 (sg st) (sg st')) (add32 (sh st) (sh st')).

Definition digest (msg : list Z) : state :=
  let padded := pad msg in
  fold_left compress (chunks (List.length padded) 64 padded) H0.

Definition hex_digit (d : Z) : ascii :=
  nth (Z.to_nat d)
      (list_ascii_of_string "0123456789abcdef") "0"%char.

Definition nibble (i x : Z) : ascii :=
  hex_digit (Z.land (Z.shiftr x (4 * i)) 0xf).

Definition hex8 (x : Z) (rest : string) : string :=
  String (nibble 7 x) (String (nibble 6 x) (String (nibble 5 x)
  (String (nibble 4 x) (String (nibble 3 x) (String (nibble 2 x)
  (String (nibble 1 x) (String (nibble 0 x) rest))))))).

Definition hex_of_state (st : state) : string :=
  hex8 (sa st) (hex8 (sb st) (hex8 (sc st) (hex8 (sd st)
  (hex8 (se st) (hex8 (sf st) (hex8 (sg st) (hex8 (sh st) ""))))))).

(** [hashlib.sha256(s.encode('utf-8')).hexdigest()], strings held as their
    UTF-8 bytes. *)
Definition hexdigest (s : string) : string :=
  hex_of_state (digest (bytes_of_string s)).

End Sha256.

(** ** pandas frames and the interpreter state *)

Module Pandas.
Import stdpp.base stdpp.option stdpp.list stdpp.strings stdpp.gmap.

(** The objects held in the cells of a frame: Python ints, strings and
    booleans, the missing value NaN and [None].  Floats other than NaN are
    outside the embedding. *)
Inductive cell : Type :=
| PInt (n : Z)
| PStr (s : string)
| PBool (b : bool)
| PNaN
| PNone.

(** Python's [str] on a cell. *)
Definition str (x : cell) : string :=
  match x with
  | PInt n => NilZero.string_of_int (Z.to_int n)
  | PStr s => s
  | PBool true => "True"
  | PBool false => "False"
  | PNaN => "nan"
  | PNone => "None"
  end.

(** [sep.join(parts)]. *)
Fixpoint join (sep : string) (parts : list string) : string :=
  match parts with
  | [] => ""
  | p :: rest =>
      match rest with
      | [] => p
      | _ :: _ => p ++ sep ++ join sep rest
      end
  end.

(** A DataFrame: its column labels and its rows, one cell per column. *)
Record Frame : Type := mkFrame {
  cols : list string;
  data : list (list cell)
}.

Fixpoint position (c : string) (cs : list string) : option nat :=
  match cs with
  | [] => None
  | x :: xs => if String.eqb c x then Some 0 else S <$> position c xs
  end.

(** The labels and a row after [df[c] = v]: an existing column is
    overwritten in place, a new one is appended. *)
Definition cols_with (cs : list string) (c : string) : list string :=
  match position c cs with
  | Some _ => cs
  | None => cs ++ [c]
  end.

Definition set_cell (cs : list string) (c : string) (v : cell)
  (r : list cell) : list cell :=
  match position c cs with
  | Some i => <[i := v]> r
  | None => r ++ [v]
  end.

Definition get_cell (cs : list string) (r : list cell) (c : string)
  : option cell :=
  i ← position c cs; r !! i.

(** [df[c] = ...], the value of each row given from the row as it is
    before the assignment: a constant for a scalar, the function for
    [df.apply(f, axis=1)]. *)
Definition setitem (fr : Frame) (c : string) (f : list cell -> cell) : Frame :=
  {| cols := cols_with (cols fr) c;
     data := map (fun r => set_cell (cols fr) c (f r) r) (data fr) |}.

(** [datetime] and its [isoformat()]: the fraction is printed only when the
    microseconds are not zero. *)
Record datetime : Type := mkDatetime {
  year : nat; month : nat; day : nat;
  hour : nat; minute : nat; second : nat; microsecond : nat
}.

Definition digit_char (d : nat) : ascii := ascii_of_nat (48 + d).

Fixpoint digits (width n : nat) : string :=
  match width with
  | O => ""
  | S width' => digits width' (n / 10) ++ String (digit_char (n mod 10)) ""
  end.

Definition isoformat (d : datetime) : string :=
  digits 4 (year d) ++ "-" ++ digits 2 (month d) ++ "-" ++ digits 2 (day d)
  ++ "T" ++ digits 2 (hour d) ++ ":" ++ digits 2 (minute d)
  ++ ":" ++ digits 2 (second d)
  ++ (if Nat.eqb (microsecond d) 0 then ""
      else "." ++ digits 6 (microsecond d)).

(** The interpreter state: the frames alive, by reference, and the clock
    [datetime.utcnow()] reads. *)
Definition loc : Type := nat.

Record World : Type := mkWorld {
  heap : gmap loc Frame;
  clock : datetime
}.

(** Statements: state passing, [None] on a dangling reference. *)
Definition Py (A : Type) : Type := World -> option (A * World).

Definition ret {A : Type} (a : A) : Py A := fun w => Some (a, w).

Definition seq_ {A B : Type} (m : Py A) (k : A -> Py B) : Py B :=
  fun w =>
    match m w with
    | Some (a, w') => k a w'
    | None => None
    end.

Notation "x <~ m ;; k" := (seq_ m (fun x => k))
  (at level 20, m at level 100, k at level 200, only parsing).

(** [df.copy()]: a new frame with the same labels and cells. *)
Definition df_copy (df : loc) : Py loc :=
  fun w =>
    fr ← heap w !! df;
    let l := fresh (dom (heap w)) in
    Some (l, {| heap := <[l := fr]> (heap w); clock := clock w |}).

(** [df[c] = ...] mutates the frame [df] refers to. *)
Definition df_setitem (df : loc) (c : string) (f : list cell -> cell) : Py unit :=
  fun w =>
    fr ← heap w !! df;
    Some (tt, {| heap := <[df := setitem fr c f]> (heap w); clock := clock w |}).

Definition utcnow : Py datetime := fun w => Some (clock w, w).

(** Reading the frame behind a reference, and raising. *)
Definition df_get (df : loc) : Py Frame :=
  fun w => fr ← heap w !! df; Some (fr, w).

Definition or_raise {A : Type} (o : option A) : Py A :=
  fun w =>
    match o with
    | Some a => Some (a, w)
    | None => None
    end.

(** [row.drop(labels)]: the cells under the other labels. *)
Definition row_drop (cs : list string) (row : list cell) (labels : list string)
  : list cell :=
  map snd (List.filter (fun p => negb (existsb (String.eqb (fst p)) labels))
                       (combine cs row)).

(** A frame just built (by [pd.read_csv], [pd.read_json]) enters the heap
    under a new reference. *)
Definition df_new (fr : Frame) : Py loc :=
  fun w =>
    let l := fresh (dom (heap w)) in
    Some (l, {| heap := <[l := fr]> (heap w); clock := clock w |}).

End Pandas.

(** ** scripts/utils.py *)

Module Utils.
Import Pandas.

Definition row_hash (row : list cell) : cell :=
  let concat := join "|" (map str row) in
  PStr (Sha256.hexdigest concat).

Definition add_audit_columns (df : loc) (source_file : string) : Py loc :=
  df <~ df_copy df ;;
  ts <~ utcnow ;;
  _ <~ df_setitem df "ingest_ts" (fun _ => PStr (isoformat ts)) ;;
  _ <~ df_setitem df "source_file" (fun _ => PStr source_file) ;;
  _ <~ df_setitem df "record_hash" row_hash ;;
  ret df.

(** The frame of the repository's test, and the state it is called in. *)
Definition test_frame : Frame :=
  {| cols := ["a"; "b"];
     data := [ [PInt 1; PStr "x"]; [PInt 2; PStr "y"] ] |}.

Definition test_clock : datetime :=
  mkDatetime 2024 1 2 3 4 5 4200.

Definition test_world : World :=
  {| heap := stdpp.base.singletonM 0 test_frame; clock := test_clock |}.

End Utils.

(** ** scripts/ingest.py: the frame built by the staging loaders *)

Module Ingest.
Import Pandas.

Definition record_hash (row : list cell) : cell :=
  let concat := join "|" (map str row) in
  PStr (Sha256.hexdigest concat).

(** The parameters of one INSERT into the staging table: the row without
    its audit columns (serialised to JSON by the script), then
    [row['ingest_ts']], [row['source_file']] and [row['record_hash']]. *)
Record Insert : Type := mkInsert {
  row_data : list cell;
  ins_ingest_ts : cell;
  ins_source_file : cell;
  ins_record_hash : cell
}.

Definition insert_of_row (cs : list string) (row : list cell) : option Insert :=
  match get_cell cs row "ingest_ts",
        get_cell cs row "source_file",
        get_cell cs row "record_hash" with
  | Some ts, Some sf, Some rh =>
      Some (mkInsert (row_drop cs row ["ingest_ts"; "source_file"; "record_hash"])
                     ts sf rh)
  | _, _, _ => None
  end.

(** The loop over [df.iterrows()], as the list of the INSERTs executed. *)
Fixpoint inserts (cs : list string) (rows : list (list cell))
  : option (list Insert) :=
  match rows with
  | [] => Some []
  | row :: rows' =>
      match insert_of_row cs row, inserts cs rows' with
      | Some i, Some rest => Some (i :: rest)
      | _, _ => None
      end
  end.

(** The loaders: [parsed] is the frame [pd.read_csv] (or [pd.read_json])
    built from the file, [name] is [local_path.name]; the connection is
    left out, the INSERTs executed on it are returned. *)
Definition load_csv_to_staging (parsed : Frame) (name : string)
  : Py (list Insert) :=
  df <~ df_new parsed ;;
  ts <~ utcnow ;;
  _ <~ df_setitem df "ingest_ts" (fun _ => PStr (isoformat ts)) ;;
  _ <~ df_setitem df "source_file" (fun _ => PStr name) ;;
  _ <~ df_setitem df "record_hash" record_hash ;;
  fr <~ df_get df ;;
  executed <~ or_raise (inserts (cols fr) (data fr)) ;;
  ret executed.

Definition load_json_to_staging (parsed : Frame) (name : string)
  : Py (list Insert) :=
  df <~ df_new parsed ;;
  ts <~ utcnow ;;
  _ <~ df_setitem df "ingest_ts" (fun _ => PStr (isoformat ts)) ;;
  _ <~ df_setitem df "source_file" (fun _ => PStr name) ;;
  _ <~ df_setitem df "record_hash" record_hash ;;
  fr <~ df_get df ;;
  executed <~ or_raise (inserts (cols fr) (data fr)) ;;
  ret executed.

End Ingest.

(** *** Readings used to state the properties of the audit columns *)

Module Audit.
Import Pandas.

(** The frame after the three assignments. *)
Definition audited (hash : list cell -> cell) (fr : Frame) (ts file : string)
  : Frame :=
  setitem (setitem (setitem fr "ingest_ts" (fun _ => PStr ts))
                   "source_file" (fun _ => PStr file))
          "record_hash" hash.

(** The labels and a row after the first two assignments. *)
Definition audit_cols (cs : list string) : list string :=
  cols_with (cols_with cs "ingest_ts") "source_file".

Definition with_audit (cs : list string) (ts file : string) (r : list cell)
  : list cell :=
  set_cell (cols_with cs "ingest_ts") "source_file" (PStr file)
           (set_cell cs "ingest_ts" (PStr ts) r).

(** The labels of a frame are pairwise distinct: an assignment [df[c] = ...]
    then bears on one column. *)
Fixpoint distinct (cs : list string) : bool :=
  match cs with
  | [] => true
  | c :: cs' => negb (existsb (String.eqb c) cs') && distinct cs'
  end.


(** Every row holds one cell per column. *)
Definition wide_frame (fr : Frame) : bool :=
  forallb (fun r => Nat.eqb (List.length r) (List.length (cols fr))) (data fr).

(** The string hashed for a row that got its timestamp and file name
    appended. *)
Definition message (r : list cell) (ts file : string) : string :=
  join "|" (map str (r ++ [PStr ts; PStr file])).



(** A frame that does not yet carry audit columns, one cell per column in
    every row. *)
Definition plain_frame (fr : Frame) : bool :=
  forallb (fun c => negb (existsb (String.eqb c) (cols fr)))
          ["ingest_ts"; "source_file"; "record_hash"]
  && forallb (fun r => Nat.eqb (List.length r) (List.length (cols fr)))
             (data fr).

End Audit.

(** ** test.py: the command line *)

Module Cli.
Import Spark Scd.

(** Python's [str.isspace] on a character, for the code points below
    256. *)
Definition is_space (a : ascii) : bool :=
  let n := nat_of_ascii a in
  (Nat.leb 9 n && Nat.leb n 13) || (Nat.leb 28 n && Nat.leb n 32)
  || Nat.eqb n 133 || Nat.eqb n 160.

(** [s.split(sep)] with a one-character separator. *)
Fixpoint split (sep : ascii) (s : string) : list string :=
  match s with
  | EmptyString => [""]
  | String a s' =>
      if Ascii.eqb a sep then "" :: split sep s'
      else match split sep s' with
           | p :: ps => String a p :: ps
           | [] => [String a ""]
           end
  end.

(** [s.strip()]: leading, then trailing whitespace removed. *)
Fixpoint lstrip (s : string) : string :=
  match s with
  | EmptyString => EmptyString
  | String a s' => if is_space a then lstrip s' else s
  end.

Fixpoint rstrip (s : string) : string :=
  match s with
  | EmptyString => EmptyString
  | String a s' =>
      match rstrip s' with
      | EmptyString => if is_space a then EmptyString else String a EmptyString
      | r => String a r
      end
  end.

Definition strip (s : string) : string := rstrip (lstrip s).

(** The options read by [_parse_args] that the merge depends on: [tables]
    holds the tables read from [--source] and [--target], source first,
    when both options are given. *)
Inductive Mode : Type := full_replace | column_level.

Record Args : Type := mkArgs {
  tables : option (DataFrame * DataFrame);
  keys : option string;
  mode : Mode;
  update_cols : option string;
  prefer_source_when_null : bool
}.

(** An option that is given and not the empty string. *)
Definition truthy (o : option string) : option string :=
  match o with
  | Some EmptyString => None
  | _ => o
  end.

(** How [main] ends: [SystemExit], an exception of a merge, or the table
    that is written or shown. *)
Inductive outcome : Type :=
| SystemExit
| Raised (e : error)
| Written (out_df : DataFrame).

Definition main (args : Args) : outcome :=
  let inputs :=
    match tables args with
    | Some (src, tgt) =>
        match truthy (keys args) with
        | None => None
        | Some ks => Some (src, tgt, map strip (split "," ks))
        end
    | None => Some (src_df, tgt_df, ["id"])
    end in
  match inputs with
  | None => SystemExit
  | Some (src, tgt, keys) =>
      let out_df :=
        match mode args with
        | full_replace => scd_type1_full_replace src tgt keys
        | column_level =>
            let update_cols :=
              match truthy (update_cols args) with
              | Some u => Some (map strip (split "," u))
              | None => None
              end in
            scd_type1_column_level src tgt keys update_cols
                                   (prefer_source_when_null args)
        end in
      match out_df with
      | Ok df => Written df
      | Err e => Raised e
      end
  end.

(** *** Readings of names *)

Fixpoint has_char (c : ascii) (s : string) : bool :=
  match s with
  | EmptyString => false
  | String a s' => Ascii.eqb a c || has_char c s'
  end.

Fixpoint last_char (s : string) : option ascii :=
  match s with
  | EmptyString => None
  | String a s' =>
      match last_char s' with
      | None => Some a
      | Some z => Some z
      end
  end.

(** A string whose first and whose last character, if any, are not
    whitespace. *)
Definition no_space_at_ends (k : string) : bool :=
  match k with
  | EmptyString => true
  | String a _ =>
      negb (is_space a)
      && match last_char k with
         | Some z => negb (is_space z)
         | None => true
         end
  end.

(** A name that holds no comma and no whitespace at either end. *)
Definition clean (k : string) : bool :=
  negb (has_char "," k) && no_space_at_ends k.

(** A string that does not start with whitespace. *)
Definition starts_clean (s : string) : Prop :=
  match s with
  | EmptyString => True
  | String a _ => is_space a = false
  end.

End Cli.

(** *** Further readings of tables *)

Module ScdReadings.
Import Spark Scd.

(** No row of [df] holds a NULL under one of the columns [cs]. *)
Definition cells_not_null (df : DataFrame) (cs : list string) : bool :=
  forallb (fun r =>
             forallb (fun c => negb (is_null (cell_by_name (columns df) r c))) cs)
          (rows df).

(** The order of Python's string comparison. *)
Definition str_le (a b : string) : Prop := String.leb a b = true.

(** Every name of [update_cols] is a key column or a column of neither
    table. *)
Definition names_ignored (source target : DataFrame)
  (key_cols update_cols : list string) : bool :=
  forallb (fun c => mem c key_cols
                    || negb (mem c (columns source) || mem c (columns target)))
          update_cols.

End ScdReadings.

(* ------------------------------------------------------------------ *)
(** * Properties *)

(** ** Facts about the embedded Spark operations *)

Module SparkFacts.
Import Spark.

Lemma value_eqb_eq (a b : value) : value_eqb a b = true <-> a = b.
Proof.
  destruct a, b; simpl; split; intro H; try discriminate; try reflexivity.
  - apply Z.eqb_eq in H. now subst.
  - inversion H. apply Z.eqb_refl.
  - apply String.eqb_eq in H. now subst.
  - inversion H. apply String.eqb_refl.
  - apply Bool.eqb_prop in H. now subst.
  - inversion H. apply Bool.eqb_reflx.
Qed.

Lemma row_eqb_eq (r r' : Row) : row_eqb r r' = true <-> r = r'.
Proof.
  revert r'. induction r as [|a r IH]; intros [|b r']; simpl;
    split; intro H; try discriminate; try reflexivity.
  - apply andb_true_iff in H. destruct H as [H1 H2].
    apply value_eqb_eq in H1. apply IH in H2. now subst.
  - inversion H; subst. apply andb_true_iff. split.
    + now apply value_eqb_eq.
    + now apply IH.
Qed.

Lemma mem_In (c : string) (cs : list string) : mem c cs = true <-> In c cs.
Proof.
  unfold mem. rewrite existsb_exists. split.
  - intros [x [Hx He]]. apply String.eqb_eq in He. now subst.
  - intro H. exists c. split; [assumption | apply String.eqb_refl].
Qed.

Lemma mem_not_In (c : string) (cs : list string) : mem c cs = false <-> ~ In c cs.
Proof.
  split.
  - intros H Hin. apply mem_In in Hin. congruence.
  - intro H. destruct (mem c cs) eqn:E; [|reflexivity].
    apply mem_In in E. contradiction.
Qed.

Lemma has_dup_NoDup (cs : list string) : has_dup cs = false <-> NoDup cs.
Proof.
  induction cs as [|c cs IH]; simpl.
  - split; [constructor | reflexivity].
  - rewrite orb_false_iff, mem_not_In, IH. split.
    + intros [H1 H2]. now constructor.
    + intro H. inversion H; subst. now split.
Qed.

Lemma col_index_Some (c : string) (cols : list string) (i : nat) :
  col_index c cols = Some i -> nth_error cols i = Some c.
Proof.
  revert i. induction cols as [|x xs IH]; simpl; intros i H; [discriminate|].
  destruct (String.eqb c x) eqn:E.
  - apply String.eqb_eq in E. inversion H; subst. reflexivity.
  - destruct (col_index c xs) as [j|]; simpl in H; [|discriminate].
    inversion H; subst. simpl. now apply IH.
Qed.

Lemma col_index_In (c : string) (cols : list string) :
  In c cols -> exists i, col_index c cols = Some i.
Proof.
  induction cols as [|x xs IH]; simpl; intro H; [contradiction|].
  destruct (String.eqb c x) eqn:E; [now exists 0|].
  destruct H as [H|H].
  - subst. rewrite String.eqb_refl in E. discriminate.
  - destruct (IH H) as [j Hj]. rewrite Hj. now exists (S j).
Qed.

Lemma col_index_None (c : string) (cols : list string) :
  ~ In c cols -> col_index c cols = None.
Proof.
  intro H. destruct (col_index c cols) as [i|] eqn:E; [|reflexivity].
  apply col_index_Some in E. apply nth_error_In in E. contradiction.
Qed.

Lemma col_index_app_l (c : string) (xs ys : list string) :
  In c xs -> col_index c (xs ++ ys) = col_index c xs.
Proof.
  induction xs as [|x xs IH]; simpl; intro H; [contradiction|].
  destruct (String.eqb c x) eqn:E; [reflexivity|].
  destruct H as [H|H].
  - subst. rewrite String.eqb_refl in E. discriminate.
  - now rewrite IH.
Qed.

Lemma col_index_app_r (c : string) (xs ys : list string) :
  ~ In c xs ->
  col_index c (xs ++ ys) = option_map (Nat.add (List.length xs)) (col_index c ys).
Proof.
  induction xs as [|x xs IH]; simpl; intro H.
  - now destruct (col_index c ys).
  - destruct (String.eqb c x) eqn:E.
    + apply String.eqb_eq in E. subst. elim H. now left.
    + rewrite IH by tauto. now destruct (col_index c ys).
Qed.

Lemma resolve_err (cols : list string) (c : string) (e : error) :
  resolve cols c = Err e -> e = AnalysisException.
Proof.
  unfold resolve. destruct (col_index c cols) as [i|].
  - destruct (mem c (skipn (S i) cols)); congruence.
  - congruence.
Qed.

Lemma resolve_Ok_inv (cols : list string) (c : string) (i : nat) :
  resolve cols c = Ok i -> col_index c cols = Some i.
Proof.
  unfold resolve. destruct (col_index c cols) as [j|]; [|discriminate].
  destruct (mem c (skipn (S j) cols)); congruence.
Qed.

Lemma resolve_missing (cols : list string) (c : string) :
  ~ In c cols -> resolve cols c = Err AnalysisException.
Proof.
  intro H. unfold resolve. now rewrite col_index_None.
Qed.

Lemma col_index_tail_free (c : string) (cols : list string) (i : nat) :
  NoDup cols -> col_index c cols = Some i -> ~ In c (skipn (S i) cols).
Proof.
  intros Hnd. revert i. induction Hnd as [|x xs Hx Hnd IH]; simpl; intros i H.
  - discriminate.
  - destruct (String.eqb c x) eqn:E.
    + apply String.eqb_eq in E. inversion H; subst. exact Hx.
    + destruct (col_index c xs) as [j|] eqn:Ej; simpl in H; [|discriminate].
      inversion H; subst. now apply IH.
Qed.

Lemma resolve_ok (cols : list string) (c : string) :
  NoDup cols -> In c cols ->
  exists i, col_index c cols = Some i /\ resolve cols c = Ok i.
Proof.
  intros Hnd Hin. destruct (col_index_In c cols Hin) as [i Hi].
  exists i. split; [assumption|]. unfold resolve. rewrite Hi.
  assert (Hf : mem c (skipn (S i) cols) = false).
  { apply mem_not_In. now apply col_index_tail_free. }
  now rewrite Hf.
Qed.

Lemma mapM_resolve_missing (cols cs : list string) (c : string) :
  In c cs -> ~ In c cols -> mapM (resolve cols) cs = Err AnalysisException.
Proof.
  intros Hin Hmiss. induction cs as [|x cs IH]; simpl; [contradiction|].
  destruct (resolve cols x) as [i|e] eqn:E; simpl.
  - destruct Hin as [Hin|Hin].
    + subst. rewrite resolve_missing in E by assumption. discriminate.
    + now rewrite IH.
  - now rewrite (resolve_err _ _ _ E).
Qed.

Lemma mapM_resolve_err (cols cs : list string) (e : error) :
  mapM (resolve cols) cs = Err e -> e = AnalysisException.
Proof.
  induction cs as [|x cs IH]; simpl; [discriminate|].
  destruct (resolve cols x) as [i|e'] eqn:E; simpl.
  - destruct (mapM (resolve cols) cs); simpl; [discriminate|].
    intro H. inversion H; subst. now apply IH.
  - intro H. inversion H; subst. now apply resolve_err in E.
Qed.

Lemma mapM_resolve_Ok_inv (cols cs : list string) (idx : list nat) :
  mapM (resolve cols) cs = Ok idx ->
  Forall2 (fun c i => col_index c cols = Some i) cs idx.
Proof.
  revert idx. induction cs as [|x cs IH]; simpl; intros idx H.
  - inversion H. constructor.
  - destruct (resolve cols x) as [i|] eqn:E; simpl in H; [|discriminate].
    destruct (mapM (resolve cols) cs) as [js|]; simpl in H; [|discriminate].
    inversion H; subst. constructor.
    + now apply resolve_Ok_inv.
    + now apply IH.
Qed.

Lemma mapM_resolve_ok (cols cs : list string) :
  NoDup cols -> incl cs cols ->
  exists idx, mapM (resolve cols) cs = Ok idx.
Proof.
  intros Hnd. induction cs as [|x cs IH]; simpl; intro Hincl.
  - now exists [].
  - destruct (resolve_ok cols x Hnd) as [i [_ Hi]]; [apply Hincl; now left|].
    destruct IH as [js His]; [intros y Hy; apply Hincl; now right|].
    rewrite Hi, His. simpl. now exists (i :: js).
Qed.

(** Reading a row at resolved positions is reading it by name. *)
Lemma key_at_by_name (cols cs : list string) (idx : list nat) (r : Row) :
  Forall2 (fun c i => col_index c cols = Some i) cs idx ->
  key_at idx r = map (cell_by_name cols r) cs.
Proof.
  unfold key_at. induction 1 as [|c i cs idx Hc _ IH]; simpl; [reflexivity|].
  unfold cell_by_name at 1. rewrite Hc. now rewrite IH.
Qed.

Lemma cell_by_name_absent (cols : list string) (r : Row) (c : string) :
  ~ In c cols -> cell_by_name cols r c = VNull.
Proof.
  intro H. unfold cell_by_name. now rewrite col_index_None.
Qed.

Lemma cell_by_name_cons_ne (x c : string) (xs : list string) (a : value)
  (r : Row) :
  c <> x -> cell_by_name (x :: xs) (a :: r) c = cell_by_name xs r c.
Proof.
  intro H. unfold cell_by_name. simpl.
  destruct (String.eqb c x) eqn:E.
  - apply String.eqb_eq in E. contradiction.
  - now destruct (col_index c xs).
Qed.

(** Reading a row built column by column gives back the column's cell. *)
Lemma cell_by_name_map (out : list string) (f : string -> value) (c : string) :
  In c out -> cell_by_name out (map f out) c = f c.
Proof.
  intro H. unfold cell_by_name.
  destruct (col_index_In c out H) as [i Hi]. rewrite Hi.
  apply col_index_Some in Hi. unfold cell.
  apply nth_error_nth. rewrite nth_error_map, Hi. reflexivity.
Qed.

Lemma by_name_self (cols : list string) (r : Row) :
  NoDup cols -> List.length r = List.length cols ->
  map (cell_by_name cols r) cols = r.
Proof.
  intro Hnd. revert r. induction Hnd as [|x xs Hx Hnd IH]; intros r Hlen.
  - destruct r; [reflexivity | discriminate].
  - destruct r as [|a r]; [discriminate|]. simpl. f_equal.
    + unfold cell_by_name. simpl. now rewrite String.eqb_refl.
    + rewrite <- (IH r) at 2 by (simpl in Hlen; lia).
      apply map_ext_in. intros c Hc. apply cell_by_name_cons_ne.
      intro Heq. subst. contradiction.
Qed.

Lemma by_name_map_self (out : list string) (f : string -> value) :
  NoDup out -> map (cell_by_name out (map f out)) out = map f out.
Proof.
  intro H. apply by_name_self; [assumption | apply length_map].
Qed.

Lemma in_distinct_rows (l : list Row) (x : Row) :
  In x (distinct_rows l) <-> In x l.
Proof.
  induction l as [|r l IH]; simpl; [tauto|].
  rewrite filter_In, IH. split.
  - intros [H|[H _]]; [now left | now right].
  - intros [H|H]; [now left|].
    destruct (row_eqb r x) eqn:E.
    + apply row_eqb_eq in E. now left.
    + right. now split.
Qed.

Lemma existsb_distinct_rows (p : Row -> bool) (l : list Row) :
  existsb p (distinct_rows l) = existsb p l.
Proof.
  apply eq_true_iff_eq. rewrite !existsb_exists.
  split; intros [x [Hx Hp]]; exists x; split; try assumption;
    now apply in_distinct_rows.
Qed.

Lemma filter_filter_implied {A : Type} (p q : A -> bool) (l : list A) :
  (forall x, In x l -> p x = true -> q x = true) ->
  filter p (filter q l) = filter p l.
Proof.
  induction l as [|a l IH]; simpl; intro H; [reflexivity|].
  destruct (q a) eqn:Eq; simpl.
  - destruct (p a); rewrite IH; auto.
  - destruct (p a) eqn:Ep.
    + rewrite (H a) in Eq; auto. discriminate.
    + apply IH. auto.
Qed.

Lemma filter_none {A : Type} (p : A -> bool) (l : list A) :
  (forall x, In x l -> p x = false) -> filter p l = [].
Proof.
  induction l as [|a l IH]; simpl; intro H; [reflexivity|].
  rewrite (H a) by now left. apply IH. auto.
Qed.

Lemma filter_all {A : Type} (p : A -> bool) (l : list A) :
  (forall x, In x l -> p x = true) -> filter p l = l.
Proof.
  induction l as [|a l IH]; simpl; intro H; [reflexivity|].
  rewrite (H a) by now left. f_equal. apply IH. auto.
Qed.

Lemma existsb_ext_in {A : Type} (p q : A -> bool) (l : list A) :
  (forall x, In x l -> p x = q x) -> existsb p l = existsb q l.
Proof.
  induction l as [|a l IH]; simpl; intro H; [reflexivity|].
  rewrite (H a) by now left. f_equal. apply IH. auto.
Qed.

Lemma existsb_map {A B : Type} (p : B -> bool) (f : A -> B) (l : list A) :
  existsb p (map f l) = existsb (fun x => p (f x)) l.
Proof.
  induction l as [|a l IH]; simpl; [reflexivity | now rewrite IH].
Qed.

Lemma in_key_others (on cols : list string) (c : string) :
  In c cols -> In c (on ++ filter (fun c => negb (mem c on)) cols).
Proof.
  intro H. apply in_or_app. destruct (mem c on) eqn:E.
  - left. now apply mem_In.
  - right. apply filter_In. split; [assumption | now rewrite E].
Qed.

Lemma NoDup_key_others (on cols : list string) :
  NoDup on -> NoDup cols ->
  NoDup (on ++ filter (fun c => negb (mem c on)) cols).
Proof.
  intros H1 H2. apply NoDup_app; [assumption | now apply NoDup_filter |].
  intros c Hc Hf. apply filter_In in Hf. destruct Hf as [_ Hf].
  apply mem_In in Hc. rewrite Hc in Hf. discriminate.
Qed.

Lemma extra_columns (on scols tcols : list string) :
  incl on scols ->
  filter (fun c => negb (mem c scols))
         (on ++ filter (fun c => negb (mem c on)) tcols)
  = filter (fun c => negb (mem c scols)) tcols.
Proof.
  intro H. rewrite filter_app.
  rewrite (filter_none _ on).
  - simpl. apply filter_filter_implied. intros c _ Hc.
    apply negb_true_iff in Hc. apply negb_true_iff.
    apply mem_not_In. intro Hin. apply mem_not_In in Hc. apply Hc. now apply H.
  - intros c Hc. apply negb_false_iff. apply mem_In. now apply H.
Qed.

Lemma repeat_null_by_name (cols extra : list string) (r : Row) :
  (forall c, In c extra -> ~ In c cols) ->
  repeat VNull (List.length extra) = map (cell_by_name cols r) extra.
Proof.
  induction extra as [|c extra IH]; simpl; intro H; [reflexivity|].
  rewrite cell_by_name_absent by (apply H; now left).
  f_equal. apply IH. auto.
Qed.

Lemma pad_by_name (cols extra : list string) (r : Row) :
  NoDup cols -> List.length r = List.length cols ->
  (forall c, In c extra -> ~ In c cols) ->
  r ++ repeat VNull (List.length extra) = map (cell_by_name cols r) (cols ++ extra).
Proof.
  intros Hnd Hlen Hdis. rewrite map_app, by_name_self by assumption.
  f_equal. now apply repeat_null_by_name.
Qed.

Lemma rename_by_name (mid cols out : list string) (r : Row) :
  (forall c, In c cols -> In c mid) ->
  map (cell_by_name mid (map (cell_by_name cols r) mid)) out
  = map (cell_by_name cols r) out.
Proof.
  intro H. apply map_ext. intro c.
  destruct (in_dec string_dec c mid) as [Hin|Hout].
  - now apply cell_by_name_map.
  - rewrite cell_by_name_absent by assumption.
    symmetry. apply cell_by_name_absent. intro Hc. apply Hout. now apply H.
Qed.

Lemma sql_eq_eq (a b : value) : sql_eq a b = true -> a = b.
Proof.
  unfold sql_eq. intro H. apply andb_true_iff in H. destruct H as [_ H].
  now apply value_eqb_eq.
Qed.

Lemma keys_match_eq (k k' : list value) : keys_match k k' = true -> k = k'.
Proof.
  revert k'. induction k as [|a k IH]; intros [|b k']; simpl; intro H;
    try discriminate; [reflexivity|].
  apply andb_true_iff in H. destruct H as [H1 H2].
  apply sql_eq_eq in H1. apply IH in H2. now subst.
Qed.

Lemma keys_match_no_null (k k' : list value) :
  keys_match k k' = true -> forallb (fun v => negb (is_null v)) k = true.
Proof.
  revert k'. induction k as [|a k IH]; intros [|b k']; simpl; intro H;
    try discriminate; [reflexivity|].
  apply andb_true_iff in H. destruct H as [H1 H2].
  apply andb_true_iff. split; [|now apply (IH k')].
  unfold sql_eq in H1. apply andb_true_iff in H1. destruct H1 as [H1 _].
  apply andb_true_iff in H1. tauto.
Qed.

Lemma keys_match_refl (k : list value) :
  forallb (fun v => negb (is_null v)) k = true -> keys_match k k = true.
Proof.
  induction k as [|a k IH]; simpl; intro H; [reflexivity|].
  apply andb_true_iff in H. destruct H as [H1 H2].
  apply andb_true_iff. split; [|now apply IH].
  unfold sql_eq. rewrite H1. simpl. now apply value_eqb_eq.
Qed.

Lemma row_eqb_refl (r : Row) : row_eqb r r = true.
Proof. now apply row_eqb_eq. Qed.

Lemma row_eqb_sym (r r' : Row) : row_eqb r r' = row_eqb r' r.
Proof.
  apply eq_true_iff_eq. rewrite !row_eqb_eq. split; congruence.
Qed.

Lemma filter_map_comm {A B : Type} (p : B -> bool) (f : A -> B) (l : list A) :
  filter p (map f l) = map f (filter (fun x => p (f x)) l).
Proof.
  induction l as [|a l IH]; simpl; [reflexivity|].
  destruct (p (f a)); simpl; now rewrite IH.
Qed.

Lemma filter_filter_const {A : Type} (p q : A -> bool) (b : bool) (l : list A) :
  (forall x, In x l -> p x = true -> q x = b) ->
  filter p (filter q l) = if b then filter p l else [].
Proof.
  induction l as [|a l IH]; simpl; intro H.
  - now destruct b.
  - assert (IH' := IH (fun x Hx => H x (or_intror Hx))).
    destruct (q a) eqn:Eq; simpl.
    + destruct (p a) eqn:Ep.
      * rewrite (H a (or_introl eq_refl) Ep) in Eq. subst b. now rewrite IH'.
      * exact IH'.
    + destruct (p a) eqn:Ep.
      * rewrite (H a (or_introl eq_refl) Ep) in Eq. subst b. exact IH'.
      * exact IH'.
Qed.

Lemma key_of_built (out key_cols : list string) (f : string -> value) :
  incl key_cols out ->
  map (cell_by_name out (map f out)) key_cols = map f key_cols.
Proof.
  intro H. apply map_ext_in. intros c Hc. apply cell_by_name_map. now apply H.
Qed.

End SparkFacts.

(** ** The full-replace merge *)

Module ScdFacts.
Import Spark Scd Fragment SparkFacts.

Lemma wf_spec (df : DataFrame) :
  wf df = true ->
  NoDup (columns df)
  /\ forall r, In r (rows df) -> List.length r = List.length (columns df).
Proof.
  unfold wf. intro H. apply andb_true_iff in H. destruct H as [H1 H2].
  split.
  - apply has_dup_NoDup. now apply negb_true_iff.
  - intros r Hr. rewrite forallb_forall in H2. now apply Nat.eqb_eq, H2.
Qed.

Lemma has_columns_spec (df : DataFrame) (cs : list string) :
  has_columns df cs = true -> incl cs (columns df).
Proof.
  unfold has_columns. rewrite forallb_forall. intros H c Hc.
  now apply mem_In, H.
Qed.

Lemma merge_inputs_ok_spec (source target : DataFrame) (key_cols : list string) :
  merge_inputs_ok source target key_cols = true ->
  wf source = true /\ wf target = true /\ key_cols <> [] /\ NoDup key_cols
  /\ incl key_cols (columns source) /\ incl key_cols (columns target).
Proof.
  unfold merge_inputs_ok. rewrite !andb_true_iff.
  intros [[[[[H1 H2] H3] H4] H5] H6]. repeat split; try assumption.
  - intro E. subst. discriminate.
  - apply has_dup_NoDup. now apply negb_true_iff.
  - now apply has_columns_spec.
  - now apply has_columns_spec.
Qed.

Lemma join_left_anti_nonempty (left right : DataFrame) (on : list string) :
  on <> [] ->
  join_left_anti left right on =
  (li <- mapM (resolve (columns left)) on ;;
   ri <- mapM (resolve (columns right)) on ;;
   Ok {| columns := on ++ filter (fun c => negb (mem c on)) (columns left);
         rows :=
           map (fun r => map (cell_by_name (columns left) r)
                             (on ++ filter (fun c => negb (mem c on)) (columns left)))
               (filter (fun r =>
                          negb (existsb
                                  (fun r' => keys_match (key_at li r) (key_at ri r'))
                                  (rows right)))
                       (rows left)) |}).
Proof.
  intro H. destruct on; [congruence | reflexivity].
Qed.

Lemma join_left_anti_closed (left right : DataFrame) (on : list string) :
  on <> [] -> NoDup (columns left) -> NoDup (columns right) ->
  incl on (columns left) -> incl on (columns right) ->
  join_left_anti left right on =
  Ok {| columns := on ++ filter (fun c => negb (mem c on)) (columns left);
        rows :=
          map (fun r => map (cell_by_name (columns left) r)
                            (on ++ filter (fun c => negb (mem c on)) (columns left)))
              (filter (fun r =>
                         negb (existsb
                                 (fun r' => keys_match
                                              (map (cell_by_name (columns left) r) on)
                                              (map (cell_by_name (columns right) r') on))
                                 (rows right)))
                      (rows left)) |}.
Proof.
  intros Hne Hl Hr Hil Hir. rewrite join_left_anti_nonempty by assumption.
  destruct (mapM_resolve_ok (columns left) on Hl Hil) as [li Hli].
  destruct (mapM_resolve_ok (columns right) on Hr Hir) as [ri Hri].
  rewrite Hli, Hri. unfold bind.
  apply mapM_resolve_Ok_inv in Hli. apply mapM_resolve_Ok_inv in Hri.
  f_equal. f_equal. f_equal.
  apply filter_ext. intro r. f_equal. apply existsb_ext_in. intros r' _.
  now rewrite (key_at_by_name _ _ _ r Hli), (key_at_by_name _ _ _ r' Hri).
Qed.

Lemma unionByName_closed (left right : DataFrame) :
  NoDup (columns left) -> NoDup (columns right) ->
  unionByName left right =
  Ok {| columns := union_columns left right;
        rows := map (fun r => r ++ repeat VNull
                                 (List.length
                                    (filter (fun c => negb (mem c (columns left)))
                                            (columns right))))
                    (rows left)
                ++ map (fun r => map (cell_by_name (columns right) r)
                                     (union_columns left right))
                       (rows right) |}.
Proof.
  intros Hl Hr. unfold unionByName.
  apply has_dup_NoDup in Hl. apply has_dup_NoDup in Hr.
  now rewrite Hl, Hr.
Qed.

Lemma select_closed (df : DataFrame) (cs : list string) :
  NoDup (columns df) -> incl cs (columns df) ->
  select df cs = Ok {| columns := cs; rows := map (key_of df cs) (rows df) |}.
Proof.
  intros Hnd Hin. unfold select.
  destruct (mapM_resolve_ok (columns df) cs Hnd Hin) as [idx Hidx].
  rewrite Hidx. unfold bind. do 2 f_equal.
  apply mapM_resolve_Ok_inv in Hidx.
  apply map_ext. intro r. apply (key_at_by_name _ _ _ r Hidx).
Qed.

(** The code computes the closed form. *)
Lemma full_replace_closed_form_gen (source target : DataFrame)
  (key_cols : list string) :
  NoDup (columns source) ->
  (forall r, In r (rows source) ->
             List.length r = List.length (columns source)) ->
  NoDup (columns target) ->
  key_cols <> [] -> NoDup key_cols ->
  incl key_cols (columns source) -> incl key_cols (columns target) ->
  scd_type1_full_replace source target key_cols
  = Ok (full_replace_result source target key_cols).
Proof.
  intros Hsn Hsl Htn Hne Hk Hks Hkt.
  unfold scd_type1_full_replace.
  rewrite select_closed by assumption. unfold bind at 1.
  rewrite join_left_anti_closed; try assumption;
    [| simpl; apply incl_refl]. unfold bind.
  rewrite unionByName_closed;
    [| assumption | simpl; now apply NoDup_key_others].
  unfold full_replace_result, union_columns. cbn [columns rows distinct].
  rewrite extra_columns by assumption.
  set (extra := filter (fun c => negb (mem c (columns source))) (columns target)).
  apply f_equal. apply f_equal. apply f_equal2.
  - apply map_ext_in. intros r Hr. unfold by_name. apply pad_by_name.
    + assumption.
    + now apply Hsl.
    + intros c Hc. unfold extra in Hc. apply filter_In in Hc.
      destruct Hc as [_ Hc]. apply negb_true_iff in Hc. now apply mem_not_In.
  - rewrite map_map. unfold by_name.
    rewrite (filter_ext_in _ (fun r => negb (key_matched source key_cols
                                               (key_of target key_cols r)))).
    + apply map_ext. intro r. apply rename_by_name.
      intros c Hc. now apply in_key_others.
    + intros r _. f_equal. rewrite existsb_distinct_rows, existsb_map.
      unfold key_matched. apply existsb_ext_in. intros sr _.
      unfold key_of at 1. f_equal. unfold key_of.
      now apply by_name_map_self.
Qed.

Lemma full_replace_closed_form (source target : DataFrame)
  (key_cols : list string) :
  merge_inputs_ok source target key_cols = true ->
  scd_type1_full_replace source target key_cols
  = Ok (full_replace_result source target key_cols).
Proof.
  intro Hok. apply merge_inputs_ok_spec in Hok.
  destruct Hok as (Hs & Ht & Hne & Hk & Hks & Hkt).
  apply wf_spec in Hs. destruct Hs as [Hsn Hsl].
  apply wf_spec in Ht. destruct Ht as [Htn Htl].
  now apply full_replace_closed_form_gen.
Qed.

Lemma incl_union_columns_l (source target : DataFrame) :
  incl (columns source) (union_columns source target).
Proof.
  intros c Hc. unfold union_columns. apply in_or_app. now left.
Qed.

Lemma NoDup_union_columns (source target : DataFrame) :
  NoDup (columns source) -> NoDup (columns target) ->
  NoDup (union_columns source target).
Proof.
  intros Hs Ht. unfold union_columns.
  apply NoDup_app; [assumption | now apply NoDup_filter |].
  intros c Hc Hf. apply filter_In in Hf. destruct Hf as [_ Hf].
  apply mem_In in Hc. rewrite Hc in Hf. discriminate.
Qed.

(** The key of a result row is the key of the input row it was read from. *)
Lemma key_of_result_row (df res : DataFrame) (key_cols : list string) (r : Row) :
  incl key_cols (columns res) ->
  key_of res key_cols (by_name df (columns res) r) = key_of df key_cols r.
Proof.
  intro H. unfold key_of, by_name. now apply key_of_built.
Qed.

Lemma key_matched_occurs (df : DataFrame) (key_cols : list string)
  (k : list value) :
  key_matched df key_cols k = true -> key_occurs df key_cols k = true.
Proof.
  unfold key_matched, key_occurs. rewrite !existsb_exists.
  intros [r [Hr Hm]]. exists r. split; [assumption|].
  apply keys_match_eq in Hm. subst. apply row_eqb_refl.
Qed.

Lemma key_occurs_matched (df : DataFrame) (key_cols : list string)
  (k : list value) :
  no_null k = true -> key_occurs df key_cols k = true ->
  key_matched df key_cols k = true.
Proof.
  unfold key_matched, key_occurs, no_null. rewrite !existsb_exists.
  intros Hn [r [Hr Hm]]. exists r. split; [assumption|].
  apply row_eqb_eq in Hm. rewrite <- Hm. now apply keys_match_refl.
Qed.

Lemma key_occurs_count (df : DataFrame) (key_cols : list string)
  (k : list value) :
  key_occurs df key_cols k = false -> count_key df key_cols k = 0.
Proof.
  unfold key_occurs, count_key. intro H.
  rewrite filter_none; [reflexivity|]. intros r Hr.
  destruct (row_eqb (key_of df key_cols r) k) eqn:E; [|reflexivity].
  assert (Hex : existsb (fun r => row_eqb k (key_of df key_cols r)) (rows df) = true).
  { apply existsb_exists. exists r. split; [assumption|].
    now rewrite row_eqb_sym. }
  congruence.
Qed.

(** How often a key combination appears in the closed form. *)
Lemma count_key_full_replace (source target : DataFrame)
  (key_cols : list string) (k : list value) :
  incl key_cols (columns source) ->
  count_key (full_replace_result source target key_cols) key_cols k
  = count_key source key_cols k
    + (if key_matched source key_cols k then 0
       else count_key target key_cols k).
Proof.
  intro Hks.
  assert (Hin : incl key_cols
                     (columns (full_replace_result source target key_cols))).
  { intros c Hc. apply incl_union_columns_l. now apply Hks. }
  unfold count_key at 1.
  change (rows (full_replace_result source target key_cols))
    with (map (by_name source (columns (full_replace_result source target key_cols)))
              (rows source)
          ++ map (by_name target (columns (full_replace_result source target key_cols)))
                 (filter (fun r => negb (key_matched source key_cols
                                           (key_of target key_cols r)))
                         (rows target))).
  rewrite filter_app, length_app, !filter_map_comm, !length_map.
  f_equal.
  - unfold count_key. f_equal. apply filter_ext. intro r.
    now rewrite key_of_result_row.
  - rewrite (filter_ext _ (fun r => row_eqb (key_of target key_cols r) k))
      by (intro r; now rewrite key_of_result_row).
    rewrite (filter_filter_const _ _ (negb (key_matched source key_cols k))).
    + now destruct (key_matched source key_cols k).
    + intros r _ Hr. apply row_eqb_eq in Hr. now rewrite Hr.
Qed.

(** The example of [main]: Bob's row is replaced, Diana's is added, Alice's
    and Charlie's are kept. *)
Lemma main_example_full_replace :
  scd_type1_full_replace src_df tgt_df ["id"]
  = Ok {| columns := ["id"; "name"; "age"; "state"];
          rows := [ [VInt 2; VStr "Bobby"; VInt 26; VNull];
                    [VInt 4; VStr "Diana"; VInt 22; VStr "WA"];
                    [VInt 1; VStr "Alice"; VInt 30; VStr "NY"];
                    [VInt 3; VStr "Charlie"; VInt 40; VStr "TX"] ] |}.
Proof. reflexivity. Qed.

(** C1 (amended).  On tables the embedding covers (plain names, distinct
    up to case, columns of the same name of the same type) and under the
    contract of the merge (well-formed tables, a non-empty list of
    distinct key columns present on both sides),
    [scd_type1_full_replace] returns all rows of [source], read under the
    union schema with NULL for the columns [source] lacks, followed by
    exactly the rows of [target] whose key is matched by no row of
    [source], a key holding a NULL matching nothing.  Hence a key free of
    NULL that occurs in [source] appears as often as in [source]; a key
    that does not occur in [source] appears as often as in [target], each
    such row carrying its original target values; a key absent from both
    never appears. *)
Theorem full_replace_rows_and_counts (dtypes : string -> dtype)
  (source target : DataFrame)
  (key_cols : list string) :
  covered dtypes source target key_cols = true ->
  merge_inputs_ok source target key_cols = true ->
  exists result,
    scd_type1_full_replace source target key_cols = Ok result
    /\ result = full_replace_result source target key_cols
    /\ (forall k, count_key result key_cols k
                  = count_key source key_cols k
                    + (if key_matched source key_cols k then 0
                       else count_key target key_cols k))
    /\ (forall k, no_null k = true -> key_occurs source key_cols k = true ->
                  count_key result key_cols k = count_key source key_cols k)
    /\ (forall k, key_occurs source key_cols k = false ->
                  count_key result key_cols k = count_key target key_cols k)
    /\ (forall k, key_occurs source key_cols k = false ->
                  key_occurs target key_cols k = false ->
                  count_key result key_cols k = 0)
    /\ (forall r, In r (rows target) ->
                  key_matched source key_cols (key_of target key_cols r) = false ->
                  In (by_name target (columns result) r) (rows result)
                  /\ forall c, In c (columns target) ->
                               cell_by_name (columns result)
                                            (by_name target (columns result) r) c
                               = cell_by_name (columns target) r c).
Proof.
  intros _ Hok. exists (full_replace_result source target key_cols).
  pose proof (full_replace_closed_form _ _ _ Hok) as Hcf.
  apply merge_inputs_ok_spec in Hok.
  destruct Hok as (Hs & Ht & Hne & Hk & Hks & Hkt).
  assert (Hcount := fun k => count_key_full_replace source target key_cols k Hks).
  split; [assumption|]. split; [reflexivity|]. split; [assumption|].
  split; [|split; [|split]].
  - intros k Hn Ho. rewrite Hcount.
    rewrite (key_occurs_matched _ _ _ Hn Ho). lia.
  - intros k Ho. rewrite Hcount.
    destruct (key_matched source key_cols k) eqn:E.
    + apply key_matched_occurs in E. congruence.
    + now rewrite (key_occurs_count _ _ _ Ho).
  - intros k Ho Ho'. rewrite Hcount.
    destruct (key_matched source key_cols k) eqn:E.
    + apply key_matched_occurs in E. congruence.
    + now rewrite (key_occurs_count _ _ _ Ho), (key_occurs_count _ _ _ Ho').
  - intros r Hr Hm. split.
    + cbn [rows full_replace_result columns]. apply in_or_app. right.
      apply in_map. apply filter_In. split; [assumption | now rewrite Hm].
    + intros c Hc. unfold by_name. apply cell_by_name_map.
      cbn [columns full_replace_result]. unfold union_columns.
      apply in_or_app. destruct (mem c (columns source)) eqn:E.
      * left. now apply mem_In.
      * right. apply filter_In. split; [assumption | now rewrite E].
Qed.

Lemma full_replace_rows_and_counts_witness :
  merge_inputs_ok src_df tgt_df ["id"] = true
  /\ exists result,
       scd_type1_full_replace src_df tgt_df ["id"] = Ok result
       /\ count_key result ["id"] [VInt 2] = 1.
Proof.
  split; [reflexivity|].
  destruct (full_replace_rows_and_counts example_types src_df tgt_df ["id"] eq_refl eq_refl)
    as [result [H1 [_ [_ [H2 _]]]]].
  exists result. split; [exact H1|].
  rewrite (H2 [VInt 2]); reflexivity.
Defined.

(** C1 as stated fails on [null_key_source] and [dup_key_target]: the
    target row with a NULL key is kept although that key combination occurs
    in [source], so the key NULL appears more often than in [source]; and
    the key 1, in [target] twice and not in [source], appears twice, not
    once. *)
Lemma full_replace_as_stated_fails :
  covered example_types null_key_source dup_key_target ["id"] = true
  /\ merge_inputs_ok null_key_source dup_key_target ["id"] = true
  /\ exists result,
       scd_type1_full_replace null_key_source dup_key_target ["id"] = Ok result
       /\ result <> spec_full_replace null_key_source dup_key_target ["id"]
       /\ key_occurs null_key_source ["id"] [VNull] = true
       /\ count_key result ["id"] [VNull]
          <> count_key null_key_source ["id"] [VNull]
       /\ key_occurs dup_key_target ["id"] [VInt 1] = true
       /\ key_occurs null_key_source ["id"] [VInt 1] = false
       /\ count_key result ["id"] [VInt 1] <> 1.
Proof.
  split; [reflexivity|]. split; [reflexivity|].
  eexists. split; [vm_compute; reflexivity|].
  repeat split; try reflexivity; vm_compute; discriminate.
Qed.

Lemma union_columns_idem (source target : DataFrame) (key_cols : list string) :
  union_columns source (full_replace_result source target key_cols)
  = union_columns source target.
Proof.
  unfold union_columns at 1. cbn [columns full_replace_result].
  unfold union_columns. rewrite filter_app. f_equal.
  rewrite filter_none.
  - simpl. apply filter_all. intros c Hc. apply filter_In in Hc. tauto.
  - intros c Hc. apply negb_false_iff. now apply mem_In.
Qed.

Lemma full_replace_result_fixpoint (source target : DataFrame)
  (key_cols : list string) :
  NoDup (columns source) -> NoDup (columns target) ->
  incl key_cols (columns source) ->
  keys_not_null source key_cols = true ->
  full_replace_result source (full_replace_result source target key_cols) key_cols
  = full_replace_result source target key_cols.
Proof.
  intros Hsn Htn Hks Hnn.
  set (res := full_replace_result source target key_cols).
  assert (Hcols : columns res = union_columns source target) by reflexivity.
  assert (Hin : incl key_cols (columns res)).
  { intros c Hc. apply incl_union_columns_l. now apply Hks. }
  assert (Hu : union_columns source res = columns res)
    by apply union_columns_idem.
  unfold full_replace_result at 1. cbv zeta. rewrite Hu.
  transitivity (mkDF (columns res) (rows res)); [|reflexivity].
  apply f_equal.
  change (rows res)
    with (map (by_name source (columns res)) (rows source)
          ++ map (by_name target (columns res))
                 (filter (fun r => negb (key_matched source key_cols
                                           (key_of target key_cols r)))
                         (rows target))).
  rewrite filter_app, !filter_map_comm.
  rewrite (filter_none _ (rows source)).
  - simpl. rewrite filter_all.
    + apply f_equal. rewrite map_map. apply map_ext. intro r. unfold by_name.
      apply (by_name_map_self (union_columns source target)).
      now apply NoDup_union_columns.
    + intros r Hr. apply filter_In in Hr. destruct Hr as [_ Hr].
      now rewrite key_of_result_row.
  - intros r Hr. rewrite key_of_result_row by assumption.
    apply negb_false_iff. unfold key_matched. apply existsb_exists.
    exists r. split; [assumption|]. apply keys_match_refl.
    unfold keys_not_null in Hnn. rewrite forallb_forall in Hnn.
    now apply Hnn.
Qed.

(** C7 (amended).  On tables the embedding covers and under the contract
    of the merge, when no row of
    [source] holds a NULL in a key column, merging [source] into the result
    of a full-replace merge gives that result again, as the same table and
    so as the same multiset of rows. *)
Theorem full_replace_idempotent (dtypes : string -> dtype)
  (source target : DataFrame)
  (key_cols : list string) :
  covered dtypes source target key_cols = true ->
  merge_inputs_ok source target key_cols = true ->
  keys_not_null source key_cols = true ->
  (exists result,
     scd_type1_full_replace source target key_cols = Ok result
     /\ scd_type1_full_replace source result key_cols = Ok result)
  /\ (r <- scd_type1_full_replace source target key_cols ;;
      scd_type1_full_replace source r key_cols)
     = scd_type1_full_replace source target key_cols.
Proof.
  intros _ Hok Hnn.
  pose proof (full_replace_closed_form _ _ _ Hok) as Hcf.
  apply merge_inputs_ok_spec in Hok.
  destruct Hok as (Hs & Ht & Hne & Hk & Hks & Hkt).
  apply wf_spec in Hs. destruct Hs as [Hsn Hsl].
  apply wf_spec in Ht. destruct Ht as [Htn Htl].
  assert (Hagain :
            scd_type1_full_replace source
              (full_replace_result source target key_cols) key_cols
            = Ok (full_replace_result source target key_cols)).
  { rewrite full_replace_closed_form_gen; try assumption.
    - now rewrite full_replace_result_fixpoint.
    - now apply NoDup_union_columns.
    - intros c Hc. apply incl_union_columns_l. now apply Hks. }
  split.
  - exists (full_replace_result source target key_cols). now split.
  - rewrite Hcf. exact Hagain.
Qed.

Lemma full_replace_idempotent_witness :
  exists result,
    scd_type1_full_replace src_df tgt_df ["id"] = Ok result
    /\ scd_type1_full_replace src_df result ["id"] = Ok result.
Proof.
  exact (proj1 (full_replace_idempotent example_types src_df tgt_df ["id"] eq_refl eq_refl eq_refl)).
Defined.

(** C7 as stated fails on a source row with a NULL key: the row never
    matches itself, so merging again appends it a second time and the two
    results differ as multisets of rows. *)
Lemma full_replace_not_idempotent_on_null_key :
  covered example_types null_key_source empty_target ["id"] = true
  /\ merge_inputs_ok null_key_source empty_target ["id"] = true
  /\ exists once twice,
       scd_type1_full_replace null_key_source empty_target ["id"] = Ok once
       /\ scd_type1_full_replace null_key_source once ["id"] = Ok twice
       /\ ~ Permutation (rows twice) (rows once).
Proof.
  split; [reflexivity|]. split; [reflexivity|].
  eexists. eexists. split; [vm_compute; reflexivity|].
  split; [vm_compute; reflexivity|].
  intro H. apply Permutation_length in H. discriminate.
Qed.

Lemma incl_union_columns_r (source target : DataFrame) :
  incl (columns target) (union_columns source target).
Proof.
  intros c Hc. unfold union_columns. apply in_or_app.
  destruct (mem c (columns source)) eqn:E.
  - left. now apply mem_In.
  - right. apply filter_In. split; [assumption | now rewrite E].
Qed.

(** A row read under a wider schema still reads the same under every name. *)
Lemma read_by_name_row (df : DataFrame) (out : list string) (r : Row)
  (c : string) :
  incl (columns df) out ->
  cell_by_name out (by_name df out r) c = cell_by_name (columns df) r c.
Proof.
  intro H. unfold by_name.
  destruct (in_dec string_dec c out) as [Hin|Hout].
  - now apply cell_by_name_map.
  - rewrite cell_by_name_absent by assumption.
    symmetry. apply cell_by_name_absent. intro Hc. apply Hout. now apply H.
Qed.

Lemma Forall2_map_r {A B : Type} (R : A -> B -> Prop) (f : A -> B)
  (l : list A) :
  (forall x, In x l -> R x (f x)) -> Forall2 R l (map f l).
Proof.
  induction l as [|a l IH]; simpl; intro H; constructor.
  - apply H. now left.
  - apply IH. auto.
Qed.

Lemma by_name_rows_self (df : DataFrame) :
  wf df = true -> map (by_name df (columns df)) (rows df) = rows df.
Proof.
  intro H. apply wf_spec in H. destruct H as [Hn Hl].
  rewrite <- (map_id (rows df)) at 2. apply map_ext_in. intros r Hr.
  unfold by_name. apply by_name_self; auto.
Qed.

(** C8 (amended).  On tables the embedding covers and under the contract
    of the merge: with a [source] that has no rows the merge returns the
    rows of [target], in order, laid out under the columns of [source]
    followed by the columns only [target] has: each row reads under every
    column name as it did in [target], so NULL under a column only
    [source] has; the result is the table [target] itself when both sides
    have the same columns in the same order.  With a [target] that has no
    rows it returns the rows of [source] under the same columns, NULL
    under a column only [target] has, and [source] itself when [target]
    brings no new column. *)
Theorem full_replace_empty_side (dtypes : string -> dtype)
  (source target : DataFrame) (key_cols : list string) :
  covered dtypes source target key_cols = true ->
  merge_inputs_ok source target key_cols = true ->
  (rows source = [] ->
   exists result,
     scd_type1_full_replace source target key_cols = Ok result
     /\ columns result
        = columns source
          ++ filter (fun c => negb (mem c (columns source))) (columns target)
     /\ rows result = map (by_name target (columns result)) (rows target)
     /\ Forall2 (fun tr orow =>
                   forall c, cell_by_name (columns result) orow c
                             = cell_by_name (columns target) tr c)
                (rows target) (rows result)
     /\ (columns source = columns target -> result = target))
  /\ (rows target = [] ->
      exists result,
        scd_type1_full_replace source target key_cols = Ok result
        /\ columns result
           = columns source
             ++ filter (fun c => negb (mem c (columns source)))
                       (columns target)
        /\ rows result = map (by_name source (columns result)) (rows source)
        /\ Forall2 (fun sr orow =>
                      forall c, cell_by_name (columns result) orow c
                                = cell_by_name (columns source) sr c)
                   (rows source) (rows result)
        /\ (incl (columns target) (columns source) -> result = source)).
Proof.
  intros _ Hok. pose proof (full_replace_closed_form _ _ _ Hok) as Hcf.
  apply merge_inputs_ok_spec in Hok.
  destruct Hok as (Hs & Ht & Hne & Hk & Hks & Hkt).
  split; intro Hempty; exists (full_replace_result source target key_cols);
    (split; [exact Hcf|]); (split; [reflexivity|]).
  - unfold full_replace_result. rewrite Hempty. cbn [columns rows map app].
    rewrite filter_all
      by (intros r _; unfold key_matched; rewrite Hempty; reflexivity).
    split; [reflexivity|]. split.
    + apply Forall2_map_r. intros r _ c. apply read_by_name_row.
      apply incl_union_columns_r.
    + intro Hsame.
      assert (Hu : union_columns source target = columns target).
      { unfold union_columns. rewrite Hsame. rewrite filter_none.
        - apply app_nil_r.
        - intros c Hc. apply negb_false_iff. now apply mem_In. }
      rewrite Hu, by_name_rows_self by assumption. now destruct target.
  - unfold full_replace_result. rewrite Hempty. cbn [columns rows map filter].
    rewrite app_nil_r. split; [reflexivity|]. split.
    + apply Forall2_map_r. intros r _ c. apply read_by_name_row.
      apply incl_union_columns_l.
    + intro Hsub.
      assert (Hu : union_columns source target = columns source).
      { unfold union_columns. rewrite filter_none.
        - apply app_nil_r.
        - intros c Hc. apply negb_false_iff. apply mem_In. now apply Hsub. }
      rewrite Hu, by_name_rows_self by assumption. now destruct source.
Qed.

Lemma full_replace_empty_side_witness :
  (exists result,
     scd_type1_full_replace empty_target tgt_df ["id"] = Ok result
     /\ List.length (rows result) = 3)
  /\ (exists result,
        scd_type1_full_replace src_df empty_target ["id"] = Ok result
        /\ result = src_df).
Proof.
  split.
  - destruct (proj1 (full_replace_empty_side example_types empty_target tgt_df
                       ["id"] eq_refl eq_refl)
                    eq_refl) as [result [H1 [_ [_ [H2 _]]]]].
    exists result. split; [exact H1|].
    apply Forall2_length in H2. now rewrite <- H2.
  - destruct (proj2 (full_replace_empty_side example_types src_df empty_target
                       ["id"] eq_refl eq_refl)
                    eq_refl) as [result [H1 [_ [_ [_ H2]]]]].
    exists result. split; [exact H1|]. apply H2.
    intros c Hc. simpl in *. tauto.
Defined.

(** C8 as stated fails when the empty side has a column of its own: a
    [source] without rows and with the columns id, extra, merged with a
    target over id, name, gives a table over id, extra, name whose row
    holds NULL under extra; it is not the target. *)
Lemma full_replace_empty_source_adds_column :
  covered example_types empty_wide_source narrow_target ["id"] = true
  /\ merge_inputs_ok empty_wide_source narrow_target ["id"] = true
  /\ rows empty_wide_source = []
  /\ exists result,
       scd_type1_full_replace empty_wide_source narrow_target ["id"]
       = Ok result
       /\ columns result = ["id"; "extra"; "name"]
       /\ rows result = [ [VInt 1; VNull; VStr "Alice"] ]
       /\ result <> narrow_target.
Proof.
  split; [reflexivity|]. split; [reflexivity|]. split; [reflexivity|].
  eexists. split; [reflexivity|]. split; [reflexivity|].
  split; [reflexivity|]. discriminate.
Qed.

(** ** The column-level merge *)

Lemma mapM_Forall2 {A B : Type} (f : A -> result B) (l : list A) :
  (forall a, In a l -> exists b, f a = Ok b) ->
  exists bs, mapM f l = Ok bs /\ Forall2 (fun a b => f a = Ok b) l bs.
Proof.
  induction l as [|a l IH]; simpl; intro H.
  - exists []. split; [reflexivity | constructor].
  - destruct (H a (or_introl eq_refl)) as [b Hb].
    destruct IH as [bs [Hbs HF]]; [auto|].
    exists (b :: bs). rewrite Hb, Hbs. split; [reflexivity | now constructor].
Qed.

Lemma mapM_map {A B : Type} (f : A -> result B) (g : A -> B) (l : list A) :
  (forall a, In a l -> f a = Ok (g a)) -> mapM f l = Ok (map g l).
Proof.
  induction l as [|a l IH]; simpl; intro H; [reflexivity|].
  rewrite (H a) by now left. simpl. rewrite IH by auto. reflexivity.
Qed.

Lemma side_cell_by_name (cols : list string) (o : option Row) (c : string)
  (i : nat) :
  resolve cols c = Ok i -> side_cell o i = side_by_name cols o c.
Proof.
  intro H. apply resolve_Ok_inv in H. destruct o as [r|]; simpl; [|reflexivity].
  unfold cell_by_name. now rewrite H.
Qed.

(** Analysis replaces names by positions without changing the value. *)
Lemma analyze_eval (j : Joined) (e : Column) (e' : RColumn)
  (jr : option Row * option Row) :
  analyze j e = Ok e' ->
  eval e' jr = eval_named (s_columns j) (t_columns j) e jr.
Proof.
  revert e'. induction e as [a c|x IHx y IHy|x IHx|c IHc x IHx y IHy];
    intros e' H; simpl in H.
  - destruct a;
      (match type of H with
       | context [resolve ?cols ?c] =>
           destruct (resolve cols c) as [i|] eqn:E; simpl in H; [|discriminate]
       end);
      inversion H; subst; simpl; now apply side_cell_by_name.
  - destruct (analyze j x) as [x'|]; simpl in H; [|discriminate].
    destruct (analyze j y) as [y'|]; simpl in H; [|discriminate].
    inversion H; subst. simpl. now rewrite (IHx x'), (IHy y').
  - destruct (analyze j x) as [x'|]; simpl in H; [|discriminate].
    inversion H; subst. simpl. now rewrite (IHx x').
  - destruct (analyze j c) as [c'|]; simpl in H; [|discriminate].
    destruct (analyze j x) as [x'|]; simpl in H; [|discriminate].
    destruct (analyze j y) as [y'|]; simpl in H; [|discriminate].
    inversion H; subst. simpl. now rewrite (IHc c'), (IHx x'), (IHy y').
Qed.

Lemma analyze_ok (j : Joined) (e : Column) :
  NoDup (s_columns j) -> NoDup (t_columns j) ->
  refs_ok (s_columns j) (t_columns j) e = true ->
  exists e', analyze j e = Ok e'.
Proof.
  intros Hs Ht. induction e as [a c|x IHx y IHy|x IHx|c IHc x IHx y IHy];
    simpl; intro H.
  - destruct a; apply mem_In in H.
    + destruct (resolve_ok _ _ Hs H) as [i [_ Hi]]. rewrite Hi. simpl. eauto.
    + destruct (resolve_ok _ _ Ht H) as [i [_ Hi]]. rewrite Hi. simpl. eauto.
  - apply andb_true_iff in H. destruct H as [H1 H2].
    destruct (IHx H1) as [x' Hx]. destruct (IHy H2) as [y' Hy].
    rewrite Hx, Hy. simpl. eauto.
  - destruct (IHx H) as [x' Hx]. rewrite Hx. simpl. eauto.
  - apply andb_true_iff in H. destruct H as [H H3].
    apply andb_true_iff in H. destruct H as [H1 H2].
    destruct (IHc H1) as [c' Hc]. destruct (IHx H2) as [x' Hx].
    destruct (IHy H3) as [y' Hy]. rewrite Hc, Hx, Hy. simpl. eauto.
Qed.

Lemma select_exprs_closed (j : Joined) (exprs : list (Column * string)) :
  NoDup (s_columns j) -> NoDup (t_columns j) ->
  (forall e, In e exprs -> refs_ok (s_columns j) (t_columns j) (fst e) = true) ->
  select_exprs j exprs =
  Ok {| columns := map snd exprs;
        rows := map (fun jr =>
                       map (fun e => eval_named (s_columns j) (t_columns j)
                                                (fst e) jr) exprs)
                    (jrows j) |}.
Proof.
  intros Hs Ht Hrefs. unfold select_exprs.
  destruct (mapM_Forall2 (fun e => analyze j (fst e)) exprs) as [es [Hes HF]].
  { intros e He. apply analyze_ok; auto. }
  rewrite Hes. unfold bind. apply f_equal. apply f_equal.
  apply map_ext. intro jr.
  clear Hes Hrefs. induction HF as [|e e' exprs es He _ IH]; simpl;
    [reflexivity|].
  rewrite IH. f_equal. now apply analyze_eval.
Qed.

Lemma join_fullouter_nonempty (t s : DataFrame) (on : list string) :
  on <> [] ->
  join_fullouter t s on =
  (ti <- mapM (resolve (columns t)) on ;;
   si <- mapM (resolve (columns s)) on ;;
   Ok {| t_columns := columns t;
         s_columns := columns s;
         jrows :=
           flat_map (fun tr =>
                       match filter (fun sr => keys_match (key_at ti tr)
                                                          (key_at si sr))
                                    (rows s) with
                       | [] => [(Some tr, None)]
                       | ms => map (fun sr => (Some tr, Some sr)) ms
                       end) (rows t)
           ++ map (fun sr => (None, Some sr))
                  (filter (fun sr =>
                             negb (existsb (fun tr => keys_match (key_at ti tr)
                                                                 (key_at si sr))
                                           (rows t)))
                          (rows s)) |}).
Proof.
  intro H. destruct on; [congruence | reflexivity].
Qed.

Lemma flat_map_ext_fun {A B : Type} (f g : A -> list B) (l : list A) :
  (forall a, f a = g a) -> flat_map f l = flat_map g l.
Proof.
  intro H. induction l as [|a l IH]; simpl; [reflexivity|].
  now rewrite H, IH.
Qed.

Lemma join_fullouter_closed (source target : DataFrame) (key_cols : list string) :
  key_cols <> [] -> NoDup (columns source) -> NoDup (columns target) ->
  incl key_cols (columns source) -> incl key_cols (columns target) ->
  join_fullouter target source key_cols =
  Ok {| t_columns := columns target;
        s_columns := columns source;
        jrows := joined_rows source target key_cols |}.
Proof.
  intros Hne Hs Ht Hks Hkt. rewrite join_fullouter_nonempty by assumption.
  destruct (mapM_resolve_ok (columns target) key_cols Ht Hkt) as [ti Hti].
  destruct (mapM_resolve_ok (columns source) key_cols Hs Hks) as [si Hsi].
  rewrite Hti, Hsi. unfold bind.
  apply mapM_resolve_Ok_inv in Hti. apply mapM_resolve_Ok_inv in Hsi.
  assert (Hm : forall tr sr,
             keys_match (key_at ti tr) (key_at si sr)
             = keys_match (key_of target key_cols tr) (key_of source key_cols sr)).
  { intros tr sr.
    now rewrite (key_at_by_name _ _ _ tr Hti), (key_at_by_name _ _ _ sr Hsi). }
  apply f_equal. apply f_equal. unfold joined_rows. apply f_equal2.
  - apply flat_map_ext_fun. intro tr.
    rewrite (filter_ext _ (fun sr => keys_match (key_of target key_cols tr)
                                                (key_of source key_cols sr)));
      [reflexivity | intro sr; apply Hm].
  - apply f_equal. apply filter_ext. intro sr. apply f_equal.
    apply existsb_ext_in. intros tr _. apply Hm.
Qed.

Lemma in_insert_sorted (x c : string) (l : list string) :
  In x (insert_sorted c l) <-> x = c \/ In x l.
Proof.
  induction l as [|a l IH]; simpl.
  - intuition.
  - destruct (String.leb c a); simpl; [intuition|].
    rewrite IH. intuition.
Qed.

Lemma in_sorted (x : string) (l : list string) : In x (sorted l) <-> In x l.
Proof.
  induction l as [|a l IH]; simpl; [tauto|].
  rewrite in_insert_sorted, IH. intuition.
Qed.

Lemma NoDup_insert_sorted (c : string) (l : list string) :
  ~ In c l -> NoDup l -> NoDup (insert_sorted c l).
Proof.
  induction l as [|a l IH]; simpl; intros Hc Hl.
  - constructor; [tauto | constructor].
  - destruct (String.leb c a).
    + constructor; [simpl; tauto | assumption].
    + inversion Hl; subst. constructor.
      * rewrite in_insert_sorted. intuition.
      * apply IH; tauto.
Qed.

Lemma NoDup_sorted (l : list string) : NoDup l -> NoDup (sorted l).
Proof.
  induction 1 as [|a l Ha Hl IH]; simpl; [constructor|].
  apply NoDup_insert_sorted; [|assumption]. now rewrite in_sorted.
Qed.

Lemma in_data_columns (source target : DataFrame) (key_cols : list string)
  (update_cols : option (list string)) (c : string) :
  In c (data_columns source target key_cols update_cols) ->
  ~ In c key_cols /\ (In c (columns target) \/ In c (columns source)).
Proof.
  unfold data_columns, set_union. intro H.
  assert (H' : In c (sorted (filter (fun c => negb (mem c key_cols))
                                    (nodup string_dec
                                           (columns target ++ columns source))))).
  { destruct update_cols as [[|u us]|]; try assumption.
    apply filter_In in H. tauto. }
  apply (proj1 (in_sorted _ _)) in H'. apply filter_In in H'.
  destruct H' as [H1 H2].
  apply nodup_In in H1. apply in_app_or in H1.
  apply negb_true_iff in H2. apply mem_not_In in H2. tauto.
Qed.

Lemma NoDup_data_columns (source target : DataFrame) (key_cols : list string)
  (update_cols : option (list string)) :
  NoDup (data_columns source target key_cols update_cols).
Proof.
  unfold data_columns, set_union.
  assert (H : NoDup (sorted (filter (fun c => negb (mem c key_cols))
                                    (nodup string_dec
                                           (columns target ++ columns source))))).
  { apply NoDup_sorted, NoDup_filter, NoDup_nodup. }
  destruct update_cols as [[|u us]|]; try assumption.
  now apply NoDup_filter.
Qed.

Lemma in_data_columns_iff (source target : DataFrame) (key_cols : list string)
  (update_cols : option (list string)) (c : string) :
  In c (data_columns source target key_cols update_cols) <->
  ~ In c key_cols
  /\ (In c (columns target) \/ In c (columns source))
  /\ match update_cols with
     | Some (u :: us) => In c (u :: us)
     | _ => True
     end.
Proof.
  assert (H : In c (sorted (filter (fun c => negb (mem c key_cols))
                              (set_union (columns target) (columns source))))
              <-> ~ In c key_cols
                  /\ (In c (columns target) \/ In c (columns source))).
  { rewrite in_sorted, filter_In. unfold set_union.
    rewrite nodup_In, in_app_iff, negb_true_iff, mem_not_In. tauto. }
  unfold data_columns. cbv zeta.
  destruct update_cols as [[|u us]|]; try (rewrite H; tauto).
  rewrite filter_In, H, mem_In. tauto.
Qed.

Lemma considered_spec (key_cols : list string)
  (update_cols : option (list string)) (c : string) :
  considered key_cols update_cols c = true <->
  ~ In c key_cols
  /\ match update_cols with
     | Some (u :: us) => In c (u :: us)
     | _ => True
     end.
Proof.
  unfold considered. rewrite andb_true_iff, negb_true_iff, mem_not_In.
  destruct update_cols as [[|u us]|]; try tauto.
  rewrite mem_In. tauto.
Qed.

Lemma data_columns_considered (source target : DataFrame)
  (key_cols : list string) (update_cols : option (list string)) (c : string) :
  In c (data_columns source target key_cols update_cols) <->
  considered key_cols update_cols c = true
  /\ (In c (columns source) \/ In c (columns target)).
Proof.
  rewrite in_data_columns_iff, considered_spec. tauto.
Qed.

Lemma column_level_inputs_ok_intro (source target : DataFrame)
  (key_cols : list string) (update_cols : option (list string)) :
  merge_inputs_ok source target key_cols = true ->
  data_on_both_sides source target key_cols update_cols = true ->
  column_level_inputs_ok source target key_cols update_cols = true.
Proof.
  intros Hok Hboth. unfold column_level_inputs_ok. rewrite Hok. cbn [andb].
  apply forallb_forall. intros c Hc.
  apply data_columns_considered in Hc. destruct Hc as [Hcons Hin].
  unfold data_on_both_sides in Hboth. rewrite forallb_forall in Hboth.
  assert (Hin' : In c (columns source ++ columns target))
    by (apply in_or_app; tauto).
  specialize (Hboth c Hin'). rewrite Hcons in Hboth. exact Hboth.
Qed.


Lemma chosen_expr_ok (key_cols : list string) (prefer : bool) (c : string) :
  key_cols <> [] ->
  chosen_expr key_cols prefer c = Ok (chosen_column key_cols prefer c).
Proof.
  intro H. unfold chosen_expr, chosen_column.
  destruct prefer; [|reflexivity].
  destruct key_cols; [congruence | reflexivity].
Qed.

Lemma column_level_inputs_ok_spec (source target : DataFrame)
  (key_cols : list string) (update_cols : option (list string)) :
  column_level_inputs_ok source target key_cols update_cols = true ->
  merge_inputs_ok source target key_cols = true
  /\ forall c, In c (data_columns source target key_cols update_cols) ->
               In c (columns source) /\ In c (columns target).
Proof.
  unfold column_level_inputs_ok. intro H. apply andb_true_iff in H.
  destruct H as [H1 H2]. split; [assumption|].
  intros c Hc. rewrite forallb_forall in H2. specialize (H2 c Hc).
  apply andb_true_iff in H2. now rewrite <- !mem_In.
Qed.

(** The code computes the closed form. *)
Lemma column_level_closed_form_gen (source target : DataFrame)
  (key_cols : list string) (update_cols : option (list string))
  (prefer : bool) :
  NoDup (columns source) -> NoDup (columns target) ->
  key_cols <> [] ->
  incl key_cols (columns source) -> incl key_cols (columns target) ->
  (forall c, In c (data_columns source target key_cols update_cols) ->
             In c (columns source) /\ In c (columns target)) ->
  scd_type1_column_level source target key_cols update_cols prefer
  = Ok (column_level_result source target key_cols update_cols prefer).
Proof.
  intros Hsn Htn Hne Hks Hkt Hdata.
  unfold scd_type1_column_level. cbv zeta.
  rewrite join_fullouter_closed by assumption. unfold bind at 1.
  rewrite (mapM_map _ (chosen_column key_cols prefer))
    by (intros c _; now apply chosen_expr_ok).
  unfold bind. rewrite select_exprs_closed; cbn [s_columns t_columns jrows];
    try assumption.
  - unfold column_level_result. apply f_equal. apply f_equal2.
    + rewrite map_app, !map_map. apply f_equal2.
      * rewrite <- (map_id key_cols) at 2. now apply map_ext.
      * rewrite <- (map_id (data_columns _ _ _ _)) at 2. apply map_ext.
        intro c. unfold chosen_column. now destruct prefer.
    + apply map_ext. intro jr. unfold column_level_row.
      now rewrite map_app, !map_map.
  - intros e He. apply in_app_or in He. destruct He as [He|He];
      apply in_map_iff in He; destruct He as [c [Hc Hin]]; subst e.
    + simpl. apply andb_true_iff. split; apply mem_In; auto.
    + destruct (Hdata c Hin) as [H1 H2].
      apply mem_In in H1. apply mem_In in H2.
      assert (H0 : mem (hd "" key_cols) (columns source) = true).
      { apply mem_In. apply Hks. destruct key_cols; [congruence | now left]. }
      unfold chosen_column. destruct prefer; simpl; now rewrite ?H0, ?H1, ?H2.
Qed.

Lemma column_level_closed_form (source target : DataFrame)
  (key_cols : list string) (update_cols : option (list string))
  (prefer : bool) :
  column_level_inputs_ok source target key_cols update_cols = true ->
  scd_type1_column_level source target key_cols update_cols prefer
  = Ok (column_level_result source target key_cols update_cols prefer).
Proof.
  intro Hok. apply column_level_inputs_ok_spec in Hok.
  destruct Hok as [Hok Hdata]. apply merge_inputs_ok_spec in Hok.
  destruct Hok as (Hs & Ht & Hne & Hk & Hks & Hkt).
  apply wf_spec in Hs. destruct Hs as [Hsn _].
  apply wf_spec in Ht. destruct Ht as [Htn _].
  now apply column_level_closed_form_gen.
Qed.

Lemma cell_by_name_app_l (xs ys : list string) (r1 r2 : Row) (c : string) :
  In c xs -> List.length r1 = List.length xs ->
  cell_by_name (xs ++ ys) (r1 ++ r2) c = cell_by_name xs r1 c.
Proof.
  intros Hin Hlen. unfold cell_by_name. rewrite col_index_app_l by assumption.
  destruct (col_index c xs) as [i|] eqn:E; [|reflexivity].
  apply col_index_Some in E.
  assert (Hi : i < List.length xs) by (apply nth_error_Some; congruence).
  unfold cell. apply app_nth1. lia.
Qed.

Lemma cell_by_name_app_r (xs ys : list string) (r1 r2 : Row) (c : string) :
  ~ In c xs -> List.length r1 = List.length xs ->
  cell_by_name (xs ++ ys) (r1 ++ r2) c = cell_by_name ys r2 c.
Proof.
  intros Hin Hlen. unfold cell_by_name. rewrite col_index_app_r by assumption.
  destruct (col_index c ys) as [i|]; simpl; [|reflexivity].
  unfold cell. rewrite <- Hlen. apply app_nth2_plus.
Qed.

(** Reading the result of the column-level merge by name. *)
Lemma read_key_column (source target : DataFrame) (key_cols data_cols : list string)
  (prefer : bool) (jr : option Row * option Row) (k : string) :
  In k key_cols ->
  cell_by_name (key_cols ++ data_cols)
               (column_level_row source target key_cols data_cols prefer jr) k
  = eval_named (columns source) (columns target) (fst (key_expr k)) jr.
Proof.
  intro H. unfold column_level_row.
  rewrite cell_by_name_app_l by (try assumption; apply length_map).
  now rewrite cell_by_name_map.
Qed.

Lemma read_data_column (source target : DataFrame) (key_cols data_cols : list string)
  (prefer : bool) (jr : option Row * option Row) (c : string) :
  In c data_cols -> ~ In c key_cols ->
  cell_by_name (key_cols ++ data_cols)
               (column_level_row source target key_cols data_cols prefer jr) c
  = eval_named (columns source) (columns target)
               (fst (chosen_column key_cols prefer c)) jr.
Proof.
  intros H Hk. unfold column_level_row.
  rewrite cell_by_name_app_r by (try assumption; apply length_map).
  now rewrite cell_by_name_map.
Qed.

Lemma existsb_false_forall {A : Type} (p : A -> bool) (l : list A) :
  existsb p l = false <-> forall x, In x l -> p x = false.
Proof.
  induction l as [|a l IH]; simpl.
  - split; [contradiction | reflexivity].
  - rewrite orb_false_iff, IH. split.
    + intros [H1 H2] x [Hx|Hx]; [now subst | auto].
    + intro H. split; auto.
Qed.

Lemma filter_nil_forall {A : Type} (p : A -> bool) (l : list A) :
  filter p l = [] -> forall x, In x l -> p x = false.
Proof.
  intros H x Hx. destruct (p x) eqn:E; [|reflexivity].
  assert (Hin : In x (filter p l)) by (apply filter_In; now split).
  rewrite H in Hin. contradiction.
Qed.

(** Every joined row pairs matching rows of the two inputs, or holds a row
    of one input that nothing matches on the other side. *)
Lemma joined_rows_sound (source target : DataFrame) (key_cols : list string) :
  Forall (joined_row_ok source target key_cols)
         (joined_rows source target key_cols).
Proof.
  unfold joined_rows. apply Forall_app. split; apply Forall_forall; intros jr Hjr.
  - apply in_flat_map in Hjr. destruct Hjr as [tr [Htr Hjr]].
    destruct (filter _ (rows source)) as [|sr0 ms] eqn:E.
    + destruct Hjr as [Hjr|[]]. subst jr. simpl. split; [assumption|].
      unfold key_matched. apply existsb_false_forall.
      now apply filter_nil_forall.
    + apply in_map_iff in Hjr. destruct Hjr as [sr [Hjr Hsr]]. subst jr.
      rewrite <- E in Hsr. apply filter_In in Hsr. simpl. tauto.
  - apply in_map_iff in Hjr. destruct Hjr as [sr [Hjr Hsr]]. subst jr.
    apply filter_In in Hsr. destruct Hsr as [Hsr Hno]. simpl.
    split; [assumption|]. apply negb_true_iff in Hno.
    intros tr Htr. apply (proj1 (existsb_false_forall _ _) Hno tr Htr).
Qed.

(** The example of [main], column by column: Bob keeps his state. *)
Lemma main_example_column_level :
  exists result,
    scd_type1_column_level src_df tgt_df ["id"] None false = Ok result
    /\ columns result = ["id"; "age"; "name"; "state"]
    /\ Permutation (rows result)
                   [ [VInt 1; VInt 30; VStr "Alice"; VStr "NY"];
                     [VInt 2; VInt 26; VStr "Bobby"; VStr "CA"];
                     [VInt 3; VInt 40; VStr "Charlie"; VStr "TX"];
                     [VInt 4; VInt 22; VStr "Diana"; VStr "WA"] ].
Proof.
  eexists. split; [reflexivity|]. split; [reflexivity|].
  apply Permutation_refl.
Qed.







Lemma rows_distinct_NoDup (l : list (list value)) :
  rows_distinct l = true <-> NoDup l.
Proof.
  induction l as [|r l IH]; simpl.
  - split; [constructor | reflexivity].
  - rewrite andb_true_iff, negb_true_iff, IH. split.
    + intros [H1 H2]. constructor; [|assumption].
      intro Hin. rewrite existsb_false_forall in H1.
      specialize (H1 r Hin). now rewrite row_eqb_refl in H1.
    + intro H. inversion H; subst. split; [|assumption].
      apply existsb_false_forall. intros x Hx.
      destruct (row_eqb r x) eqn:E; [|reflexivity].
      apply row_eqb_eq in E. now subst.
Qed.

Lemma NoDup_map_filter {Row' Key : Type} (key : Row' -> Key)
  (keep : Row' -> bool) (rs : list Row') :
  NoDup (map key rs) -> NoDup (map key (filter keep rs)).
Proof.
  intro Hnd. induction rs as [|r rs IH]; [constructor|].
  simpl in Hnd. apply NoDup_cons_iff in Hnd. destruct Hnd as [Hr Hnd].
  simpl. destruct (keep r); simpl; [|now apply IH].
  apply NoDup_cons; [|now apply IH].
  intro Hin. apply Hr. apply in_map_iff in Hin. destruct Hin as [x [Hx Hin]].
  apply filter_In in Hin. rewrite <- Hx. apply in_map. tauto.
Qed.

(** With distinct keys on [l], at most one element is selected by a
    predicate that pins the key. *)
Lemma filter_unique_key {A B : Type} (f : A -> B) (p : A -> bool) (v : B)
  (l : list A) :
  NoDup (map f l) -> (forall x, In x l -> p x = true -> f x = v) ->
  List.length (filter p l) <= 1.
Proof.
  induction l as [|a l IH]; simpl; intros Hnd Hp; [lia|].
  inversion Hnd; subst. destruct (p a) eqn:E; simpl.
  - rewrite (filter_none p l); [simpl; lia|].
    intros x Hx. destruct (p x) eqn:Ex; [|reflexivity].
    exfalso. apply H1.
    rewrite (Hp a (or_introl eq_refl) E), <- (Hp x (or_intror Hx) Ex).
    now apply in_map.
  - apply IH; auto.
Qed.

Lemma joined_key_target_only (source target : DataFrame) (key_cols : list string)
  (tr : Row) :
  joined_key source target key_cols (Some tr, None) = key_of target key_cols tr.
Proof.
  unfold joined_key, key_of. apply map_ext. intro k. reflexivity.
Qed.

Lemma joined_key_source_only (source target : DataFrame) (key_cols : list string)
  (sr : Row) :
  joined_key source target key_cols (None, Some sr) = key_of source key_cols sr.
Proof.
  unfold joined_key, key_of. apply map_ext. intro k. simpl.
  now destruct (cell_by_name (columns source) sr k).
Qed.

Lemma coalesce_no_null (f g : string -> value) (ks : list string) :
  forallb (fun v => negb (is_null v)) (map f ks) = true ->
  map (fun k => if is_null (f k) then g k else f k) ks = map f ks.
Proof.
  induction ks as [|k ks IH]; simpl; intro H; [reflexivity|].
  apply andb_true_iff in H. destruct H as [H1 H2].
  apply negb_true_iff in H1. rewrite H1. f_equal. now apply IH.
Qed.

Lemma joined_key_matched (source target : DataFrame) (key_cols : list string)
  (tr sr : Row) :
  keys_match (key_of target key_cols tr) (key_of source key_cols sr) = true ->
  joined_key source target key_cols (Some tr, Some sr) = key_of target key_cols tr.
Proof.
  intro H. pose proof (keys_match_eq _ _ H) as Heq.
  pose proof (keys_match_no_null _ _ H) as Hnn. rewrite Heq in Hnn.
  rewrite Heq. unfold joined_key. simpl.
  apply (coalesce_no_null (cell_by_name (columns source) sr)
                          (cell_by_name (columns target) tr) key_cols Hnn).
Qed.

(** With distinct source keys, each target row yields exactly one joined
    row, keyed as the target row. *)
Lemma joined_keys_target_part (source target : DataFrame) (key_cols : list string)
  (trs : list Row) :
  NoDup (map (key_of source key_cols) (rows source)) ->
  map (joined_key source target key_cols)
      (flat_map (fun tr =>
                   match filter (fun sr => keys_match (key_of target key_cols tr)
                                                      (key_of source key_cols sr))
                                (rows source) with
                   | [] => [(Some tr, None)]
                   | ms => map (fun sr => (Some tr, Some sr)) ms
                   end) trs)
  = map (key_of target key_cols) trs.
Proof.
  intro Hnd. induction trs as [|tr trs IH]; [reflexivity|].
  cbn [flat_map]. rewrite map_app, IH. clear IH.
  change (map (key_of target key_cols) (tr :: trs))
    with ([key_of target key_cols tr] ++ map (key_of target key_cols) trs).
  apply (f_equal (fun l => l ++ map (key_of target key_cols) trs)).
  pose proof (filter_unique_key (key_of source key_cols)
                (fun sr => keys_match (key_of target key_cols tr)
                                      (key_of source key_cols sr))
                (key_of target key_cols tr) (rows source) Hnd) as Hlen.
  destruct (filter _ (rows source)) as [|sr0 ms] eqn:E.
  - simpl. now rewrite joined_key_target_only.
  - assert (Hms : ms = []).
    { destruct ms; [reflexivity|]. simpl in Hlen.
      assert (S (S (List.length ms)) <= 1); [|lia].
      apply Hlen. intros x _ Hx. symmetry. now apply keys_match_eq. }
    subst ms. simpl. rewrite joined_key_matched; [reflexivity|].
    assert (Hin : In sr0 (filter (fun sr => keys_match (key_of target key_cols tr)
                                                       (key_of source key_cols sr))
                                 (rows source))) by (rewrite E; now left).
    apply filter_In in Hin. tauto.
Qed.

Lemma joined_keys_closed (source target : DataFrame) (key_cols : list string) :
  NoDup (map (key_of source key_cols) (rows source)) ->
  map (joined_key source target key_cols) (joined_rows source target key_cols)
  = map (key_of target key_cols) (rows target)
    ++ map (key_of source key_cols)
           (filter (fun sr =>
                      negb (existsb (fun tr => keys_match (key_of target key_cols tr)
                                                          (key_of source key_cols sr))
                                    (rows target)))
                   (rows source)).
Proof.
  intro Hnd. unfold joined_rows. rewrite map_app.
  rewrite joined_keys_target_part by assumption. f_equal.
  rewrite map_map. apply map_ext. intro sr. apply joined_key_source_only.
Qed.

Lemma column_level_result_keys (source target : DataFrame)
  (key_cols : list string) (update_cols : option (list string)) (prefer : bool) :
  map (key_of (column_level_result source target key_cols update_cols prefer)
              key_cols)
      (rows (column_level_result source target key_cols update_cols prefer))
  = map (joined_key source target key_cols)
        (joined_rows source target key_cols).
Proof.
  cbn [rows column_level_result]. rewrite map_map. apply map_ext. intro jr.
  unfold key_of, joined_key. cbn [columns column_level_result].
  apply map_ext_in. intros k Hk. now apply read_key_column.
Qed.

(** C4 (amended).  On tables the embedding covers, under the contract of
    the merge and when every considered column is a column of both
    tables: when the key combinations are distinct within [source] and
    within [target] and no row of [source] holds a NULL in a key column,
    the result has exactly one row per key combination present in either
    input; and the output rows are built one per joined row, in some
    order, each key column holding the source value when it is not NULL,
    else the target value. *)
Theorem column_level_one_row_per_key (dtypes : string -> dtype)
  (source target : DataFrame)
  (key_cols : list string) (update_cols : option (list string)) (prefer : bool) :
  covered dtypes source target key_cols = true ->
  merge_inputs_ok source target key_cols = true ->
  data_on_both_sides source target key_cols update_cols = true ->
  unique_keys source key_cols = true ->
  unique_keys target key_cols = true ->
  keys_not_null source key_cols = true ->
  exists result,
    scd_type1_column_level source target key_cols update_cols prefer = Ok result
    /\ NoDup (map (key_of result key_cols) (rows result))
    /\ (forall key,
          In key (map (key_of result key_cols) (rows result))
          <-> In key (map (key_of source key_cols) (rows source))
              \/ In key (map (key_of target key_cols) (rows target)))
    /\ exists jrs,
         Permutation (joined_rows source target key_cols) jrs
         /\ Forall (joined_row_ok source target key_cols) jrs
         /\ Forall2 (fun jr orow =>
                       forall k, In k key_cols ->
                                 cell_by_name (columns result) orow k
                                 = if is_null (s_value source jr k)
                                   then t_value target jr k
                                   else s_value source jr k)
                    jrs (rows result).
Proof.
  intros _ Hmerge Hboth Hus Hut Hnn.
  pose proof (column_level_inputs_ok_intro _ _ _ _ Hmerge Hboth) as Hok.
  exists (column_level_result source target key_cols update_cols prefer).
  split; [now apply column_level_closed_form|].
  apply rows_distinct_NoDup in Hus. apply rows_distinct_NoDup in Hut.
  unfold keys_not_null in Hnn. rewrite forallb_forall in Hnn.
  rewrite column_level_result_keys, joined_keys_closed by assumption.
  split; [|split].
  - apply NoDup_app; [assumption | now apply NoDup_map_filter |].
    intros key Ht Hs. apply in_map_iff in Ht. destruct Ht as [tr [Hkt Htr]].
    apply in_map_iff in Hs. destruct Hs as [sr [Hks Hsr]].
    apply filter_In in Hsr. destruct Hsr as [Hsr Hno].
    apply negb_true_iff in Hno.
    rewrite existsb_false_forall in Hno. specialize (Hno tr Htr).
    rewrite Hkt, <- Hks in Hno.
    rewrite keys_match_refl in Hno; [discriminate|]. now apply Hnn.
  - intro key. rewrite in_app_iff. split.
    + intros [H|H]; [now right|]. left.
      apply in_map_iff in H. destruct H as [sr [Hks Hsr]].
      apply filter_In in Hsr. apply in_map_iff. exists sr. tauto.
    + intros [H|H]; [|now left].
      apply in_map_iff in H. destruct H as [sr [Hks Hsr]].
      destruct (existsb (fun tr => keys_match (key_of target key_cols tr)
                                              (key_of source key_cols sr))
                        (rows target)) eqn:E.
      * left. apply existsb_exists in E. destruct E as [tr [Htr Hm]].
        apply keys_match_eq in Hm. apply in_map_iff. exists tr.
        split; [congruence | assumption].
      * right. apply in_map_iff. exists sr. split; [assumption|].
        apply filter_In. split; [assumption | now rewrite E].
  - exists (joined_rows source target key_cols).
    split; [apply Permutation_refl|]. split; [apply joined_rows_sound|].
    cbn [columns rows column_level_result].
    apply Forall2_map_r. intros jr _ k Hk.
    rewrite read_key_column by assumption. reflexivity.
Qed.

Lemma column_level_one_row_per_key_witness :
  exists result,
    scd_type1_column_level src_df tgt_df ["id"] None false = Ok result
    /\ NoDup (map (key_of result ["id"]) (rows result)).
Proof.
  destruct (column_level_one_row_per_key example_types src_df tgt_df ["id"]
              None false eq_refl eq_refl eq_refl eq_refl eq_refl eq_refl)
    as [result [H1 [H2 _]]].
  exists result. now split.
Defined.

(** C4 as stated fails when both inputs hold a row with a NULL key: the
    keys are distinct within each input, yet the two rows do not join and
    the key combination NULL appears in two output rows. *)
Lemma column_level_null_key_appears_twice :
  covered example_types null_key_source null_key_target ["id"] = true
  /\ merge_inputs_ok null_key_source null_key_target ["id"] = true
  /\ data_on_both_sides null_key_source null_key_target ["id"] None = true
  /\ unique_keys null_key_source ["id"] = true
  /\ unique_keys null_key_target ["id"] = true
  /\ exists result,
       scd_type1_column_level null_key_source null_key_target ["id"] None false
       = Ok result
       /\ count_key result ["id"] [VNull] = 2
       /\ ~ NoDup (map (key_of result ["id"]) (rows result)).
Proof.
  repeat (split; [reflexivity|]).
  eexists. split; [vm_compute; reflexivity|]. split; [reflexivity|].
  intro H. apply rows_distinct_NoDup in H. discriminate.
Qed.

(** ** Missing key columns *)

Lemma full_replace_missing_key (source target : DataFrame)
  (key_cols : list string) (k : string) :
  In k key_cols -> ~ In k (columns source) \/ ~ In k (columns target) ->
  scd_type1_full_replace source target key_cols = Err AnalysisException.
Proof.
  intros Hk Hmiss. unfold scd_type1_full_replace, select.
  destruct (mapM (resolve (columns source)) key_cols) as [idx|e] eqn:E.
  - destruct Hmiss as [Hs|Ht].
    + rewrite (mapM_resolve_missing _ _ _ Hk Hs) in E. discriminate.
    + unfold bind at 1 2. rewrite join_left_anti_nonempty
        by (intro Hnil; subst; contradiction).
      now rewrite (mapM_resolve_missing _ _ _ Hk Ht).
  - apply mapM_resolve_err in E. now subst.
Qed.

Lemma column_level_missing_key (source target : DataFrame)
  (key_cols : list string) (update_cols : option (list string))
  (prefer : bool) (k : string) :
  In k key_cols -> ~ In k (columns source) \/ ~ In k (columns target) ->
  scd_type1_column_level source target key_cols update_cols prefer
  = Err AnalysisException.
Proof.
  intros Hk Hmiss. unfold scd_type1_column_level. cbv zeta.
  rewrite join_fullouter_nonempty by (intro Hnil; subst; contradiction).
  destruct (mapM (resolve (columns target)) key_cols) as [ti|e] eqn:E.
  - destruct Hmiss as [Hs|Ht].
    + unfold bind at 1 2. now rewrite (mapM_resolve_missing _ _ _ Hk Hs).
    + rewrite (mapM_resolve_missing _ _ _ Hk Ht) in E. discriminate.
  - apply mapM_resolve_err in E. now subst.
Qed.

Lemma mem_mem_ci (c : string) (cs : list string) :
  mem c cs = true -> mem_ci c cs = true.
Proof.
  unfold mem, mem_ci. intro H. apply existsb_exists in H.
  destruct H as [x [Hx Hc]]. apply String.eqb_eq in Hc. subst x.
  apply existsb_exists. exists c. split; [assumption|].
  unfold eq_ci. apply String.eqb_refl.
Qed.

Lemma mem_ci_absent (c : string) (cs : list string) :
  mem_ci c cs = false -> ~ In c cs.
Proof.
  intros H Hin. apply mem_In, mem_mem_ci in Hin. congruence.
Qed.

(** C6.  On tables with plain names, distinct up to case: when [key_cols]
    names a column that one of the two tables lacks, also up to the case
    of its letters, both merges fail with Spark's schema error
    [AnalysisException], whatever the rows of the tables are: the call
    itself fails, from resolving the key columns against the schemas,
    before any row is looked at. *)
Theorem missing_key_column_raises (source target : DataFrame)
  (key_cols : list string) (k : string) :
  plain_schema source target key_cols = true ->
  mem k key_cols = true ->
  mem_ci k (columns source) && mem_ci k (columns target) = false ->
  scd_type1_full_replace source target key_cols = Err AnalysisException
  /\ (forall update_cols prefer,
        scd_type1_column_level source target key_cols update_cols prefer
        = Err AnalysisException)
  /\ (forall srows trows,
        scd_type1_full_replace {| columns := columns source; rows := srows |}
                               {| columns := columns target; rows := trows |}
                               key_cols
        = Err AnalysisException).
Proof.
  intros _ Hk Hmiss. apply mem_In in Hk.
  assert (H : ~ In k (columns source) \/ ~ In k (columns target)).
  { apply andb_false_iff in Hmiss.
    destruct Hmiss as [H|H]; apply mem_ci_absent in H; tauto. }
  split; [|split].
  - now apply (full_replace_missing_key _ _ _ k).
  - intros u p. now apply (column_level_missing_key _ _ _ _ _ k).
  - intros srows trows. now apply (full_replace_missing_key _ _ _ k).
Qed.

Lemma missing_key_column_raises_witness :
  scd_type1_full_replace src_df tgt_df ["id"; "region"] = Err AnalysisException
  /\ scd_type1_column_level src_df tgt_df ["id"; "region"] None false
     = Err AnalysisException.
Proof.
  destruct (missing_key_column_raises src_df tgt_df ["id"; "region"] "region"
              eq_refl eq_refl eq_refl) as [H1 [H2 _]].
  split; [exact H1 | apply H2].
Defined.

(** ** Columns left out of the update *)












Lemma data_columns_same_schema (source target source' target' : DataFrame)
  (key_cols : list string) (update_cols : option (list string)) :
  columns source' = columns source -> columns target' = columns target ->
  data_columns source' target' key_cols update_cols
  = data_columns source target key_cols update_cols.
Proof.
  intros Hs Ht. unfold data_columns. now rewrite Hs, Ht.
Qed.







End ScdFacts.

(** ** Strings, joins and digests *)

Module HashFacts.
Import Pandas Audit.
Local Open Scope string_scope.

Lemma append_cons (x : ascii) (a b : string) :
  String x a ++ b = String x (a ++ b).
Proof. reflexivity. Qed.


Lemma append_assoc (a b c : string) : (a ++ b) ++ c = a ++ (b ++ c).
Proof.
  induction a as [|x a IH]; [reflexivity|].
  rewrite !append_cons. f_equal. exact IH.
Qed.

Lemma append_cancel_l (a b c : string) : a ++ b = a ++ c -> b = c.
Proof.
  induction a as [|x a IH]; intro H; [assumption|].
  rewrite !append_cons in H. inversion H. now apply IH.
Qed.









(** A hex digest has 64 characters. *)
Lemma hexdigest_length (s : string) : String.length (Sha256.hexdigest s) = 64.
Proof.
  unfold Sha256.hexdigest, Sha256.hex_of_state, Sha256.hex8.
  cbn [String.length]. reflexivity.
Qed.

Lemma position_absent (c : string) (cs : list string) :
  existsb (String.eqb c) cs = false -> position c cs = None.
Proof.
  induction cs as [|x cs IH]; intro H; [reflexivity|].
  cbn [existsb] in H. apply orb_false_iff in H. destruct H as [H1 H2].
  cbn [position]. rewrite H1, (IH H2). reflexivity.
Qed.

(** On a frame without audit columns the three assignments append three
    cells to every row, the last one computed from the row that already
    holds the other two. *)
Lemma audited_plain (hash : list cell -> cell) (fr : Frame) (ts file : string) :
  plain_frame fr = true ->
  audited hash fr ts file
  = {| cols := (cols fr ++ ["ingest_ts"; "source_file"; "record_hash"])%list;
       data := map (fun r => (r ++ [PStr ts; PStr file;
                                    hash (r ++ [PStr ts; PStr file])])%list)
                   (data fr) |}.
Proof.
  unfold plain_frame. intro H. apply andb_true_iff in H. destruct H as [H _].
  cbn [forallb] in H. rewrite !andb_true_iff, !negb_true_iff in H.
  destruct H as (H1 & H2 & H3 & _).
  assert (Hpos : forall c extra,
             existsb (String.eqb c) (cols fr) = false ->
             existsb (String.eqb c) extra = false ->
             position c (cols fr ++ extra)%list = None).
  { intros c extra Hc He. apply position_absent.
    rewrite existsb_app, Hc, He. reflexivity. }
  pose proof (Hpos "ingest_ts" [] H1 eq_refl) as P1. rewrite app_nil_r in P1.
  pose proof (Hpos "source_file" ["ingest_ts"] H2 eq_refl) as P2.
  pose proof (Hpos "record_hash" ["ingest_ts"; "source_file"] H3 eq_refl) as P3.
  unfold audited, setitem, cols_with, set_cell. cbn [cols data].
  rewrite P1, P2. rewrite <- !app_assoc. cbn [app]. rewrite P3.
  f_equal. rewrite !map_map. apply map_ext. intro r.
  now rewrite <- !app_assoc.
Qed.

End HashFacts.

(** ** The audit columns *)

Module AuditFacts.
Import stdpp.base stdpp.option stdpp.list stdpp.strings stdpp.gmap.
Import Pandas Utils Audit.

Lemma position_Some (c : string) (cs : list string) (i : nat) :
  position c cs = Some i -> cs !! i = Some c.
Proof.
  revert i. induction cs as [|x cs IH]; simpl; intros i H; [discriminate|].
  destruct (String.eqb c x) eqn:E.
  - apply String.eqb_eq in E. inversion H; subst. reflexivity.
  - destruct (position c cs) as [j|]; simpl in H; [|discriminate].
    inversion H; subst. simpl. now apply IH.
Qed.

Lemma position_None (c : string) (cs : list string) :
  ~ In c cs -> position c cs = None.
Proof.
  intro H. destruct (position c cs) as [i|] eqn:E; [|reflexivity].
  apply position_Some in E. exfalso. apply H. apply list_elem_of_In.
  now apply list_elem_of_lookup_2 in E.
Qed.

Lemma in_cols_with_new (cs : list string) (c : string) : In c (cols_with cs c).
Proof.
  unfold cols_with. destruct (position c cs) as [i|] eqn:E.
  - apply position_Some in E. apply list_elem_of_In.
    now apply list_elem_of_lookup_2 in E.
  - apply in_or_app. right. now left.
Qed.

Lemma in_cols_with_old (cs : list string) (c x : string) :
  In x cs -> In x (cols_with cs c).
Proof.
  unfold cols_with. destruct (position c cs); [tauto|].
  intro H. apply in_or_app. now left.
Qed.

Lemma audit_columns_present (hash : list cell -> cell) (fr : Frame)
  (ts file : string) (c : string) :
  In c ["ingest_ts"; "source_file"; "record_hash"] ->
  In c (cols (audited hash fr ts file)).
Proof.
  unfold audited, setitem. cbn [cols].
  intros [H|[H|[H|[]]]]; subst.
  - do 2 apply in_cols_with_old. apply in_cols_with_new.
  - apply in_cols_with_old. apply in_cols_with_new.
  - apply in_cols_with_new.
Qed.

Lemma position_lt (c : string) (cs : list string) (i : nat) :
  position c cs = Some i -> i < length cs.
Proof.
  intro H. apply position_Some in H. now apply lookup_lt_Some in H.
Qed.

Lemma position_app_old (c : string) (cs extra : list string) (i : nat) :
  position c cs = Some i -> position c (cs ++ extra) = Some i.
Proof.
  revert i. induction cs as [|x cs IH]; intros i H; [discriminate|].
  cbn [position app] in *. destruct (String.eqb c x); [assumption|].
  destruct (position c cs) as [j|]; [|discriminate].
  now rewrite (IH j eq_refl).
Qed.


Lemma position_app_other (c c' : string) (cs : list string) :
  c' <> c -> position c' cs = None -> position c' (cs ++ [c]) = None.
Proof.
  intros Hne. induction cs as [|x cs IH]; intro H; cbn [position app] in *.
  - apply String.eqb_neq in Hne. now rewrite Hne.
  - destruct (String.eqb c' x); [discriminate|].
    destruct (position c' cs); [discriminate|]. now rewrite IH.
Qed.

Lemma length_set_cell (cs : list string) (c : string) (v : cell)
  (r : list cell) :
  length r = length cs ->
  length (set_cell cs c v r) = length (cols_with cs c).
Proof.
  intro H. unfold set_cell, cols_with. destruct (position c cs).
  - now rewrite length_insert.
  - rewrite !length_app. simpl. lia.
Qed.


Lemma get_set_cell_other (cs : list string) (c c' : string) (v : cell)
  (r : list cell) :
  c' <> c -> length r = length cs ->
  get_cell (cols_with cs c) (set_cell cs c v r) c' = get_cell cs r c'.
Proof.
  intros Hne H. unfold get_cell, set_cell, cols_with.
  destruct (position c cs) as [i|] eqn:E.
  - destruct (position c' cs) as [j|] eqn:E'; simpl; [|reflexivity].
    apply list_lookup_insert_ne. intro Heq. subst j.
    apply position_Some in E. apply position_Some in E'. congruence.
  - destruct (position c' cs) as [j|] eqn:E'.
    + rewrite (position_app_old _ _ [c] _ E'). simpl.
      apply lookup_app_l. apply position_lt in E'. lia.
    + now rewrite (position_app_other _ _ _ Hne E').
Qed.

Lemma audited_rows (hash : list cell -> cell) (fr : Frame) (ts file : string) :
  data (audited hash fr ts file)
  = map (fun r => set_cell (audit_cols (cols fr)) "record_hash"
                           (hash (with_audit (cols fr) ts file r))
                           (with_audit (cols fr) ts file r))
        (data fr).
Proof.
  unfold audited, setitem. cbn [data cols]. now rewrite !map_map.
Qed.

Lemma audited_cols (hash : list cell -> cell) (fr : Frame) (ts file : string) :
  cols (audited hash fr ts file)
  = cols_with (audit_cols (cols fr)) "record_hash".
Proof. reflexivity. Qed.

Lemma length_with_audit (cs : list string) (ts file : string) (r : list cell) :
  length r = length cs ->
  length (with_audit cs ts file r) = length (audit_cols cs).
Proof.
  intro H. unfold with_audit, audit_cols.
  apply length_set_cell. now apply length_set_cell.
Qed.


(** What a call of [add_audit_columns] does to the state. *)
Lemma add_audit_columns_run (df : loc) (source_file : string) (w : World)
  (fr : Frame) :
  heap w !! df = Some fr ->
  add_audit_columns df source_file w
  = Some (fresh (dom (heap w)),
          {| heap := <[fresh (dom (heap w))
                       := audited row_hash fr (isoformat (clock w)) source_file]>
                       (heap w);
             clock := clock w |}).
Proof.
  intro Hdf.
  unfold add_audit_columns, seq_, df_copy, utcnow, df_setitem, ret.
  rewrite Hdf. simpl.
  repeat (rewrite lookup_insert_eq; simpl; rewrite ?insert_insert_eq).
  reflexivity.
Qed.

Lemma inserts_map (cs : list string) (rows : list (list cell))
  (f : list cell -> Ingest.Insert) :
  (forall r, In r rows -> Ingest.insert_of_row cs r = Some (f r)) ->
  Ingest.inserts cs rows = Some (map f rows).
Proof.
  induction rows as [|r rows IH]; intro H; [reflexivity|].
  cbn [Ingest.inserts map]. rewrite (H r) by now left.
  rewrite IH; [reflexivity|]. intros r' Hr'. apply H. now right.
Qed.



Lemma load_json_to_staging_same (parsed : Frame) (name : string) :
  Ingest.load_json_to_staging parsed name
  = Ingest.load_csv_to_staging parsed name.
Proof. reflexivity. Qed.

(** C9.  Called on a reference to a live frame, [add_audit_columns]
    returns; the frame the argument refers to is the same before and after,
    as is every frame that was alive; the reference returned is a new one,
    to the copy carrying the columns ingest_ts, source_file and
    record_hash. *)
Theorem add_audit_columns_keeps_input (df : loc) (source_file : string)
  (w : World) (fr : Frame) :
  heap w !! df = Some fr ->
  exists out w',
    add_audit_columns df source_file w = Some (out, w')
    /\ heap w' !! df = Some fr
    /\ (forall l, l <> out -> heap w' !! l = heap w !! l)
    /\ out <> df
    /\ heap w !! out = None
    /\ heap w' !! out
       = Some (audited row_hash fr (isoformat (clock w)) source_file)
    /\ forall c, In c ["ingest_ts"; "source_file"; "record_hash"] ->
                 In c (cols (audited row_hash fr (isoformat (clock w))
                                     source_file)).
Proof.
  intro Hdf.
  set (out := fresh (dom (heap w))).
  assert (Hfresh : heap w !! out = None).
  { apply not_elem_of_dom. apply is_fresh. }
  assert (Hne : out <> df) by congruence.
  eexists. eexists.
  split; [apply (add_audit_columns_run _ _ _ fr Hdf)|].
  fold out. cbn [heap]. split; [now rewrite lookup_insert_ne|].
  split; [intros l Hl; now rewrite lookup_insert_ne|].
  split; [assumption|]. split; [assumption|].
  split; [apply lookup_insert_eq|].
  intros c Hc.
  exact (audit_columns_present row_hash fr (isoformat (clock w)) source_file
                               c Hc).
Qed.

Lemma add_audit_columns_keeps_input_witness :
  exists out w',
    add_audit_columns 0 "file.csv" test_world = Some (out, w')
    /\ heap w' !! 0 = Some test_frame.
Proof.
  destruct (add_audit_columns_keeps_input 0 "file.csv" test_world test_frame
              eq_refl) as [out [w' [H1 [H2 _]]]].
  exists out, w'. now split.
Defined.

(** The call of the repository's test, evaluated. *)
Lemma test_add_audit_columns :
  exists out w',
    add_audit_columns 0 "file.csv" test_world = Some (out, w')
    /\ heap w' !! out
       = Some {| cols := ["a"; "b"; "ingest_ts"; "source_file"; "record_hash"];
                 data :=
                   [ [PInt 1; PStr "x"; PStr "2024-01-02T03:04:05.004200";
                      PStr "file.csv";
                      PStr "8ef1f211f2eea2aa40209753b0fd593b7a918fc8e839cee547280f657a128d08"];
                     [PInt 2; PStr "y"; PStr "2024-01-02T03:04:05.004200";
                      PStr "file.csv";
                      PStr "eef8dd342ba808e9bc541499743f51158107fcf4188ffc50706d19051a6bab4d"] ] |}.
Proof.
  eexists. eexists. split.
  - apply (add_audit_columns_run 0 "file.csv" test_world test_frame eq_refl).
  - cbn [heap]. rewrite lookup_insert_eq. vm_compute. reflexivity.
Qed.



End AuditFacts.

(** ** More on the two merges *)

Module ScdMore.
Import Spark Scd Fragment ScdReadings SparkFacts ScdFacts.

Lemma analyze_err (j : Joined) (e : Column) (x : error) :
  analyze j e = Err x -> x = AnalysisException.
Proof.
  induction e as [a c|x1 IHx y IHy|x1 IHx|c IHc x1 IHx y IHy];
    simpl; intro H.
  - destruct a;
      (match type of H with
       | context [resolve ?cols ?c] =>
           destruct (resolve cols c) as [i|e'] eqn:E; simpl in H;
           [discriminate | inversion H; subst; now apply resolve_err in E]
       end).
  - destruct (analyze j x1) as [x'|e1]; simpl in H; [|inversion H; subst; auto].
    destruct (analyze j y) as [y'|e2]; simpl in H; [discriminate|].
    inversion H; subst; auto.
  - destruct (analyze j x1) as [x'|e1]; simpl in H; [discriminate|].
    inversion H; subst; auto.
  - destruct (analyze j c) as [c'|e0]; simpl in H; [|inversion H; subst; auto].
    destruct (analyze j x1) as [x'|e1]; simpl in H; [|inversion H; subst; auto].
    destruct (analyze j y) as [y'|e2]; simpl in H; [discriminate|].
    inversion H; subst; auto.
Qed.

(** Analysis succeeds only when every column referred to exists. *)
Lemma analyze_Ok_refs (j : Joined) (e : Column) (e' : RColumn) :
  analyze j e = Ok e' -> refs_ok (s_columns j) (t_columns j) e = true.
Proof.
  revert e'. induction e as [a c|x IHx y IHy|x IHx|c IHc x IHx y IHy];
    intros e' H; simpl in H.
  - destruct a;
      (match type of H with
       | context [resolve ?cols ?c] =>
           destruct (resolve cols c) as [i|] eqn:E; simpl in H; [|discriminate]
       end);
      apply resolve_Ok_inv, col_index_Some, nth_error_In in E;
      simpl; now apply mem_In.
  - destruct (analyze j x) as [x'|]; simpl in H; [|discriminate].
    destruct (analyze j y) as [y'|]; simpl in H; [|discriminate].
    simpl. now rewrite (IHx x'), (IHy y').
  - destruct (analyze j x) as [x'|]; simpl in H; [|discriminate].
    simpl. now apply (IHx x').
  - destruct (analyze j c) as [c'|]; simpl in H; [|discriminate].
    destruct (analyze j x) as [x'|]; simpl in H; [|discriminate].
    destruct (analyze j y) as [y'|]; simpl in H; [|discriminate].
    simpl. now rewrite (IHc c'), (IHx x'), (IHy y').
Qed.

Lemma mapM_fails {A B : Type} (f : A -> result B) (l : list A) (a : A)
  (e0 : error) :
  (forall x e, f x = Err e -> e = e0) ->
  In a l -> (forall b, f a <> Ok b) ->
  mapM f l = Err e0.
Proof.
  intros Huni Hin Hfail. induction l as [|x l IH]; [contradiction|].
  cbn [mapM]. destruct (f x) as [b|e] eqn:E; unfold bind.
  - destruct Hin as [Hin|Hin]; [subst; now elim (Hfail b)|].
    now rewrite (IH Hin).
  - now rewrite (Huni x e E).
Qed.

(** X1.  On tables with plain names, distinct up to case: when the key
    columns are in order but a column considered for update is missing
    from one of the two tables, also up to the case of its letters, the
    column-level merge fails with [AnalysisException]: [s.c] or [t.c]
    cannot be resolved. *)
Theorem column_level_missing_data_column (source target : DataFrame)
  (key_cols : list string) (update_cols : option (list string))
  (prefer : bool) (c : string) :
  plain_schema source target key_cols = true ->
  merge_inputs_ok source target key_cols = true ->
  mem c (data_columns source target key_cols update_cols) = true ->
  mem_ci c (columns source) && mem_ci c (columns target) = false ->
  scd_type1_column_level source target key_cols update_cols prefer
  = Err AnalysisException.
Proof.
  intros _ Hok Hc Hmiss. apply merge_inputs_ok_spec in Hok.
  destruct Hok as (Hs & Ht & Hne & Hk & Hks & Hkt).
  apply wf_spec in Hs. destruct Hs as [Hsn _].
  apply wf_spec in Ht. destruct Ht as [Htn _].
  apply mem_In in Hc.
  unfold scd_type1_column_level. cbv zeta.
  rewrite join_fullouter_closed by assumption. unfold bind at 1.
  rewrite (mapM_map _ (chosen_column key_cols prefer))
    by (intros c' _; now apply chosen_expr_ok).
  unfold bind at 1. unfold select_exprs.
  rewrite (mapM_fails _ _ (chosen_column key_cols prefer c) AnalysisException).
  - reflexivity.
  - intros x e. apply analyze_err.
  - apply in_or_app. right. now apply in_map.
  - intros b Hb. apply analyze_Ok_refs in Hb. cbn [s_columns t_columns] in Hb.
    unfold chosen_column in Hb. destruct prefer; simpl in Hb;
      rewrite !andb_true_iff in Hb; destruct Hb as [[_ H1] H2];
      apply mem_mem_ci in H1; apply mem_mem_ci in H2;
      rewrite H1, H2 in Hmiss; discriminate.
Qed.

Lemma column_level_missing_data_column_witness :
  scd_type1_column_level src_df empty_target ["id"] None false
  = Err AnalysisException.
Proof.
  exact (column_level_missing_data_column src_df empty_target ["id"] None false
                                          "age" eq_refl eq_refl eq_refl
                                          eq_refl).
Defined.

Lemma wf_intro (df : DataFrame) :
  NoDup (columns df) ->
  (forall r, In r (rows df) -> List.length r = List.length (columns df)) ->
  wf df = true.
Proof.
  intros Hn Hl. unfold wf. apply andb_true_iff. split.
  - apply negb_true_iff. now apply has_dup_NoDup.
  - apply forallb_forall. intros r Hr. apply Nat.eqb_eq. now apply Hl.
Qed.

Lemma has_columns_intro (df : DataFrame) (cs : list string) :
  incl cs (columns df) -> has_columns df cs = true.
Proof.
  intro H. unfold has_columns. apply forallb_forall. intros c Hc.
  apply mem_In. now apply H.
Qed.

Lemma wf_full_replace_result (source target : DataFrame) (key_cols : list string) :
  NoDup (columns source) -> NoDup (columns target) ->
  wf (full_replace_result source target key_cols) = true.
Proof.
  intros Hs Ht. apply wf_intro.
  - now apply NoDup_union_columns.
  - intros r Hr. cbn [rows columns full_replace_result] in *.
    apply in_app_or in Hr.
    destruct Hr as [Hr|Hr]; apply in_map_iff in Hr;
      destruct Hr as [x [Hx _]]; subst r; apply length_map.
Qed.

Lemma length_full_replace_rows (source target : DataFrame)
  (key_cols : list string) :
  List.length (rows (full_replace_result source target key_cols))
  = List.length (rows source)
    + List.length (filter (fun r => negb (key_matched source key_cols
                                            (key_of target key_cols r)))
                          (rows target)).
Proof.
  cbn [rows full_replace_result]. now rewrite length_app, !length_map.
Qed.

Lemma filter_length_le {A : Type} (p : A -> bool) (l : list A) :
  List.length (filter p l) <= List.length l.
Proof.
  induction l as [|a l IH]; simpl; [lia|]. destruct (p a); simpl; lia.
Qed.

Lemma conforms_cell (dtypes : string -> dtype) (df : DataFrame) (r : Row)
  (c : string) :
  conforms dtypes df = true -> In r (rows df) ->
  has_type (dtypes c) (cell_by_name (columns df) r c) = true.
Proof.
  intros H Hr. unfold conforms in H. rewrite forallb_forall in H.
  specialize (H r Hr). rewrite forallb_forall in H.
  destruct (in_dec string_dec c (columns df)) as [Hc|Hc].
  - now apply H.
  - now rewrite cell_by_name_absent.
Qed.

Lemma conforms_intro (dtypes : string -> dtype) (df : DataFrame) :
  (forall r c, In r (rows df) ->
               has_type (dtypes c) (cell_by_name (columns df) r c) = true) ->
  conforms dtypes df = true.
Proof.
  intro H. unfold conforms. apply forallb_forall. intros r Hr.
  apply forallb_forall. intros c _. now apply H.
Qed.

Lemma side_has_type (dtypes : string -> dtype) (df : DataFrame)
  (o : option Row) (c : string) :
  conforms dtypes df = true ->
  match o with Some r => In r (rows df) | None => True end ->
  has_type (dtypes c) (side_by_name (columns df) o c) = true.
Proof.
  intros H Ho. destruct o as [r|]; [|reflexivity].
  now apply conforms_cell.
Qed.

Lemma case_consistent_spec (names : list string) :
  case_consistent names = true <->
  forall a b, In a names -> In b names -> eq_ci a b = true -> a = b.
Proof.
  unfold case_consistent. rewrite forallb_forall. split.
  - intros H a b Ha Hb E. specialize (H a Ha). rewrite forallb_forall in H.
    specialize (H b Hb). rewrite E in H. now apply String.eqb_eq.
  - intros H a Ha. apply forallb_forall. intros b Hb.
    destruct (eq_ci a b) eqn:E; [|reflexivity].
    cbn [implb]. apply String.eqb_eq. now apply H.
Qed.

(** A table over names of the two inputs is covered with them. *)
Lemma plain_schema_result (source target result : DataFrame)
  (key_cols : list string) :
  plain_schema source target key_cols = true ->
  incl (columns result) (columns source ++ columns target ++ key_cols) ->
  plain_schema source result key_cols = true.
Proof.
  unfold plain_schema. cbv zeta. intros H Hincl.
  apply andb_true_iff in H. destruct H as [Hp Hc].
  rewrite forallb_forall in Hp. rewrite case_consistent_spec in Hc.
  assert (Hsub : incl (columns source ++ columns result ++ key_cols)
                      (columns source ++ columns target ++ key_cols)).
  { intros c Hin. rewrite !in_app_iff in Hin.
    destruct Hin as [Hin|[Hin|Hin]].
    - apply in_or_app. now left.
    - now apply Hincl.
    - apply in_or_app. right. apply in_or_app. now right. }
  apply andb_true_iff. split.
  - apply forallb_forall. intros c Hin. now apply Hp, Hsub.
  - apply case_consistent_spec. intros a b Ha Hb.
    apply Hc; now apply Hsub.
Qed.

Lemma covered_full_replace_result (dtypes : string -> dtype)
  (source target : DataFrame) (key_cols : list string) :
  covered dtypes source target key_cols = true ->
  covered dtypes source (full_replace_result source target key_cols) key_cols
  = true.
Proof.
  unfold covered. rewrite !andb_true_iff. intros [[Hp Hs] Ht].
  split; [split|]; [| exact Hs |].
  - apply (plain_schema_result source target); [assumption|].
    intros c Hc. cbn [columns full_replace_result] in Hc.
    unfold union_columns in Hc. apply in_app_iff in Hc.
    destruct Hc as [Hc|Hc].
    + apply in_or_app. now left.
    + apply filter_In in Hc. apply in_or_app. right. apply in_or_app.
      left. tauto.
  - apply conforms_intro. intros r c Hr.
    cbn [columns rows full_replace_result] in *.
    apply in_app_iff in Hr.
    destruct Hr as [Hr|Hr]; apply in_map_iff in Hr;
      destruct Hr as [r0 [<- Hr0]].
    + rewrite read_by_name_row by apply incl_union_columns_l.
      now apply conforms_cell.
    + rewrite read_by_name_row by apply incl_union_columns_r.
      apply filter_In in Hr0. now apply conforms_cell.
Qed.

(** X2.  On tables the embedding covers and under the contract of the
    merge, the full-replace result is again a well-formed table over the
    source columns followed by the columns only the target has; it holds
    the key columns and is covered again, so that it can be the target of
    the next merge; and it has at least as many rows as the source and at
    most as many as both inputs together. *)
Theorem full_replace_result_shape (dtypes : string -> dtype)
  (source target : DataFrame)
  (key_cols : list string) :
  covered dtypes source target key_cols = true ->
  merge_inputs_ok source target key_cols = true ->
  exists result,
    scd_type1_full_replace source target key_cols = Ok result
    /\ columns result
       = columns source
         ++ filter (fun c => negb (mem c (columns source))) (columns target)
    /\ wf result = true
    /\ merge_inputs_ok source result key_cols = true
    /\ List.length (rows source) <= List.length (rows result)
    /\ List.length (rows result)
       <= List.length (rows source) + List.length (rows target)
    /\ covered dtypes source result key_cols = true.
Proof.
  intros Hcov.
  intro Hok. pose proof (full_replace_closed_form _ _ _ Hok) as Hcf.
  pose proof Hok as Hok'. apply merge_inputs_ok_spec in Hok.
  destruct Hok as (Hs & Ht & Hne & Hk & Hks & Hkt).
  pose proof Hs as Hs'. apply wf_spec in Hs. destruct Hs as [Hsn Hsl].
  apply wf_spec in Ht. destruct Ht as [Htn Htl].
  exists (full_replace_result source target key_cols).
  assert (Hwf : wf (full_replace_result source target key_cols) = true)
    by now apply wf_full_replace_result.
  split; [assumption|]. split; [reflexivity|]. split; [assumption|].
  split; [|split; [|split]].
  - unfold merge_inputs_ok.
    unfold merge_inputs_ok in Hok'. rewrite !andb_true_iff in Hok'.
    destruct Hok' as [[[[[H1 H2] H3] H4] H5] H6].
    rewrite H1, Hwf, H3, H4, H5. simpl. apply has_columns_intro.
    intros c Hc. apply incl_union_columns_l. now apply Hks.
  - rewrite length_full_replace_rows. lia.
  - rewrite length_full_replace_rows.
    pose proof (filter_length_le
                  (fun r => negb (key_matched source key_cols
                                    (key_of target key_cols r)))
                  (rows target)). lia.
  - now apply covered_full_replace_result.
Qed.

Lemma full_replace_result_shape_witness :
  exists result,
    scd_type1_full_replace src_df tgt_df ["id"] = Ok result
    /\ merge_inputs_ok src_df result ["id"] = true.
Proof.
  destruct (full_replace_result_shape example_types src_df tgt_df ["id"] eq_refl eq_refl)
    as [result [H1 [_ [_ [H2 _]]]]].
  exists result. now split.
Defined.

(** When every target row is matched by a source row, only the source rows
    remain. *)
Lemma full_replace_all_matched (source target : DataFrame)
  (key_cols : list string) :
  forallb (fun r => key_matched source key_cols (key_of target key_cols r))
          (rows target) = true ->
  rows (full_replace_result source target key_cols)
  = map (by_name source (union_columns source target)) (rows source).
Proof.
  intro H. rewrite forallb_forall in H. cbn [rows full_replace_result].
  rewrite filter_none; [simpl; apply app_nil_r|].
  intros r Hr. now rewrite (H r Hr).
Qed.

Lemma union_columns_covered (source target : DataFrame) :
  incl (columns target) (columns source) ->
  union_columns source target = columns source.
Proof.
  intro H. unfold union_columns. rewrite filter_none; [apply app_nil_r|].
  intros c Hc. apply negb_false_iff. apply mem_In. now apply H.
Qed.

(** X3.  On tables the embedding covers and under the contract of the
    merge, when every target row has its
    key matched by a source row the result holds the source rows only, in
    order: the target is replaced as a whole; and the result is the source
    table itself when the target has no column of its own. *)
Theorem full_replace_replaces_whole_target (dtypes : string -> dtype)
  (source target : DataFrame)
  (key_cols : list string) :
  covered dtypes source target key_cols = true ->
  merge_inputs_ok source target key_cols = true ->
  forallb (fun r => key_matched source key_cols (key_of target key_cols r))
          (rows target) = true ->
  exists result,
    scd_type1_full_replace source target key_cols = Ok result
    /\ rows result = map (by_name source (columns result)) (rows source)
    /\ (has_columns source (columns target) = true -> result = source).
Proof.
  intros _ Hok Hall. pose proof (full_replace_closed_form _ _ _ Hok) as Hcf.
  apply merge_inputs_ok_spec in Hok.
  destruct Hok as (Hs & Ht & Hne & Hk & Hks & Hkt).
  exists (full_replace_result source target key_cols).
  split; [assumption|]. split; [now apply full_replace_all_matched|].
  intro Hsub. apply has_columns_spec in Hsub.
  transitivity (mkDF (columns source) (rows source)); [|now destruct source].
  unfold full_replace_result at 1. cbv zeta.
  change (map (by_name source (union_columns source target)) (rows source)
          ++ map (by_name target (union_columns source target))
                 (filter (fun r => negb (key_matched source key_cols
                                           (key_of target key_cols r)))
                         (rows target)))
    with (rows (full_replace_result source target key_cols)).
  rewrite full_replace_all_matched by assumption.
  rewrite union_columns_covered by assumption.
  now rewrite by_name_rows_self.
Qed.

Lemma full_replace_replaces_whole_target_witness :
  exists result,
    scd_type1_full_replace bobby_source bob_target ["id"] = Ok result
    /\ result = bobby_source.
Proof.
  destruct (full_replace_replaces_whole_target example_types bobby_source bob_target ["id"]
              eq_refl eq_refl eq_refl) as [result [H1 [_ H2]]].
  exists result. split; [exact H1 | exact (H2 eq_refl)].
Defined.

(** X4.  On a table the embedding covers and under the contract of the
    merge, a table merged into itself is
    returned unchanged, provided none of its rows holds a NULL in a key
    column: every row is then replaced by itself. *)
Theorem full_replace_self (dtypes : string -> dtype)
  (table : DataFrame) (key_cols : list string) :
  covered dtypes table table key_cols = true ->
  merge_inputs_ok table table key_cols = true ->
  keys_not_null table key_cols = true ->
  scd_type1_full_replace table table key_cols = Ok table.
Proof.
  intros _ Hok Hnn. rewrite (full_replace_closed_form _ _ _ Hok).
  apply merge_inputs_ok_spec in Hok.
  destruct Hok as (Hs & _ & Hne & Hk & Hks & _).
  f_equal.
  transitivity (mkDF (columns table) (rows table)); [|now destruct table].
  unfold full_replace_result at 1. cbv zeta.
  change (map (by_name table (union_columns table table)) (rows table)
          ++ map (by_name table (union_columns table table))
                 (filter (fun r => negb (key_matched table key_cols
                                           (key_of table key_cols r)))
                         (rows table)))
    with (rows (full_replace_result table table key_cols)).
  rewrite full_replace_all_matched.
  - rewrite union_columns_covered by apply incl_refl.
    now rewrite by_name_rows_self.
  - apply forallb_forall. intros r Hr. unfold key_matched.
    apply existsb_exists. exists r. split; [assumption|].
    apply keys_match_refl. unfold keys_not_null in Hnn.
    rewrite forallb_forall in Hnn. now apply Hnn.
Qed.

Lemma full_replace_self_witness :
  scd_type1_full_replace tgt_df tgt_df ["id"] = Ok tgt_df.
Proof.
  exact (full_replace_self example_types tgt_df ["id"] eq_refl eq_refl eq_refl).
Defined.

(** X5.  On tables the embedding covers and under the contract of the
    merge, when no target row has its key
    matched by a source row the result holds every row of both inputs, the
    source rows first; with the same schema on both sides the rows are
    those of the source followed by those of the target, as they are. *)
Theorem full_replace_disjoint_keys (dtypes : string -> dtype)
  (source target : DataFrame)
  (key_cols : list string) :
  covered dtypes source target key_cols = true ->
  merge_inputs_ok source target key_cols = true ->
  forallb (fun r => negb (key_matched source key_cols
                            (key_of target key_cols r)))
          (rows target) = true ->
  exists result,
    scd_type1_full_replace source target key_cols = Ok result
    /\ rows result
       = map (by_name source (columns result)) (rows source)
         ++ map (by_name target (columns result)) (rows target)
    /\ List.length (rows result)
       = List.length (rows source) + List.length (rows target)
    /\ (columns source = columns target ->
        rows result = rows source ++ rows target).
Proof.
  intros _ Hok Hnone. pose proof (full_replace_closed_form _ _ _ Hok) as Hcf.
  apply merge_inputs_ok_spec in Hok.
  destruct Hok as (Hs & Ht & Hne & Hk & Hks & Hkt).
  rewrite forallb_forall in Hnone.
  exists (full_replace_result source target key_cols).
  split; [assumption|].
  assert (Hrows : rows (full_replace_result source target key_cols)
                  = map (by_name source (union_columns source target))
                        (rows source)
                    ++ map (by_name target (union_columns source target))
                           (rows target)).
  { cbn [rows full_replace_result]. now rewrite filter_all. }
  split; [exact Hrows|]. split.
  - now rewrite Hrows, length_app, !length_map.
  - intro Hsame. rewrite Hrows.
    rewrite (union_columns_covered source target)
      by (rewrite Hsame; apply incl_refl).
    rewrite by_name_rows_self by assumption.
    rewrite Hsame. now rewrite by_name_rows_self.
Qed.

Lemma full_replace_disjoint_keys_witness :
  exists result,
    scd_type1_full_replace bobby_source bob_target_moved ["name"] = Ok result
    /\ rows result = rows bobby_source ++ rows bob_target_moved.
Proof.
  destruct (full_replace_disjoint_keys example_types bobby_source bob_target_moved ["name"]
              eq_refl eq_refl eq_refl) as [result [H1 [_ [_ H2]]]].
  exists result. split; [exact H1 | exact (H2 eq_refl)].
Defined.

Lemma existsb_Permutation {A : Type} (p : A -> bool) (l l' : list A) :
  Permutation l l' -> existsb p l = existsb p l'.
Proof.
  intro H. apply eq_true_iff_eq. rewrite !existsb_exists.
  split; intros [x [Hx Hp]]; exists x; split; try assumption.
  - now apply (Permutation_in _ H).
  - now apply (Permutation_in _ (Permutation_sym H)).
Qed.

Lemma filter_Permutation {A : Type} (p : A -> bool) (l l' : list A) :
  Permutation l l' -> Permutation (filter p l) (filter p l').
Proof.
  induction 1 as [|x l l' _ IH|x y l|l l' l'' _ IH1 _ IH2]; simpl.
  - constructor.
  - destruct (p x); [now constructor | assumption].
  - destruct (p x), (p y); try apply Permutation_refl; apply perm_swap.
  - now transitivity (filter p l').
Qed.

(** X6.  The order of the rows of the inputs does not matter to the
    full-replace merge: on tables the embedding covers and under its
    contract, reordering the rows of the
    source and of the target gives the same schema and the same rows up to
    their order. *)
Theorem full_replace_row_order (dtypes : string -> dtype)
  (source target : DataFrame)
  (key_cols : list string) (srows trows : list Row) :
  covered dtypes source target key_cols = true ->
  merge_inputs_ok source target key_cols = true ->
  Permutation (rows source) srows ->
  Permutation (rows target) trows ->
  exists result result',
    scd_type1_full_replace source target key_cols = Ok result
    /\ scd_type1_full_replace {| columns := columns source; rows := srows |}
                              {| columns := columns target; rows := trows |}
                              key_cols
       = Ok result'
    /\ columns result' = columns result
    /\ Permutation (rows result) (rows result').
Proof.
  intros _ Hok Hps Hpt. pose proof (full_replace_closed_form _ _ _ Hok) as Hcf.
  apply merge_inputs_ok_spec in Hok.
  destruct Hok as (Hs & Ht & Hne & Hk & Hks & Hkt).
  apply wf_spec in Hs. destruct Hs as [Hsn Hsl].
  apply wf_spec in Ht. destruct Ht as [Htn Htl].
  eexists. eexists. split; [exact Hcf|]. split.
  - apply full_replace_closed_form_gen; cbn [columns rows]; try assumption.
    intros r Hr. apply Hsl. now apply (Permutation_in _ (Permutation_sym Hps)).
  - split; [reflexivity|].
    cbn [rows full_replace_result columns]. apply Permutation_app.
    + apply Permutation_map. exact Hps.
    + apply Permutation_map.
      rewrite (filter_ext
                 (fun r => negb (key_matched {| columns := columns source;
                                                rows := srows |}
                                             key_cols
                                             (key_of {| columns := columns target;
                                                        rows := trows |}
                                                     key_cols r)))
                 (fun r => negb (key_matched source key_cols
                                             (key_of target key_cols r)))).
      * now apply filter_Permutation.
      * intro r. f_equal. unfold key_matched. cbn [rows].
        symmetry. now apply existsb_Permutation.
Qed.

Lemma full_replace_row_order_witness :
  exists result result',
    scd_type1_full_replace src_df tgt_df ["id"] = Ok result
    /\ scd_type1_full_replace
         {| columns := columns src_df; rows := rev (rows src_df) |}
         {| columns := columns tgt_df; rows := rev (rows tgt_df) |} ["id"]
       = Ok result'
    /\ Permutation (rows result) (rows result').
Proof.
  destruct (full_replace_row_order example_types src_df tgt_df ["id"]
              (rev (rows src_df)) (rev (rows tgt_df)) eq_refl eq_refl
              (Permutation_rev _) (Permutation_rev _))
    as [result [result' [H1 [H2 [_ H3]]]]].
  exists result, result'. repeat split; assumption.
Defined.

Lemma sql_eq_sym (a b : value) : sql_eq a b = sql_eq b a.
Proof.
  unfold sql_eq. destruct (is_null a), (is_null b); simpl; try reflexivity.
  apply eq_true_iff_eq. rewrite !value_eqb_eq. split; congruence.
Qed.

Lemma keys_match_sym (k k' : list value) : keys_match k k' = keys_match k' k.
Proof.
  revert k'. induction k as [|a k IH]; intros [|b k']; simpl; try reflexivity.
  now rewrite sql_eq_sym, IH.
Qed.

Lemma in_joined_target_only (source target : DataFrame) (key_cols : list string)
  (tr : Row) :
  In tr (rows target) ->
  key_matched source key_cols (key_of target key_cols tr) = false ->
  In (Some tr, None) (joined_rows source target key_cols).
Proof.
  intros Hin Hm. unfold joined_rows. apply in_or_app. left.
  apply in_flat_map. exists tr. split; [assumption|].
  unfold key_matched in Hm. rewrite existsb_false_forall in Hm.
  rewrite filter_none by assumption. now left.
Qed.

Lemma in_joined_source_only (source target : DataFrame) (key_cols : list string)
  (sr : Row) :
  In sr (rows source) ->
  key_matched target key_cols (key_of source key_cols sr) = false ->
  In (None, Some sr) (joined_rows source target key_cols).
Proof.
  intros Hin Hm. unfold joined_rows. apply in_or_app. right.
  apply (in_map (fun r => (None, Some r))). apply filter_In. split; [assumption|].
  apply negb_true_iff. unfold key_matched in Hm.
  rewrite <- Hm. apply existsb_ext_in. intros tr _. apply keys_match_sym.
Qed.

Lemma column_level_row_target_only (source target : DataFrame)
  (key_cols data_cols : list string) (prefer : bool) (tr : Row) :
  column_level_row source target key_cols data_cols prefer (Some tr, None)
  = by_name target (key_cols ++ data_cols) tr.
Proof.
  unfold column_level_row, by_name. rewrite map_app. f_equal.
  apply map_ext. intro c. unfold chosen_column. now destruct prefer.
Qed.

Lemma column_level_row_source_only (source target : DataFrame)
  (key_cols data_cols : list string) (prefer : bool) (sr : Row) :
  prefer = false
  \/ is_null (cell_by_name (columns source) sr (hd "" key_cols)) = false ->
  column_level_row source target key_cols data_cols prefer (None, Some sr)
  = by_name source (key_cols ++ data_cols) sr.
Proof.
  intro H. unfold column_level_row, by_name. rewrite map_app. f_equal.
  - apply map_ext. intro k. simpl.
    now destruct (cell_by_name (columns source) sr k).
  - apply map_ext. intro c. unfold chosen_column.
    destruct prefer; simpl.
    + destruct H as [H|H]; [discriminate|]. now rewrite H.
    + now destruct (cell_by_name (columns source) sr c).
Qed.

(** X7.  On tables the embedding covers and under the contract of the
    column-level merge, a target row whose
    key no source row matches is in the result with its own values, under
    both policies; a source row whose key no target row matches is in the
    result with its own values under the default policy, and under the
    other policy when its first key column is not NULL. *)
Theorem column_level_unmatched_rows (dtypes : string -> dtype)
  (source target : DataFrame)
  (key_cols : list string) (update_cols : option (list string))
  (prefer : bool) :
  covered dtypes source target key_cols = true ->
  column_level_inputs_ok source target key_cols update_cols = true ->
  exists result,
    scd_type1_column_level source target key_cols update_cols prefer
    = Ok result
    /\ (forall tr,
          In tr (rows target) ->
          key_matched source key_cols (key_of target key_cols tr) = false ->
          In (by_name target (columns result) tr) (rows result))
    /\ (forall sr,
          In sr (rows source) ->
          key_matched target key_cols (key_of source key_cols sr) = false ->
          prefer = false
          \/ is_null (cell_by_name (columns source) sr (hd "" key_cols)) = false ->
          In (by_name source (columns result) sr) (rows result)).
Proof.
  intros _ Hok.
  exists (column_level_result source target key_cols update_cols prefer).
  split; [now apply column_level_closed_form|].
  cbn [columns rows column_level_result]. split.
  - intros tr Hin Hm.
    rewrite <- (column_level_row_target_only source target _ _ prefer).
    apply in_map. now apply in_joined_target_only.
  - intros sr Hin Hm Hp.
    rewrite <- (column_level_row_source_only source target _ _ prefer sr Hp).
    apply in_map. now apply in_joined_source_only.
Qed.

Lemma column_level_unmatched_rows_witness :
  exists result,
    scd_type1_column_level src_df tgt_df ["id"] None true = Ok result
    /\ In (by_name tgt_df (columns result)
                   [VInt 1; VStr "Alice"; VInt 30; VStr "NY"])
          (rows result)
    /\ In (by_name src_df (columns result)
                   [VInt 4; VStr "Diana"; VInt 22; VStr "WA"])
          (rows result).
Proof.
  destruct (column_level_unmatched_rows example_types src_df tgt_df ["id"] None true eq_refl eq_refl)
    as [result [H1 [H2 H3]]].
  exists result. split; [exact H1|]. split.
  - apply H2; [simpl; tauto | reflexivity].
  - apply H3; [simpl; tauto | reflexivity | right; reflexivity].
Defined.

Lemma keys_match_null_head (k : list value) (v : value) (k' : list value) :
  is_null v = true -> keys_match k (v :: k') = false.
Proof.
  intro H. destruct k as [|a k]; [reflexivity|]. simpl.
  unfold sql_eq. rewrite H. now rewrite andb_false_r.
Qed.

(** X8.  On tables the embedding covers and under the contract of the
    column-level merge: with [prefer_source_when_null = True], a source
    row whose first
    key column is NULL matches no target row and is taken for absent: the
    output row built from it holds its key values, and NULL in every data
    column, whatever the source row held there. *)
Theorem column_level_null_first_key_drops_values (dtypes : string -> dtype)
  (source target : DataFrame)
  (key_cols : list string) (update_cols : option (list string)) (sr : Row) :
  covered dtypes source target key_cols = true ->
  column_level_inputs_ok source target key_cols update_cols = true ->
  In sr (rows source) ->
  is_null (cell_by_name (columns source) sr (hd "" key_cols)) = true ->
  exists result,
    scd_type1_column_level source target key_cols update_cols true = Ok result
    /\ In (key_of source key_cols sr
           ++ repeat VNull
                (List.length (data_columns source target key_cols update_cols)))
          (rows result).
Proof.
  intros _ Hok Hin Hnull.
  exists (column_level_result source target key_cols update_cols true).
  split; [now apply column_level_closed_form|].
  apply column_level_inputs_ok_spec in Hok. destruct Hok as [Hok _].
  apply merge_inputs_ok_spec in Hok. destruct Hok as (_ & _ & Hne & _).
  cbn [rows column_level_result].
  replace (key_of source key_cols sr
           ++ repeat VNull
                (List.length (data_columns source target key_cols update_cols)))
    with (column_level_row source target key_cols
            (data_columns source target key_cols update_cols) true
            (None, Some sr)).
  - apply in_map. apply in_joined_source_only; [assumption|].
    unfold key_matched. apply existsb_false_forall. intros tr _.
    rewrite keys_match_sym. unfold key_of at 2.
    destruct key_cols as [|k0 ks]; [congruence|]. cbn [map hd] in *.
    now apply keys_match_null_head.
  - unfold column_level_row, key_of. f_equal.
    + apply map_ext. intro k. simpl.
      now destruct (cell_by_name (columns source) sr k).
    + simpl. rewrite Hnull.
      induction (data_columns source target key_cols update_cols);
        simpl; [reflexivity | now f_equal].
Qed.

Lemma column_level_null_first_key_drops_values_witness :
  exists result,
    scd_type1_column_level null_key_source null_key_target ["id"] None true
    = Ok result
    /\ In [VNull; VNull] (rows result).
Proof.
  destruct (column_level_null_first_key_drops_values
example_types               null_key_source null_key_target ["id"] None [VNull; VStr "s"]
              eq_refl eq_refl (or_introl eq_refl) eq_refl) as [result [H1 H2]].
  exists result. split; [exact H1 | exact H2].
Defined.

(** X9.  The policy flag matters for NULLs in the source only: under the
    contract of the column-level merge, when no source row holds a NULL in
    its first key column nor in a column considered for update, both
    policies give the same result. *)
Theorem column_level_policies_agree (source target : DataFrame)
  (key_cols : list string) (update_cols : option (list string)) :
  column_level_inputs_ok source target key_cols update_cols = true ->
  cells_not_null source
    (hd "" key_cols :: data_columns source target key_cols update_cols) = true ->
  scd_type1_column_level source target key_cols update_cols true
  = scd_type1_column_level source target key_cols update_cols false.
Proof.
  intros Hok Hnn. rewrite !(column_level_closed_form _ _ _ _ _ Hok).
  f_equal. unfold column_level_result. f_equal.
  apply map_ext_in. intros jr Hjr.
  pose proof (joined_rows_sound source target key_cols) as Hsound.
  rewrite Forall_forall in Hsound. specialize (Hsound jr Hjr).
  unfold cells_not_null in Hnn. rewrite forallb_forall in Hnn.
  unfold column_level_row. f_equal. apply map_ext_in. intros c Hc.
  unfold chosen_column. simpl.
  destruct jr as [ot [sr|]]; simpl; [|reflexivity].
  assert (Hsr : In sr (rows source)).
  { destruct ot; simpl in Hsound; tauto. }
  specialize (Hnn sr Hsr). cbn [forallb] in Hnn.
  apply andb_true_iff in Hnn. destruct Hnn as [H0 Hd].
  rewrite forallb_forall in Hd. specialize (Hd c Hc).
  apply negb_true_iff in H0. apply negb_true_iff in Hd.
  now rewrite H0, Hd.
Qed.

Lemma column_level_policies_agree_witness :
  scd_type1_column_level bobby_source_moved bob_target ["id"] None true
  = scd_type1_column_level bobby_source_moved bob_target ["id"] None false.
Proof.
  exact (column_level_policies_agree bobby_source_moved bob_target ["id"] None
                                     eq_refl eq_refl).
Defined.

Lemma str_le_cases (a b : string) :
  str_le a b <-> a = b \/ OrderedTypeEx.String_as_OT.lt a b.
Proof.
  unfold str_le, String.leb.
  pose proof (OrderedTypeEx.String_as_OT.cmp_eq a b) as He.
  pose proof (OrderedTypeEx.String_as_OT.cmp_lt a b) as Hl.
  unfold OrderedTypeEx.String_as_OT.cmp in He, Hl.
  destruct (String.compare a b); split; intro H.
  - left. now apply He.
  - reflexivity.
  - right. now apply Hl.
  - reflexivity.
  - discriminate.
  - destruct H as [H|H]; [apply He in H | apply Hl in H]; discriminate.
Qed.

Lemma str_le_trans (a b c : string) : str_le a b -> str_le b c -> str_le a c.
Proof.
  rewrite !str_le_cases. intros [->|H1] [->|H2]; auto.
  right. eapply OrderedTypeEx.String_as_OT.lt_trans; eassumption.
Qed.

Lemma sorted_insert_sorted (c : string) (l : list string) :
  Sorted.StronglySorted str_le l ->
  Sorted.StronglySorted str_le (insert_sorted c l).
Proof.
  induction 1 as [|x xs Hs IH Hx]; simpl.
  - constructor; constructor.
  - destruct (String.leb c x) eqn:E.
    + constructor; [now constructor|]. constructor; [exact E|].
      rewrite Forall_forall in *. intros y Hy.
      apply (str_le_trans c x y); [exact E | now apply Hx].
    + constructor; [assumption|].
      rewrite Forall_forall in *. intros y Hy.
      apply in_insert_sorted in Hy. destruct Hy as [->|Hy]; [|now apply Hx].
      destruct (String.leb_total c x) as [H|H]; [congruence | exact H].
Qed.

Lemma sorted_is_sorted (l : list string) :
  Sorted.StronglySorted str_le (sorted l).
Proof.
  induction l as [|c l IH]; simpl; [constructor|].
  now apply sorted_insert_sorted.
Qed.

Lemma sorted_filter (f : string -> bool) (l : list string) :
  Sorted.StronglySorted str_le l ->
  Sorted.StronglySorted str_le (filter f l).
Proof.
  induction 1 as [|x xs Hs IH Hx]; simpl; [constructor|].
  destruct (f x); [|assumption]. constructor; [assumption|].
  rewrite Forall_forall in *. intros y Hy. apply filter_In in Hy.
  now apply Hx.
Qed.

Lemma sorted_data_columns (source target : DataFrame) (key_cols : list string)
  (update_cols : option (list string)) :
  Sorted.StronglySorted str_le
    (data_columns source target key_cols update_cols).
Proof.
  unfold data_columns.
  destruct update_cols as [[|u us]|]; try apply sorted_is_sorted.
  apply sorted_filter, sorted_is_sorted.
Qed.

Lemma length_flat_map_ge {A B : Type} (f : A -> list B) (l : list A) :
  (forall a, 1 <= List.length (f a)) ->
  List.length l <= List.length (flat_map f l).
Proof.
  intro Hf. induction l as [|a l IH]; simpl; [lia|].
  rewrite length_app. specialize (Hf a). lia.
Qed.

Lemma length_joined_rows (source target : DataFrame) (key_cols : list string) :
  List.length (rows target)
  <= List.length (joined_rows source target key_cols).
Proof.
  unfold joined_rows. rewrite length_app.
  apply Nat.le_trans with (2 := Nat.le_add_r _ _).
  apply length_flat_map_ge. intro tr.
  destruct (filter _ (rows source)) as [|m ms]; simpl; lia.
Qed.

Lemma covered_column_level_result (dtypes : string -> dtype)
  (source target : DataFrame) (key_cols : list string)
  (update_cols : option (list string)) (prefer : bool) :
  covered dtypes source target key_cols = true ->
  covered dtypes source
          (column_level_result source target key_cols update_cols prefer)
          key_cols
  = true.
Proof.
  unfold covered. rewrite !andb_true_iff. intros [[Hp Hs] Ht].
  split; [split|]; [| exact Hs |].
  - apply (plain_schema_result source target); [assumption|].
    intros c Hc. cbn [columns column_level_result] in Hc.
    apply in_app_iff in Hc. destruct Hc as [Hc|Hc].
    + apply in_or_app. right. apply in_or_app. now right.
    + apply in_data_columns in Hc. destruct Hc as [_ [Hc|Hc]].
      * apply in_or_app. right. apply in_or_app. now left.
      * apply in_or_app. now left.
  - apply conforms_intro. intros r c Hr.
    cbn [columns rows column_level_result] in *.
    apply in_map_iff in Hr. destruct Hr as [jr [<- Hjr]].
    pose proof (joined_rows_sound source target key_cols) as Hsound.
    rewrite Forall_forall in Hsound. specialize (Hsound jr Hjr).
    assert (Hsv : has_type (dtypes c)
                    (side_by_name (columns source) (snd jr) c) = true).
    { apply side_has_type; [assumption|].
      destruct jr as [[tr|] [sr|]]; simpl in *; tauto. }
    assert (Htv : has_type (dtypes c)
                    (side_by_name (columns target) (fst jr) c) = true).
    { apply side_has_type; [assumption|].
      destruct jr as [[tr|] [sr|]]; simpl in *; tauto. }
    destruct (in_dec string_dec c key_cols) as [Hk|Hk].
    + rewrite read_key_column by assumption.
      cbn [key_expr fst eval_named].
      now destruct (is_null (side_by_name (columns source) (snd jr) c)).
    + destruct (in_dec string_dec c
                  (data_columns source target key_cols update_cols))
        as [Hd|Hd].
      * rewrite read_data_column by assumption.
        unfold chosen_column. destruct prefer; cbn [fst eval_named].
        -- now destruct (is_null (side_by_name (columns source) (snd jr)
                                                (hd "" key_cols))).
        -- now destruct (is_null (side_by_name (columns source) (snd jr) c)).
      * rewrite cell_by_name_absent; [reflexivity|].
        intro Hin. apply in_app_iff in Hin. tauto.
Qed.

(** X10.  On tables the embedding covers and under the contract of the
    column-level merge, the result has the key columns first, followed by
    the data columns in alphabetical order; the data columns are the
    considered columns of either table, none of them a key column; the
    column names are distinct, every row has one cell per column, the
    result is covered again and has at least as many rows as the
    target. *)
Theorem column_level_result_shape (dtypes : string -> dtype)
  (source target : DataFrame)
  (key_cols : list string) (update_cols : option (list string))
  (prefer : bool) :
  covered dtypes source target key_cols = true ->
  column_level_inputs_ok source target key_cols update_cols = true ->
  exists result data_cols,
    scd_type1_column_level source target key_cols update_cols prefer
    = Ok result
    /\ columns result = key_cols ++ data_cols
    /\ Sorted.StronglySorted str_le data_cols
    /\ (forall c, In c data_cols -> ~ In c key_cols)
    /\ (forall c, In c data_cols
                  <-> considered key_cols update_cols c = true
                      /\ (In c (columns source) \/ In c (columns target)))
    /\ wf result = true
    /\ covered dtypes source result key_cols = true
    /\ List.length (rows target) <= List.length (rows result).
Proof.
  intros Hcov Hok.
  exists (column_level_result source target key_cols update_cols prefer),
         (data_columns source target key_cols update_cols).
  split; [now apply column_level_closed_form|].
  split; [reflexivity|].
  split; [apply sorted_data_columns|].
  assert (Hd : forall c,
             In c (data_columns source target key_cols update_cols) ->
             ~ In c key_cols).
  { intros c Hc. now apply in_data_columns in Hc. }
  split; [exact Hd|].
  split; [intro c; apply data_columns_considered|].
  apply column_level_inputs_ok_spec in Hok. destruct Hok as [Hok _].
  apply merge_inputs_ok_spec in Hok. destruct Hok as (_ & _ & _ & Hk & _).
  split; [|split].
  - apply wf_intro; cbn [columns rows column_level_result].
    + apply NoDup_app; [exact Hk | apply NoDup_data_columns |].
      intros c Hc Hc'. now apply (Hd c).
    + intros r Hr. apply in_map_iff in Hr. destruct Hr as [jr [<- _]].
      unfold column_level_row. now rewrite !length_app, !length_map.
  - now apply covered_column_level_result.
  - cbn [rows column_level_result]. rewrite length_map.
    apply length_joined_rows.
Qed.

Lemma column_level_result_shape_witness :
  exists result data_cols,
    scd_type1_column_level src_df tgt_df ["id"] None false = Ok result
    /\ columns result = ["id"] ++ data_cols
    /\ Sorted.StronglySorted str_le data_cols
    /\ wf result = true
    /\ List.length (rows tgt_df) <= List.length (rows result).
Proof.
  destruct (column_level_result_shape example_types src_df tgt_df ["id"] None
              false eq_refl eq_refl)
    as [result [dc [H1 [H2 [H3 [_ [_ [H4 [_ H5]]]]]]]]].
  exists result, dc. repeat (split; [assumption|]). assumption.
Defined.

Lemma filter_unique_hit {A B : Type} (f : A -> B) (p : A -> bool) (a : A)
  (l : list A) :
  NoDup (map f l) -> In a l -> p a = true ->
  (forall x, In x l -> p x = true -> f x = f a) ->
  filter p l = [a].
Proof.
  induction l as [|b l IH]; intros Hnd Hin Hp Hq; [contradiction|].
  cbn [map] in Hnd. inversion Hnd as [|? ? Hb Hnd']; subst.
  cbn [filter]. destruct Hin as [->|Hin].
  - rewrite Hp. apply f_equal. apply filter_none. intros x Hx.
    destruct (p x) eqn:E; [|reflexivity].
    exfalso. apply Hb. rewrite <- (Hq x (or_intror Hx) E). now apply in_map.
  - destruct (p b) eqn:E.
    + exfalso. apply Hb. rewrite (Hq b (or_introl eq_refl) E).
      now apply in_map.
    + apply IH; auto. intros x Hx. apply Hq. now right.
Qed.

Lemma matching_rows_unique (df : DataFrame) (key_cols : list string) (r : Row) :
  unique_keys df key_cols = true -> keys_not_null df key_cols = true ->
  In r (rows df) ->
  filter (fun x => keys_match (key_of df key_cols r) (key_of df key_cols x))
         (rows df) = [r].
Proof.
  intros Hu Hn Hr. unfold unique_keys in Hu. apply rows_distinct_NoDup in Hu.
  unfold keys_not_null in Hn. rewrite forallb_forall in Hn.
  apply (filter_unique_hit (key_of df key_cols)); try assumption.
  - apply keys_match_refl. exact (Hn r Hr).
  - intros x _ Hx. symmetry. now apply keys_match_eq.
Qed.

Lemma flat_map_single {A B C : Type} (F : B -> list C) (g : A -> B)
  (h : A -> C) (l : list A) :
  (forall a, In a l -> F (g a) = [h a]) ->
  flat_map F (map g l) = map h l.
Proof.
  induction l as [|a l IH]; intro H; [reflexivity|].
  cbn [map flat_map]. rewrite (H a (or_introl eq_refl)), IH; [reflexivity|].
  intros x Hx. apply H. now right.
Qed.

Lemma joined_rows_self (table : DataFrame) (key_cols : list string) :
  unique_keys table key_cols = true -> keys_not_null table key_cols = true ->
  joined_rows table table key_cols
  = map (fun r => (Some r, Some r)) (rows table).
Proof.
  intros Hu Hn. unfold joined_rows. cbv zeta.
  rewrite (filter_none _ (rows table)).
  - cbn [map]. rewrite app_nil_r.
    rewrite <- (map_id (rows table)) at 1.
    apply flat_map_single. intros r Hr. unfold id.
    now rewrite (matching_rows_unique table key_cols r Hu Hn Hr).
  - intros sr Hsr. apply negb_false_iff. apply existsb_exists.
    exists sr. split; [assumption|]. apply keys_match_refl.
    unfold keys_not_null in Hn. rewrite forallb_forall in Hn.
    exact (Hn sr Hsr).
Qed.

Lemma column_level_row_same (table : DataFrame)
  (key_cols data_cols : list string) (prefer : bool) (r : Row) :
  column_level_row table table key_cols data_cols prefer (Some r, Some r)
  = by_name table (key_cols ++ data_cols) r.
Proof.
  unfold column_level_row, by_name. rewrite map_app. f_equal.
  - apply map_ext. intro k. simpl.
    now destruct (cell_by_name (columns table) r k).
  - apply map_ext. intro c. unfold chosen_column. destruct prefer; simpl.
    + now destruct (is_null (cell_by_name (columns table) r (hd "" key_cols))).
    + now destruct (is_null (cell_by_name (columns table) r c)).
Qed.

(** X11.  On a table the embedding covers: merging the table into itself
    at column level, when its keys are distinct and hold no NULL, returns
    its rows, in some order, read under the key columns followed by the
    data columns, under both policies. *)
Theorem column_level_self (dtypes : string -> dtype)
  (table : DataFrame) (key_cols : list string)
  (update_cols : option (list string)) (prefer : bool) :
  covered dtypes table table key_cols = true ->
  column_level_inputs_ok table table key_cols update_cols = true ->
  unique_keys table key_cols = true ->
  keys_not_null table key_cols = true ->
  exists result,
    scd_type1_column_level table table key_cols update_cols prefer = Ok result
    /\ columns result
       = key_cols ++ data_columns table table key_cols update_cols
    /\ Permutation (rows result)
                   (map (by_name table (columns result)) (rows table)).
Proof.
  intros _ Hok Hu Hn.
  exists (column_level_result table table key_cols update_cols prefer).
  split; [now apply column_level_closed_form|].
  split; [reflexivity|].
  cbn [columns rows column_level_result].
  rewrite (joined_rows_self table key_cols Hu Hn), map_map.
  rewrite (map_ext _ (by_name table
                        (key_cols
                         ++ data_columns table table key_cols update_cols))
             (column_level_row_same table key_cols _ prefer)).
  apply Permutation_refl.
Qed.

Lemma column_level_self_witness :
  exists result,
    scd_type1_column_level tgt_df tgt_df ["id"] None true = Ok result
    /\ Permutation (rows result)
                   (map (by_name tgt_df (columns result)) (rows tgt_df)).
Proof.
  destruct (column_level_self example_types tgt_df ["id"] None true
              eq_refl eq_refl eq_refl eq_refl) as [result [H1 [_ H2]]].
  exists result. now split.
Defined.

Lemma sorted_unique (l1 l2 : list string) :
  Sorted.StronglySorted str_le l1 -> Sorted.StronglySorted str_le l2 ->
  NoDup l1 -> NoDup l2 ->
  (forall x, In x l1 <-> In x l2) ->
  l1 = l2.
Proof.
  intro H1. revert l2.
  induction H1 as [|a l1 Hs1 IH Ha]; intros l2 H2 Hn1 Hn2 Hiff.
  - destruct l2 as [|b l2]; [reflexivity|].
    exfalso. apply (proj2 (Hiff b)). now left.
  - destruct H2 as [|b l2 Hs2 Hb].
    + exfalso. apply (proj1 (Hiff a)). now left.
    + inversion Hn1 as [|? ? Ha' Hn1']; subst.
      inversion Hn2 as [|? ? Hb' Hn2']; subst.
      rewrite Forall_forall in Ha, Hb.
      assert (Hab : a = b).
      { destruct (proj1 (Hiff a) (or_introl eq_refl)) as [E|Hin2];
          [now symmetry|].
        destruct (proj2 (Hiff b) (or_introl eq_refl)) as [E|Hin1];
          [assumption|].
        apply String.leb_antisym; [now apply Ha | now apply Hb]. }
      subst b. f_equal. apply IH; try assumption.
      intro x. split; intro Hx.
      * destruct (proj1 (Hiff x) (or_intror Hx)) as [E|Hin]; [|assumption].
        subst x. contradiction.
      * destruct (proj2 (Hiff x) (or_intror Hx)) as [E|Hin]; [|assumption].
        subst x. contradiction.
Qed.

Lemma data_columns_of_result (source target result : DataFrame)
  (key_cols : list string) (update_cols : option (list string)) :
  columns result
  = key_cols ++ data_columns source target key_cols update_cols ->
  data_columns source result key_cols update_cols
  = data_columns source target key_cols update_cols.
Proof.
  intro Hc.
  apply sorted_unique; try apply sorted_data_columns;
    try apply NoDup_data_columns.
  intro x. rewrite (in_data_columns_iff source result), Hc, in_app_iff.
  rewrite !in_data_columns_iff. tauto.
Qed.

Lemma joined_key_with_source (source target : DataFrame)
  (key_cols : list string) (o : option Row) (sr : Row) :
  joined_row_ok source target key_cols (o, Some sr) ->
  joined_key source target key_cols (o, Some sr)
  = key_of source key_cols sr.
Proof.
  destruct o as [tr|]; simpl; intro H.
  - destruct H as (_ & _ & H). rewrite (joined_key_matched _ _ _ _ _ H).
    now apply keys_match_eq.
  - apply joined_key_source_only.
Qed.

Lemma joined_rows_cover_source (source target : DataFrame)
  (key_cols : list string) (sr : Row) :
  In sr (rows source) ->
  exists o, In (o, Some sr) (joined_rows source target key_cols).
Proof.
  intro Hsr.
  destruct (existsb (fun tr => keys_match (key_of target key_cols tr)
                                          (key_of source key_cols sr))
                    (rows target)) eqn:E.
  - apply existsb_exists in E. destruct E as [tr [Htr Hm]].
    exists (Some tr). unfold joined_rows. apply in_or_app. left.
    apply in_flat_map. exists tr. split; [assumption|].
    assert (Hin : In sr (filter (fun sr0 =>
                                   keys_match (key_of target key_cols tr)
                                              (key_of source key_cols sr0))
                                (rows source))).
    { apply filter_In. now split. }
    destruct (filter _ (rows source)) as [|m ms]; [contradiction|].
    now apply (in_map (fun r => (Some tr, Some r))).
  - exists None. unfold joined_rows. apply in_or_app. right.
    apply (in_map (fun r => (None, Some r))). apply filter_In.
    split; [assumption|]. now rewrite E.
Qed.

Lemma column_level_row_again (source target result : DataFrame)
  (key_cols data_cols : list string) (prefer : bool)
  (jr : option Row * option Row) :
  columns result = key_cols ++ data_cols ->
  (forall c, In c data_cols -> ~ In c key_cols) ->
  column_level_row source result key_cols data_cols prefer
    (Some (column_level_row source target key_cols data_cols prefer jr),
     snd jr)
  = column_level_row source target key_cols data_cols prefer jr.
Proof.
  intros Hc Hd.
  set (r := column_level_row source target key_cols data_cols prefer jr).
  unfold column_level_row. unfold r at 3. unfold column_level_row.
  subst r. f_equal.
  - apply map_ext_in. intros k Hk. cbn [key_expr fst eval_named snd].
    cbn [side_by_name]. rewrite Hc, (read_key_column _ _ _ _ _ _ _ Hk).
    cbn [key_expr fst eval_named].
    now destruct (is_null (side_by_name (columns source) (snd jr) k)).
  - apply map_ext_in. intros c Hc'. unfold chosen_column at 1.
    destruct prefer; cbn [fst eval_named snd side_by_name];
      rewrite Hc, (read_data_column _ _ _ _ _ _ _ Hc' (Hd c Hc'));
      unfold chosen_column; cbn [fst eval_named].
    + now destruct (is_null (side_by_name (columns source) (snd jr)
                                          (hd "" key_cols))).
    + now destruct (is_null (side_by_name (columns source) (snd jr) c)).
Qed.

Lemma key_of_column_level_row (source target result : DataFrame)
  (key_cols data_cols : list string) (prefer : bool)
  (jr : option Row * option Row) :
  columns result = key_cols ++ data_cols ->
  key_of result key_cols
         (column_level_row source target key_cols data_cols prefer jr)
  = joined_key source target key_cols jr.
Proof.
  intro Hc. unfold key_of, joined_key. rewrite Hc.
  apply map_ext_in. intros k Hk. now apply read_key_column.
Qed.

Lemma joined_rows_again (source target result : DataFrame)
  (key_cols data_cols : list string) (prefer : bool) :
  unique_keys source key_cols = true ->
  keys_not_null source key_cols = true ->
  columns result = key_cols ++ data_cols ->
  rows result = map (column_level_row source target key_cols data_cols prefer)
                    (joined_rows source target key_cols) ->
  joined_rows source result key_cols
  = map (fun jr =>
           (Some (column_level_row source target key_cols data_cols prefer jr),
            snd jr))
        (joined_rows source target key_cols).
Proof.
  intros Hu Hn Hc Hr.
  pose proof (joined_rows_sound source target key_cols) as Hsound.
  rewrite Forall_forall in Hsound.
  assert (Hnn : forall sr, In sr (rows source) ->
                           no_null (key_of source key_cols sr) = true).
  { unfold keys_not_null in Hn. now rewrite forallb_forall in Hn. }
  unfold joined_rows at 1. cbv zeta. rewrite Hr.
  rewrite (filter_none _ (rows source)).
  - cbn [map]. rewrite app_nil_r. apply flat_map_single.
    intros jr Hjr. rewrite (key_of_column_level_row _ _ _ _ _ _ _ Hc).
    specialize (Hsound jr Hjr). destruct jr as [o [sr|]].
    + rewrite (joined_key_with_source _ _ _ _ _ Hsound).
      assert (Hsr : In sr (rows source)).
      { destruct o; simpl in Hsound; tauto. }
      now rewrite (matching_rows_unique source key_cols sr Hu Hn Hsr).
    + destruct o as [tr|]; [|contradiction]. simpl in Hsound.
      destruct Hsound as [_ Hm]. rewrite joined_key_target_only.
      unfold key_matched in Hm. rewrite existsb_false_forall in Hm.
      now rewrite (filter_none _ (rows source) Hm).
  - intros sr Hsr. apply negb_false_iff. apply existsb_exists.
    destruct (joined_rows_cover_source source target key_cols sr Hsr)
      as [o Ho].
    exists (column_level_row source target key_cols data_cols prefer
                             (o, Some sr)).
    split; [now apply in_map|].
    rewrite (key_of_column_level_row _ _ _ _ _ _ _ Hc).
    rewrite (joined_key_with_source _ _ _ _ _ (Hsound _ Ho)).
    apply keys_match_refl. exact (Hnn sr Hsr).
Qed.

Lemma column_level_result_again (source target : DataFrame)
  (key_cols : list string) (update_cols : option (list string))
  (prefer : bool) :
  unique_keys source key_cols = true ->
  keys_not_null source key_cols = true ->
  column_level_result source
    (column_level_result source target key_cols update_cols prefer)
    key_cols update_cols prefer
  = column_level_result source target key_cols update_cols prefer.
Proof.
  intros Hu Hn.
  set (result := column_level_result source target key_cols update_cols prefer).
  assert (Hc : columns result
               = key_cols ++ data_columns source target key_cols update_cols)
    by reflexivity.
  assert (Hr : rows result
               = map (column_level_row source target key_cols
                        (data_columns source target key_cols update_cols)
                        prefer)
                     (joined_rows source target key_cols))
    by reflexivity.
  pose proof (data_columns_of_result source target result key_cols
                                     update_cols Hc) as Hdc.
  assert (Hd : forall c,
             In c (data_columns source target key_cols update_cols) ->
             ~ In c key_cols).
  { intros c Hin. now apply in_data_columns in Hin. }
  unfold column_level_result at 1. cbv zeta. rewrite Hdc.
  transitivity (mkDF (columns result) (rows result)); [|reflexivity].
  f_equal. rewrite Hr.
  rewrite (joined_rows_again source target result key_cols _ prefer
                             Hu Hn Hc Hr).
  rewrite map_map. apply map_ext. intro jr.
  now apply column_level_row_again.
Qed.

Lemma column_level_closed_again (source target mid : DataFrame)
  (key_cols : list string) (update_cols : option (list string))
  (prefer : bool) :
  column_level_inputs_ok source target key_cols update_cols = true ->
  columns mid = key_cols ++ data_columns source target key_cols update_cols ->
  scd_type1_column_level source mid key_cols update_cols prefer
  = Ok (column_level_result source mid key_cols update_cols prefer).
Proof.
  intros Hok Hc.
  pose proof (data_columns_of_result source target mid key_cols
                                     update_cols Hc) as Hdc.
  assert (Hd : forall c,
             In c (data_columns source target key_cols update_cols) ->
             ~ In c key_cols).
  { intros c Hin. now apply in_data_columns in Hin. }
  apply column_level_inputs_ok_spec in Hok. destruct Hok as [Hm Hboth].
  apply merge_inputs_ok_spec in Hm.
  destruct Hm as (Hs & _ & Hne & Hk & Hks & _).
  apply wf_spec in Hs. destruct Hs as [Hs _].
  apply column_level_closed_form_gen; try assumption.
  - rewrite Hc. apply NoDup_app; [exact Hk | apply NoDup_data_columns |].
    intros c Hc1 Hc2. now apply (Hd c).
  - rewrite Hc. intros c Hin. apply in_or_app. now left.
  - rewrite Hdc. intros c Hin. split; [now apply Hboth|].
    rewrite Hc. apply in_or_app. now right.
Qed.

Lemma joined_rows_target_order (source target target' : DataFrame)
  (key_cols : list string) :
  columns target' = columns target ->
  Permutation (rows target) (rows target') ->
  Permutation (joined_rows source target key_cols)
              (joined_rows source target' key_cols).
Proof.
  intros Hc Hp. unfold joined_rows. cbv zeta. unfold key_of. rewrite Hc.
  apply Permutation_app.
  - now apply Permutation_flat_map.
  - rewrite (filter_ext
               (fun sr =>
                  negb (existsb
                          (fun tr =>
                             keys_match
                               (map (cell_by_name (columns target) tr) key_cols)
                               (map (cell_by_name (columns source) sr) key_cols))
                          (rows target)))
               (fun sr =>
                  negb (existsb
                          (fun tr =>
                             keys_match
                               (map (cell_by_name (columns target) tr) key_cols)
                               (map (cell_by_name (columns source) sr) key_cols))
                          (rows target'))));
      [apply Permutation_refl|].
    intro sr. f_equal. now apply existsb_Permutation.
Qed.

Lemma column_level_result_target_order (source target target' : DataFrame)
  (key_cols : list string) (update_cols : option (list string))
  (prefer : bool) :
  columns target' = columns target ->
  Permutation (rows target) (rows target') ->
  columns (column_level_result source target' key_cols update_cols prefer)
  = columns (column_level_result source target key_cols update_cols prefer)
  /\ Permutation
       (rows (column_level_result source target' key_cols update_cols prefer))
       (rows (column_level_result source target key_cols update_cols prefer)).
Proof.
  intros Hc Hp. cbn [columns rows column_level_result].
  rewrite (data_columns_same_schema source target source target'
             key_cols update_cols eq_refl Hc).
  split; [reflexivity|].
  unfold column_level_row. rewrite Hc.
  apply Permutation_map, Permutation_sym.
  now apply joined_rows_target_order.
Qed.

(** X12.  The column-level merge can be run again: on tables the embedding
    covers and under its contract, when the keys of [source] are distinct
    and hold no NULL, merging [source] into the result of the merge, its
    rows in whatever order, gives the columns and the rows of that result
    again, up to their order, under both policies and for every
    [update_cols]. *)
Theorem column_level_idempotent (dtypes : string -> dtype)
  (source target : DataFrame)
  (key_cols : list string) (update_cols : option (list string))
  (prefer : bool) :
  covered dtypes source target key_cols = true ->
  column_level_inputs_ok source target key_cols update_cols = true ->
  unique_keys source key_cols = true ->
  keys_not_null source key_cols = true ->
  exists result,
    scd_type1_column_level source target key_cols update_cols prefer
    = Ok result
    /\ forall mid,
         same_table result mid ->
         exists again,
           scd_type1_column_level source mid key_cols update_cols prefer
           = Ok again
           /\ same_table again result.
Proof.
  intros _ Hok Hu Hn.
  exists (column_level_result source target key_cols update_cols prefer).
  split; [now apply column_level_closed_form|].
  intros mid [Hc Hp]. symmetry in Hc.
  exists (column_level_result source mid key_cols update_cols prefer).
  split; [now apply (column_level_closed_again source target)|].
  destruct (column_level_result_target_order source
              (column_level_result source target key_cols update_cols prefer)
              mid key_cols update_cols prefer Hc Hp) as [H1 H2].
  rewrite (column_level_result_again source target key_cols update_cols
                                     prefer Hu Hn) in H1, H2.
  now split.
Qed.

Lemma column_level_idempotent_witness :
  exists result again,
    scd_type1_column_level src_df tgt_df ["id"] None false = Ok result
    /\ scd_type1_column_level
         src_df {| columns := columns result; rows := rev (rows result) |}
         ["id"] None false
       = Ok again
    /\ same_table again result.
Proof.
  destruct (column_level_idempotent example_types src_df tgt_df ["id"] None
              false eq_refl eq_refl eq_refl eq_refl) as [result [H1 H2]].
  destruct (H2 {| columns := columns result; rows := rev (rows result) |})
    as [again [H3 H4]].
  - split; [reflexivity | apply Permutation_rev].
  - exists result, again. split; [exact H1|]. split; [exact H3 | exact H4].
Defined.

Lemma no_members_nil {A : Type} (l : list A) :
  (forall x, ~ In x l) -> l = [].
Proof.
  destruct l as [|a l]; [reflexivity|]. intro H. elim (H a). now left.
Qed.

(** X13.  Names in [update_cols] that are key columns or columns of neither
    table are passed over without an error: on tables the embedding covers
    and under the contract of the merge, when a non-empty [update_cols]
    holds such names only, the result has the key columns and nothing
    else, one row of key values per joined row, in some order. *)
Theorem column_level_unknown_update_cols (dtypes : string -> dtype)
  (source target : DataFrame)
  (key_cols update_cols : list string) (prefer : bool) :
  covered dtypes source target key_cols = true ->
  merge_inputs_ok source target key_cols = true ->
  nonempty update_cols = true ->
  names_ignored source target key_cols update_cols = true ->
  exists result,
    scd_type1_column_level source target key_cols (Some update_cols) prefer
    = Ok result
    /\ columns result = key_cols
    /\ Permutation (rows result)
                   (map (joined_key source target key_cols)
                        (joined_rows source target key_cols)).
Proof.
  intros _ Hok Hne Hign.
  assert (Hdc : data_columns source target key_cols (Some update_cols) = []).
  { apply no_members_nil. intros c Hc.
    apply in_data_columns_iff in Hc. destruct Hc as (Hk & Hst & Hu).
    destruct update_cols as [|u us]; [discriminate|].
    unfold names_ignored in Hign. rewrite forallb_forall in Hign.
    specialize (Hign c Hu). apply orb_true_iff in Hign.
    destruct Hign as [H|H].
    - apply mem_In in H. contradiction.
    - apply negb_true_iff, orb_false_iff in H. destruct H as [H1 H2].
      apply mem_not_In in H1. apply mem_not_In in H2. tauto. }
  apply merge_inputs_ok_spec in Hok.
  destruct Hok as (Hs & Ht & Hnk & _ & Hks & Hkt).
  apply wf_spec in Hs. destruct Hs as [Hs _].
  apply wf_spec in Ht. destruct Ht as [Ht _].
  exists (column_level_result source target key_cols (Some update_cols) prefer).
  split.
  - apply column_level_closed_form_gen; try assumption.
    rewrite Hdc. intros c [].
  - unfold column_level_result. cbv zeta. rewrite Hdc.
    cbn [columns rows]. split; [apply app_nil_r|].
    rewrite (map_ext _ (joined_key source target key_cols));
      [apply Permutation_refl|].
    intro jr. unfold column_level_row, joined_key.
    cbn [map]. apply app_nil_r.
Qed.

Lemma column_level_unknown_update_cols_witness :
  exists result,
    scd_type1_column_level src_df tgt_df ["id"] (Some ["nmae"]) false
    = Ok result
    /\ columns result = ["id"]
    /\ Permutation (rows result)
                   (map (joined_key src_df tgt_df ["id"])
                        (joined_rows src_df tgt_df ["id"])).
Proof.
  exact (column_level_unknown_update_cols example_types src_df tgt_df ["id"]
                                          ["nmae"] false
                                          eq_refl eq_refl eq_refl eq_refl).
Defined.

Lemma mapM_err_uniform {A B : Type} (f : A -> result B) (l : list A)
  (e0 e : error) :
  (forall x e', f x = Err e' -> e' = e0) ->
  mapM f l = Err e -> e = e0.
Proof.
  intro Huni. induction l as [|a l IH]; cbn [mapM]; [discriminate|].
  destruct (f a) as [b|e'] eqn:E; cbn [bind].
  - destruct (mapM f l) as [bs|e'']; cbn [bind]; [discriminate|].
    intro H. inversion H; subst. now apply IH.
  - intro H. inversion H; subst. now apply (Huni a).
Qed.

Lemma full_replace_error (source target : DataFrame) (key_cols : list string)
  (e : error) :
  key_cols <> [] ->
  scd_type1_full_replace source target key_cols = Err e ->
  e = AnalysisException.
Proof.
  intros Hne H. unfold scd_type1_full_replace, select in H.
  destruct (mapM (resolve (columns source)) key_cols) as [idx|e1] eqn:E1;
    cbn [bind] in H;
    [|inversion H; subst; now apply mapM_resolve_err in E1].
  destruct key_cols as [|k0 ks]; [congruence|].
  unfold join_left_anti in H.
  destruct (mapM (resolve (columns target)) (k0 :: ks)) as [li|e2] eqn:E2;
    cbn [bind] in H;
    [|inversion H; subst; now apply mapM_resolve_err in E2].
  match type of H with
  | context [mapM (resolve ?cs) (k0 :: ks)] =>
      destruct (mapM (resolve cs) (k0 :: ks)) as [ri|e3] eqn:E3;
        cbn [bind] in H;
        [|inversion H; subst; now apply mapM_resolve_err in E3]
  end.
  unfold unionByName in H.
  match type of H with
  | (if ?b then _ else _) = _ => destruct b; congruence
  end.
Qed.

Lemma column_level_error (source target : DataFrame) (key_cols : list string)
  (update_cols : option (list string)) (prefer : bool) (e : error) :
  key_cols <> [] ->
  scd_type1_column_level source target key_cols update_cols prefer = Err e ->
  e = AnalysisException.
Proof.
  intros Hne H. unfold scd_type1_column_level in H. cbv zeta in H.
  rewrite (mapM_map (chosen_expr key_cols prefer)
                    (chosen_column key_cols prefer)) in H
    by (intros c _; now apply chosen_expr_ok).
  destruct key_cols as [|k0 ks]; [congruence|].
  unfold join_fullouter in H.
  destruct (mapM (resolve (columns target)) (k0 :: ks)) as [ti|e1] eqn:E1;
    cbn [bind] in H;
    [|inversion H; subst; now apply mapM_resolve_err in E1].
  destruct (mapM (resolve (columns source)) (k0 :: ks)) as [si|e2] eqn:E2;
    cbn [bind] in H;
    [|inversion H; subst; now apply mapM_resolve_err in E2].
  unfold select_exprs in H.
  match type of H with
  | context [mapM ?f ?l] =>
      destruct (mapM f l) as [es|e3] eqn:E3; cbn [bind] in H;
        [discriminate|]
  end.
  inversion H; subst.
  apply (mapM_err_uniform _ _ AnalysisException) in E3; [assumption|].
  intros x e'. apply analyze_err.
Qed.

(** X14.  Both merges raise [IndexError] exactly when the list of key
    columns is empty, whatever the tables and the other arguments; any
    other failure is an [AnalysisException]. *)
Theorem index_error_iff_no_keys (source target : DataFrame)
  (key_cols : list string) (update_cols : option (list string))
  (prefer : bool) :
  (scd_type1_full_replace source target key_cols = Err IndexError
   <-> key_cols = [])
  /\ (scd_type1_column_level source target key_cols update_cols prefer
      = Err IndexError
      <-> key_cols = []).
Proof.
  split; split.
  - intro H. destruct key_cols as [|k0 ks]; [reflexivity|].
    apply full_replace_error in H; [discriminate | discriminate].
  - intros ->. reflexivity.
  - intro H. destruct key_cols as [|k0 ks]; [reflexivity|].
    apply column_level_error in H; [discriminate | discriminate].
  - intros ->. reflexivity.
Qed.

Lemma column_level_row_from_source (source target : DataFrame)
  (key_cols data_cols : list string) (prefer : bool) (o : option Row)
  (sr : Row) :
  joined_row_ok source target key_cols (o, Some sr) ->
  is_null (cell_by_name (columns source) sr (hd "" key_cols)) = false ->
  (forall c, In c data_cols ->
             is_null (cell_by_name (columns source) sr c) = false) ->
  column_level_row source target key_cols data_cols prefer (o, Some sr)
  = by_name source (key_cols ++ data_cols) sr.
Proof.
  intros Hjr H0 Hd. unfold column_level_row, by_name. rewrite map_app.
  f_equal.
  - change (map (fun k => eval_named (columns source) (columns target)
                                     (fst (key_expr k)) (o, Some sr))
                key_cols)
      with (joined_key source target key_cols (o, Some sr)).
    now rewrite (joined_key_with_source _ _ _ _ _ Hjr).
  - apply map_ext_in. intros c Hc. unfold chosen_column.
    destruct prefer; cbn [fst eval_named snd side_by_name].
    + now rewrite H0.
    + now rewrite (Hd c Hc).
Qed.

Lemma by_name_by_name (df : DataFrame) (wide out : list string) (r : Row) :
  incl (columns df) wide ->
  map (cell_by_name wide (by_name df wide r)) out = by_name df out r.
Proof.
  intro H. unfold by_name at 2. apply map_ext. intro c.
  now apply read_by_name_row.
Qed.

(** X15.  When the source holds no NULL in its first key column nor in a
    data column, the two strategies give the same rows: on tables the
    embedding covers and under the contract
    of the column-level merge, a row is in its result exactly when it is a
    row of the full-replace result read under the columns of the
    column-level result, under both policies. *)
Theorem strategies_agree_on_complete_source (dtypes : string -> dtype)
  (source target : DataFrame)
  (key_cols : list string) (update_cols : option (list string))
  (prefer : bool) :
  covered dtypes source target key_cols = true ->
  column_level_inputs_ok source target key_cols update_cols = true ->
  cells_not_null source
    (hd "" key_cols :: data_columns source target key_cols update_cols) = true ->
  exists full level,
    scd_type1_full_replace source target key_cols = Ok full
    /\ scd_type1_column_level source target key_cols update_cols prefer
       = Ok level
    /\ forall row,
         In row (rows level)
         <-> In row (map (by_name full (columns level)) (rows full)).
Proof.
  intros _ Hok Hnn.
  exists (full_replace_result source target key_cols),
         (column_level_result source target key_cols update_cols prefer).
  pose proof (proj1 (column_level_inputs_ok_spec _ _ _ _ Hok)) as Hm.
  split; [now apply full_replace_closed_form|].
  split; [now apply column_level_closed_form|].
  set (dc := data_columns source target key_cols update_cols) in *.
  pose proof (joined_rows_sound source target key_cols) as Hsound.
  rewrite Forall_forall in Hsound.
  unfold cells_not_null in Hnn. rewrite forallb_forall in Hnn.
  assert (Hsrc : forall o sr,
             In (o, Some sr) (joined_rows source target key_cols) ->
             column_level_row source target key_cols dc prefer (o, Some sr)
             = by_name source (key_cols ++ dc) sr).
  { intros o sr Hin. pose proof (Hsound _ Hin) as Hjr.
    assert (Hsr : In sr (rows source)).
    { destruct o; simpl in Hjr; tauto. }
    specialize (Hnn sr Hsr). cbn [forallb] in Hnn.
    apply andb_true_iff in Hnn. destruct Hnn as [H0 Hd].
    rewrite forallb_forall in Hd.
    apply column_level_row_from_source; try assumption.
    - now apply negb_true_iff.
    - intros c Hc. apply negb_true_iff. now apply Hd. }
  intro row.
  change (columns (column_level_result source target key_cols update_cols
                                       prefer))
    with (key_cols ++ dc).
  change (rows (column_level_result source target key_cols update_cols prefer))
    with (map (column_level_row source target key_cols dc prefer)
              (joined_rows source target key_cols)).
  cbn [rows full_replace_result]. rewrite map_app, !map_map, in_app_iff.
  unfold by_name at 1 3.
  cbn [columns full_replace_result].
  rewrite (map_ext _ (by_name source (key_cols ++ dc))
             (fun r => by_name_by_name source _ (key_cols ++ dc) r
                         (incl_union_columns_l source target))).
  rewrite (map_ext _ (by_name target (key_cols ++ dc))
             (fun r => by_name_by_name target _ (key_cols ++ dc) r
                         (incl_union_columns_r source target))).
  rewrite !in_map_iff. split.
  - intros [[o [sr|]] [Hrow Hin]].
    + left. exists sr. rewrite (Hsrc o sr Hin) in Hrow. split; [assumption|].
      pose proof (Hsound _ Hin) as Hjr. destruct o; simpl in Hjr; tauto.
    + pose proof (Hsound _ Hin) as Hjr.
      destruct o as [tr|]; [|contradiction]. simpl in Hjr.
      destruct Hjr as [Htr Hun].
      right. exists tr. rewrite column_level_row_target_only in Hrow.
      split; [assumption|]. apply filter_In. split; [assumption|].
      now rewrite Hun.
  - intros [[sr [Hrow Hsr]]|[tr [Hrow Htr]]].
    + destruct (joined_rows_cover_source source target key_cols sr Hsr)
        as [o Ho].
      exists (o, Some sr). split; [|assumption]. now rewrite (Hsrc o sr Ho).
    + apply filter_In in Htr. destruct Htr as [Htr Hun].
      apply negb_true_iff in Hun.
      exists (Some tr, None). split.
      * now rewrite column_level_row_target_only.
      * now apply in_joined_target_only.
Qed.

Lemma strategies_agree_on_complete_source_witness :
  exists full level,
    scd_type1_full_replace bobby_source_moved bob_target ["id"] = Ok full
    /\ scd_type1_column_level bobby_source_moved bob_target ["id"] None true
       = Ok level
    /\ forall row,
         In row (rows level)
         <-> In row (map (by_name full (columns level)) (rows full)).
Proof.
  exact (strategies_agree_on_complete_source example_types bobby_source_moved bob_target
                                             ["id"] None true eq_refl eq_refl eq_refl).
Defined.

End ScdMore.

(** ** The command line *)

Module CliFacts.
Import Spark Scd Cli SparkFacts ScdFacts ScdMore.
Local Open Scope string_scope.

Lemma split_nonempty (sep : ascii) (s : string) : split sep s <> [].
Proof.
  destruct s as [|a s]; cbn [split]; [discriminate|].
  destruct (Ascii.eqb a sep); [discriminate|].
  destruct (split sep s); discriminate.
Qed.

Lemma split_parts (sep : ascii) (s : string) :
  Forall (fun p => has_char sep p = false) (split sep s).
Proof.
  induction s as [|a s IH]; cbn [split].
  - constructor; [reflexivity | constructor].
  - destruct (Ascii.eqb a sep) eqn:E.
    + constructor; [reflexivity | assumption].
    + destruct (split sep s) as [|p ps].
      * constructor; [cbn [has_char]; now rewrite E | constructor].
      * inversion IH; subst. constructor; [|assumption].
        cbn [has_char]. now rewrite E.
Qed.

Lemma has_char_lstrip (c : ascii) (s : string) :
  has_char c s = false -> has_char c (lstrip s) = false.
Proof.
  induction s as [|a s IH]; cbn [lstrip]; intro H; [reflexivity|].
  destruct (is_space a); [|assumption].
  cbn [has_char] in H. apply orb_false_iff in H. now apply IH.
Qed.

Lemma has_char_rstrip (c : ascii) (s : string) :
  has_char c s = false -> has_char c (rstrip s) = false.
Proof.
  induction s as [|a s IH]; cbn [rstrip]; intro H; [reflexivity|].
  cbn [has_char] in H. apply orb_false_iff in H. destruct H as [H1 H2].
  specialize (IH H2). destruct (rstrip s) as [|b r].
  - destruct (is_space a); [reflexivity|]. cbn [has_char]. now rewrite H1.
  - cbn [has_char] in *. now rewrite H1.
Qed.

Lemma rstrip_rstrip (s : string) : rstrip (rstrip s) = rstrip s.
Proof.
  induction s as [|a s IH]; [reflexivity|]. cbn [rstrip].
  destruct (rstrip s) as [|b r] eqn:E.
  - destruct (is_space a) eqn:Ea; [reflexivity|].
    cbn [rstrip]. now rewrite Ea.
  - change (rstrip (String a (String b r))) with
      (match rstrip (String b r) with
       | EmptyString => if is_space a then EmptyString
                        else String a EmptyString
       | r' => String a r'
       end).
    now rewrite IH.
Qed.

Lemma starts_clean_lstrip (s : string) : starts_clean (lstrip s).
Proof.
  induction s as [|a s IH]; cbn [lstrip]; [exact I|].
  destruct (is_space a) eqn:E; [assumption | exact E].
Qed.

Lemma starts_clean_rstrip (s : string) :
  starts_clean s -> starts_clean (rstrip s).
Proof.
  destruct s as [|a s]; cbn [rstrip starts_clean]; [trivial|].
  intro H. destruct (rstrip s); [now rewrite H | exact H].
Qed.

Lemma lstrip_starts_clean (s : string) : starts_clean s -> lstrip s = s.
Proof.
  destruct s as [|a s]; cbn [lstrip starts_clean]; [reflexivity|].
  now intros ->.
Qed.

Lemma strip_strip (s : string) : strip (strip s) = strip s.
Proof.
  unfold strip.
  rewrite (lstrip_starts_clean (rstrip (lstrip s))).
  - apply rstrip_rstrip.
  - apply starts_clean_rstrip, starts_clean_lstrip.
Qed.

Lemma last_char_rstrip (s : string) (z : ascii) :
  last_char (rstrip s) = Some z -> is_space z = false.
Proof.
  induction s as [|a s IH]; cbn [rstrip]; [discriminate|].
  destruct (rstrip s) as [|b r] eqn:E.
  - destruct (is_space a) eqn:Ea; cbn [last_char]; [discriminate|].
    intro H. inversion H; subst. exact Ea.
  - change (last_char (String a (String b r)))
      with (match last_char (String b r) with
            | None => Some a
            | Some y => Some y
            end).
    destruct (last_char (String b r)) as [y|] eqn:El.
    + intro H. inversion H; subst. now apply IH.
    + cbn [last_char] in El. destruct (last_char r); discriminate.
Qed.

Lemma no_space_at_ends_strip (s : string) : no_space_at_ends (strip s) = true.
Proof.
  unfold strip.
  pose proof (starts_clean_rstrip _ (starts_clean_lstrip s)) as Hfirst.
  pose proof (last_char_rstrip (lstrip s)) as Hlast.
  unfold no_space_at_ends.
  destruct (rstrip (lstrip s)) as [|a r]; [reflexivity|].
  cbn [starts_clean] in Hfirst. rewrite Hfirst. cbn [negb andb].
  destruct (last_char (String a r)) as [z|]; [|reflexivity].
  now rewrite (Hlast z eq_refl).
Qed.

Lemma rstrip_last_clean (s : string) :
  match last_char s with
  | Some z => is_space z = false
  | None => True
  end ->
  rstrip s = s.
Proof.
  induction s as [|a s IH]; [reflexivity|]. cbn [last_char rstrip].
  destruct (last_char s) as [z|] eqn:El.
  - intro H. rewrite (IH H). destruct s; [discriminate | reflexivity].
  - intro H. destruct s as [|b s].
    + cbn [rstrip]. now rewrite H.
    + cbn [last_char] in El. destruct (last_char s); discriminate.
Qed.

Lemma strip_no_space_at_ends (k : string) :
  no_space_at_ends k = true -> strip k = k.
Proof.
  unfold no_space_at_ends, strip. destruct k as [|a k]; [reflexivity|].
  intro H. apply andb_true_iff in H. destruct H as [Ha Hz].
  apply negb_true_iff in Ha.
  rewrite (lstrip_starts_clean (String a k)) by exact Ha.
  apply rstrip_last_clean.
  destruct (last_char (String a k)); [now apply negb_true_iff | exact I].
Qed.

(** Having no whitespace at the ends is being left as it is by [strip]. *)
Lemma no_space_at_ends_iff (k : string) :
  no_space_at_ends k = true <-> strip k = k.
Proof.
  split; [apply strip_no_space_at_ends|].
  intro H. rewrite <- H. apply no_space_at_ends_strip.
Qed.

Lemma clean_strip (s : string) : has_char "," s = false -> clean (strip s) = true.
Proof.
  intro H. unfold clean. apply andb_true_iff. split.
  - apply negb_true_iff. unfold strip.
    now apply has_char_rstrip, has_char_lstrip.
  - apply no_space_at_ends_strip.
Qed.

(** X16.  The names [main] reads from a comma-separated option are never
    an empty list, and each of them holds no comma, does not start with a
    whitespace character and does not end with one. *)
Theorem parsed_names_clean (s : string) :
  map strip (split "," s) <> []
  /\ Forall (fun k => clean k = true) (map strip (split "," s)).
Proof.
  split.
  - pose proof (split_nonempty "," s) as H.
    destruct (split "," s); [congruence | discriminate].
  - apply Forall_map. eapply Forall_impl; [|apply split_parts].
    intros p Hp. now apply clean_strip.
Qed.

Lemma split_whole (sep : ascii) (p : string) :
  has_char sep p = false -> split sep p = [p].
Proof.
  induction p as [|a p IH]; cbn [has_char split]; intro H; [reflexivity|].
  apply orb_false_iff in H. destruct H as [H1 H2].
  now rewrite H1, (IH H2).
Qed.

Lemma split_app (sep : ascii) (p q : string) :
  has_char sep p = false ->
  split sep (p ++ String sep q) = p :: split sep q.
Proof.
  induction p as [|a p IH]; cbn [has_char]; intro H.
  - change ("" ++ String sep q) with (String sep q).
    cbn [split]. now rewrite Ascii.eqb_refl.
  - apply orb_false_iff in H. destruct H as [H1 H2].
    change (String a p ++ String sep q) with (String a (p ++ String sep q)).
    cbn [split]. now rewrite H1, (IH H2).
Qed.

Lemma split_join (ks : list string) :
  ks <> [] -> Forall (fun k => has_char "," k = false) ks ->
  split "," (Pandas.join "," ks) = ks.
Proof.
  induction ks as [|k ks IH]; intros Hne HF; [congruence|].
  inversion HF as [|? ? Hk HF']; subst.
  destruct ks as [|k2 ks].
  - cbn [Pandas.join]. now apply split_whole.
  - change (Pandas.join "," (k :: k2 :: ks))
      with (k ++ String "," (Pandas.join "," (k2 :: ks))).
    rewrite (split_app _ _ _ Hk). f_equal. apply IH; [discriminate | assumption].
Qed.

(** X17.  A non-empty list of names without commas and without whitespace
    at their ends, written with commas between them, is read back by
    [main] as it is. *)
Theorem names_round_trip (ks : list string) :
  nonempty ks = true ->
  forallb clean ks = true ->
  map strip (split "," (Pandas.join "," ks)) = ks.
Proof.
  intros Hne Hc. rewrite forallb_forall in Hc.
  rewrite split_join.
  - rewrite <- (map_id ks) at 2. apply map_ext_in. intros k Hk.
    specialize (Hc k Hk). unfold clean in Hc.
    apply andb_true_iff in Hc. now apply strip_no_space_at_ends.
  - destruct ks; [discriminate | discriminate].
  - apply Forall_forall. intros k Hk. specialize (Hc k Hk).
    unfold clean in Hc. apply andb_true_iff in Hc.
    now apply negb_true_iff.
Qed.

Lemma names_round_trip_witness :
  map strip (split "," (Pandas.join "," ["id"; "first name"]))
  = ["id"; "first name"].
Proof.
  exact (names_round_trip ["id"; "first name"] eq_refl eq_refl).
Defined.

(** X18.  Whatever the options, [main] never ends in an [IndexError]: the
    key list it passes to a merge is never empty. *)
Theorem main_never_index_error (args : Args) : main args <> Raised IndexError.
Proof.
  unfold main. cbv zeta.
  assert (Hmerge : forall src tgt ks u,
             ks <> [] ->
             match
               match mode args with
               | full_replace => scd_type1_full_replace src tgt ks
               | column_level =>
                   scd_type1_column_level src tgt ks u
                                          (prefer_source_when_null args)
               end
             with
             | Ok df => Written df
             | Err e => Raised e
             end <> Raised IndexError).
  { intros src tgt ks u Hks.
    destruct (mode args).
    - destruct (scd_type1_full_replace src tgt ks) as [df|e] eqn:E;
        [discriminate|].
      apply full_replace_error in E; [subst; discriminate | assumption].
    - destruct (scd_type1_column_level src tgt ks u _) as [df|e] eqn:E;
        [discriminate|].
      apply column_level_error in E; [subst; discriminate | assumption]. }
  destruct (tables args) as [[src tgt]|].
  - destruct (truthy (keys args)) as [ks|]; [|discriminate].
    apply Hmerge. pose proof (split_nonempty "," ks) as H.
    destruct (split "," ks); [congruence | discriminate].
  - apply Hmerge. discriminate.
Qed.

End CliFacts.

(** ** More on the record hash *)

Module HashMore.
Import Pandas Audit HashFacts.
Local Open Scope string_scope.

Lemma append_nil_r (a : string) : a ++ "" = a.
Proof.
  induction a as [|x a IH]; [reflexivity|].
  rewrite append_cons. now f_equal.
Qed.

Lemma join_cons_nonempty (sep p : string) (l : list string) :
  l <> [] -> join sep (p :: l) = p ++ sep ++ join sep l.
Proof.
  destruct l as [|q l]; [congruence | reflexivity].
Qed.

Lemma join_separator_moves (pre post : list string) (a b c : string) :
  join "|" (pre ++ (a ++ "|" ++ b)%string :: c :: post)%list
  = join "|" (pre ++ a :: (b ++ "|" ++ c)%string :: post)%list.
Proof.
  induction pre as [|p pre IH]; cbn [app].
  - rewrite (join_cons_nonempty "|" (a ++ "|" ++ b)) by discriminate.
    rewrite (join_cons_nonempty "|" a) by discriminate.
    destruct post as [|q post].
    + cbn [join]. now rewrite !append_assoc.
    + rewrite (join_cons_nonempty "|" c) by discriminate.
      rewrite (join_cons_nonempty "|" (b ++ "|" ++ c)) by discriminate.
      now rewrite !append_assoc.
  - rewrite !(join_cons_nonempty "|" p) by (destruct pre; discriminate).
    now rewrite IH.
Qed.

(** X19.  The hashed string does not keep the cells of a row apart: when
    a '|' moves from inside one cell to the boundary with the next, the row
    is another one and its record hash is the same, for [row_hash] of
    [add_audit_columns] and for [record_hash] of the loaders. *)
Theorem separator_moves_between_cells (pre post : list cell) (a b c : string) :
  (pre ++ [PStr (a ++ "|" ++ b)%string; PStr c] ++ post)%list
  <> (pre ++ [PStr a; PStr (b ++ "|" ++ c)%string] ++ post)%list
  /\ Utils.row_hash (pre ++ [PStr (a ++ "|" ++ b)%string; PStr c] ++ post)%list
     = Utils.row_hash (pre ++ [PStr a; PStr (b ++ "|" ++ c)%string] ++ post)%list
  /\ Ingest.record_hash (pre ++ [PStr (a ++ "|" ++ b)%string; PStr c] ++ post)%list
     = Ingest.record_hash (pre ++ [PStr a; PStr (b ++ "|" ++ c)%string] ++ post)%list.
Proof.
  assert (Hjoin :
            join "|" (map str (pre ++ [PStr (a ++ "|" ++ b)%string; PStr c] ++ post)%list)
            = join "|" (map str (pre ++ [PStr a; PStr (b ++ "|" ++ c)%string] ++ post)%list)).
  { rewrite !map_app. cbn [map str app]. apply join_separator_moves. }
  split; [|split].
  - intro H. apply app_inv_head in H. inversion H as [[H1 H2]].
    rewrite <- (append_nil_r a) in H1 at 2.
    apply append_cancel_l in H1. discriminate.
  - unfold Utils.row_hash. cbv zeta. now rewrite Hjoin.
  - unfold Ingest.record_hash. cbv zeta. now rewrite Hjoin.
Qed.

End HashMore.

(** ** More on the audit columns *)

Module AuditMore.
Import stdpp.base stdpp.option stdpp.list stdpp.strings stdpp.gmap.
Import Pandas Utils Audit AuditFacts.

Lemma cols_with_extends (cs : list string) (c : string) :
  exists extra, cols_with cs c = cs ++ extra.
Proof.
  unfold cols_with. destruct (position c cs).
  - exists []. now rewrite app_nil_r.
  - now exists [c].
Qed.

Lemma audited_cols_extend (hash : list cell -> cell) (fr : Frame)
  (ts file : string) :
  exists extra, cols (audited hash fr ts file) = cols fr ++ extra.
Proof.
  rewrite audited_cols. unfold audit_cols.
  destruct (cols_with_extends (cols fr) "ingest_ts") as [e1 ->].
  destruct (cols_with_extends (cols fr ++ e1) "source_file") as [e2 ->].
  destruct (cols_with_extends ((cols fr ++ e1) ++ e2) "record_hash") as [e3 ->].
  exists (e1 ++ e2 ++ e3). now rewrite <- !app_assoc.
Qed.

Lemma audited_keeps_cells (hash : list cell -> cell) (fr : Frame)
  (ts file : string) :
  wide_frame fr = true ->
  Forall2 (fun r r' =>
             forall c, ~ In c ["ingest_ts"; "source_file"; "record_hash"] ->
                       get_cell (cols (audited hash fr ts file)) r' c
                       = get_cell (cols fr) r c)
          (data fr) (data (audited hash fr ts file)).
Proof.
  intro Hwide. unfold wide_frame in Hwide.
  rewrite audited_rows, audited_cols.
  apply ScdFacts.Forall2_map_r. intros r Hr c Hc.
  assert (Hlen : length r = length (cols fr)).
  { apply Nat.eqb_eq. revert Hr. revert r.
    apply (proj1 (List.forallb_forall _ _) Hwide). }
  rewrite get_set_cell_other;
    [| intros ->; apply Hc; simpl; tauto | now apply length_with_audit].
  unfold audit_cols, with_audit.
  rewrite get_set_cell_other;
    [| intros ->; apply Hc; simpl; tauto | now apply length_set_cell].
  apply get_set_cell_other; [|assumption].
  intros ->. apply Hc. simpl. tauto.
Qed.

(** X20.  [add_audit_columns] leaves the data alone: called on a frame
    with one cell per column in every row, it returns a frame whose columns
    start with those of the input, with as many rows, and every row reads
    under every label other than ingest_ts, source_file and record_hash as
    the row of the input at the same place. *)
Theorem add_audit_columns_keeps_cells (df : loc) (source_file : string)
  (w : World) (fr : Frame) :
  heap w !! df = Some fr ->
  wide_frame fr = true ->
  exists out w' fr',
    add_audit_columns df source_file w = Some (out, w')
    /\ heap w' !! out = Some fr'
    /\ (exists extra, cols fr' = cols fr ++ extra)
    /\ Forall2 (fun r r' =>
                  forall c,
                    ~ In c ["ingest_ts"; "source_file"; "record_hash"] ->
                    get_cell (cols fr') r' c = get_cell (cols fr) r c)
               (data fr) (data fr').
Proof.
  intros Hdf Hwide.
  eexists _, _, (audited row_hash fr (isoformat (clock w)) source_file).
  split; [apply (add_audit_columns_run _ _ _ fr Hdf)|].
  split; [cbn [heap]; apply lookup_insert_eq|].
  split; [apply audited_cols_extend | now apply audited_keeps_cells].
Qed.

Lemma add_audit_columns_keeps_cells_witness :
  exists out w' fr',
    add_audit_columns 0 "file.csv" test_world = Some (out, w')
    /\ heap w' !! out = Some fr'
    /\ (exists extra, cols fr' = cols test_frame ++ extra)
    /\ Forall2 (fun r r' =>
                  forall c,
                    ~ In c ["ingest_ts"; "source_file"; "record_hash"] ->
                    get_cell (cols fr') r' c = get_cell (cols test_frame) r c)
               (data test_frame) (data fr').
Proof.
  exact (add_audit_columns_keeps_cells 0 "file.csv" test_world test_frame
                                       eq_refl eq_refl).
Defined.

Lemma plain_frame_spec (fr : Frame) :
  plain_frame fr = true ->
  (forall c, In c ["ingest_ts"; "source_file"; "record_hash"] ->
             position c (cols fr) = None)
  /\ (forall c, In c (cols fr) ->
                existsb (String.eqb c)
                        ["ingest_ts"; "source_file"; "record_hash"] = false)
  /\ forall r, In r (data fr) -> length r = length (cols fr).
Proof.
  unfold plain_frame. intro H. apply andb_true_iff in H.
  destruct H as [H1 H2].
  pose proof (proj1 (List.forallb_forall _ _) H1) as Hlab.
  split; [|split].
  - intros c Hc. apply HashFacts.position_absent.
    apply negb_true_iff. now apply Hlab.
  - intros c Hc.
    destruct (existsb (String.eqb c) ["ingest_ts"; "source_file"; "record_hash"])
      eqn:E; [|reflexivity].
    apply List.existsb_exists in E. destruct E as [l [Hl El]].
    apply String.eqb_eq in El. subst l.
    specialize (Hlab c Hl). apply negb_true_iff in Hlab.
    assert (Hex : existsb (String.eqb c) (cols fr) = true).
    { apply List.existsb_exists. exists c. split; [assumption|].
      apply String.eqb_refl. }
    congruence.
  - intros r Hr. apply Nat.eqb_eq.
    exact (proj1 (List.forallb_forall _ _) H2 r Hr).
Qed.

Lemma position_app_absent (c : string) (cs extra : list string) :
  position c cs = None ->
  position c (cs ++ extra) = (fun i => length cs + i) <$> position c extra.
Proof.
  induction cs as [|x cs IH]; cbn [position app length]; intro H.
  - now destruct (position c extra).
  - destruct (String.eqb c x); [discriminate|].
    destruct (position c cs) as [j|] eqn:E; [discriminate|].
    rewrite IH by reflexivity. now destruct (position c extra).
Qed.

Lemma get_cell_appended (cs extra : list string) (r x : list cell)
  (c : string) :
  position c cs = None -> length r = length cs ->
  get_cell (cs ++ extra) (r ++ x) c = get_cell extra x c.
Proof.
  intros Hc Hlen. unfold get_cell. rewrite position_app_absent by assumption.
  destruct (position c extra) as [i|]; cbn [fmap option_fmap option_map mbind
                                            option_bind]; [|reflexivity].
  rewrite <- Hlen. rewrite lookup_app_r by lia.
  f_equal. lia.
Qed.

Lemma cols_with_appended (cs extra : list string) (c : string) (i : nat) :
  position c cs = None -> position c extra = Some i ->
  cols_with (cs ++ extra) c = cs ++ extra.
Proof.
  intros Hc Hi. unfold cols_with.
  rewrite position_app_absent by assumption. now rewrite Hi.
Qed.

Lemma set_cell_appended (cs extra : list string) (r x : list cell)
  (c : string) (v : cell) (i : nat) :
  position c cs = None -> length r = length cs ->
  position c extra = Some i ->
  set_cell (cs ++ extra) c v (r ++ x) = r ++ <[i := v]> x.
Proof.
  intros Hc Hlen Hi. unfold set_cell.
  rewrite position_app_absent by assumption. rewrite Hi.
  cbn [fmap option_fmap option_map]. rewrite <- Hlen. apply insert_app_r.
Qed.

Lemma row_drop_appended (cs : list string) (r : list cell) (x y z : cell) :
  length r = length cs ->
  (forall c, In c cs ->
             existsb (String.eqb c)
                     ["ingest_ts"; "source_file"; "record_hash"] = false) ->
  row_drop (cs ++ ["ingest_ts"; "source_file"; "record_hash"])
           (r ++ [x; y; z])
           ["ingest_ts"; "source_file"; "record_hash"]
  = r.
Proof.
  revert r. induction cs as [|c cs IH]; intros r Hlen Hcs.
  - destruct r; [reflexivity | discriminate].
  - destruct r as [|a r]; [discriminate|].
    unfold row_drop. cbn [app combine List.filter fst].
    rewrite (Hcs c (or_introl eq_refl)). cbn [negb map snd]. f_equal.
    apply IH; [cbn [length] in Hlen; lia|].
    intros c' Hc'. apply Hcs. now right.
Qed.

(** X21.  On a file whose frame holds no audit column yet and one cell per
    column in every row, each loader executes one INSERT per row, in order:
    its data are the row of the file as it was read, its timestamp and file
    name are those of the load, and its hash is the hash of the row
    followed by these two. *)
Theorem loaders_insert_file_rows (parsed : Frame) (name : string) (w : World) :
  plain_frame parsed = true ->
  exists w',
    Ingest.load_csv_to_staging parsed name w
    = Some (map (fun r =>
                   Ingest.mkInsert r (PStr (isoformat (clock w))) (PStr name)
                     (Ingest.record_hash
                        (r ++ [PStr (isoformat (clock w)); PStr name])))
                (data parsed),
            w')
    /\ Ingest.load_json_to_staging parsed name w
       = Ingest.load_csv_to_staging parsed name w.
Proof.
  intro Hplain.
  pose proof (plain_frame_spec parsed Hplain) as (Hpos & Hlab & Hlen).
  eexists. split; [|reflexivity].
  unfold Ingest.load_csv_to_staging, seq_, df_new, utcnow, df_setitem, df_get,
    or_raise, ret.
  cbn [heap clock].
  repeat (rewrite lookup_insert_eq; cbn [mbind option_bind heap clock];
          rewrite ?insert_insert_eq).
  fold (audited Ingest.record_hash parsed (isoformat (clock w)) name).
  rewrite (HashFacts.audited_plain _ _ _ _ Hplain). cbn [cols data].
  rewrite (inserts_map _ _
             (fun orow =>
                Ingest.mkInsert
                  (take (length (cols parsed)) orow)
                  (PStr (isoformat (clock w))) (PStr name)
                  (Ingest.record_hash
                     (take (length (cols parsed)) orow
                      ++ [PStr (isoformat (clock w)); PStr name])))).
  - rewrite map_map. f_equal. f_equal. apply map_ext_in. intros r Hr.
    rewrite <- (Hlen r Hr). now rewrite take_app_length.
  - intros orow Horow. apply in_map_iff in Horow.
    destruct Horow as [r [<- Hr]]. specialize (Hlen r Hr).
    rewrite <- Hlen, take_app_length.
    unfold Ingest.insert_of_row.
    rewrite !get_cell_appended by (try assumption; apply Hpos; simpl; tauto).
    rewrite row_drop_appended by assumption.
    reflexivity.
Qed.

Lemma loaders_insert_file_rows_witness :
  exists w',
    Ingest.load_csv_to_staging test_frame "file.csv" test_world
    = Some (map (fun r =>
                   Ingest.mkInsert r (PStr (isoformat (clock test_world)))
                     (PStr "file.csv")
                     (Ingest.record_hash
                        (r ++ [PStr (isoformat (clock test_world));
                               PStr "file.csv"])))
                (data test_frame),
            w')
    /\ Ingest.load_json_to_staging test_frame "file.csv" test_world
       = Ingest.load_csv_to_staging test_frame "file.csv" test_world.
Proof.
  exact (loaders_insert_file_rows test_frame "file.csv" test_world eq_refl).
Defined.

Lemma audited_again (hash : list cell -> cell) (cs : list string)
  (rows : list (list cell)) (old : list cell -> list cell) (ts file : string) :
  (forall c, In c ["ingest_ts"; "source_file"; "record_hash"] ->
             position c cs = None) ->
  (forall r, In r rows -> length r = length cs) ->
  (forall r, length (old r) = 3) ->
  audited hash
          {| cols := cs ++ ["ingest_ts"; "source_file"; "record_hash"];
             data := map (fun r => r ++ old r) rows |}
          ts file
  = {| cols := cs ++ ["ingest_ts"; "source_file"; "record_hash"];
       data :=
         map (fun r =>
                r ++ [PStr ts; PStr file;
                      hash (r ++ [PStr ts; PStr file;
                                  default PNone (old r !! 2)])])
             rows |}.
Proof.
  intros Hpos Hlen Hold.
  assert (P1 : position "ingest_ts" cs = None) by (apply Hpos; simpl; tauto).
  assert (P2 : position "source_file" cs = None) by (apply Hpos; simpl; tauto).
  assert (P3 : position "record_hash" cs = None) by (apply Hpos; simpl; tauto).
  unfold audited, setitem. cbn [cols data].
  rewrite (cols_with_appended cs ["ingest_ts"; "source_file"; "record_hash"] "ingest_ts" 0 P1 eq_refl).
  rewrite (cols_with_appended cs ["ingest_ts"; "source_file"; "record_hash"] "source_file" 1 P2 eq_refl).
  rewrite (cols_with_appended cs ["ingest_ts"; "source_file"; "record_hash"] "record_hash" 2 P3 eq_refl).
  f_equal. rewrite !map_map.
  apply map_ext_in. intros r Hr. specialize (Hlen r Hr). specialize (Hold r).
  destruct (old r) as [|a [|b [|h0 [|? ?]]]]; try discriminate.
  rewrite (set_cell_appended cs ["ingest_ts"; "source_file"; "record_hash"] r [a; b; h0] "ingest_ts" (PStr ts) 0
             P1 Hlen eq_refl).
  cbn [insert list_insert].
  rewrite (set_cell_appended cs ["ingest_ts"; "source_file"; "record_hash"] r [PStr ts; b; h0] "source_file"
             (PStr file) 1 P2 Hlen eq_refl).
  cbn [insert list_insert].
  rewrite (set_cell_appended cs ["ingest_ts"; "source_file"; "record_hash"] r [PStr ts; PStr file; h0] "record_hash"
             (hash (r ++ [PStr ts; PStr file; h0])) 2 P3 Hlen eq_refl).
  reflexivity.
Qed.

Lemma join_snoc (sep : string) (l : list string) (x : string) :
  l <> [] ->
  join sep (l ++ [x]) = String.append (join sep l) (String.append sep x).
Proof.
  induction l as [|p l IH]; intro Hne; [congruence|].
  destruct l as [|q l].
  - reflexivity.
  - change (join sep ((p :: q :: l) ++ [x]))
      with (String.append p (String.append sep (join sep ((q :: l) ++ [x])))).
    rewrite IH by discriminate.
    change (join sep (p :: q :: l))
      with (String.append p (String.append sep (join sep (q :: l)))).
    now rewrite !HashFacts.append_assoc.
Qed.

Lemma append_longer (m t : string) (a : ascii) :
  String.append m (String a t) <> m.
Proof.
  intro H. rewrite <- (HashMore.append_nil_r m) in H at 2.
  apply HashFacts.append_cancel_l in H. discriminate.
Qed.

(** X22.  Auditing an audited frame keeps its columns and overwrites the
    three audit cells of every row; the new record hash covers the old
    one.  At the same time and for the same file name the string hashed
    the second time is the first one followed by '|' and the first hash,
    another string than the first; on the first row of the repository's
    test the two hashes differ.  The second call may take place at any
    time. *)
Theorem add_audit_columns_twice (df : loc) (file1 file2 : string) (w : World)
  (fr : Frame) (later : datetime) :
  heap w !! df = Some fr ->
  plain_frame fr = true ->
  (exists out1 w1 out2 w2,
     add_audit_columns df file1 w = Some (out1, w1)
     /\ add_audit_columns out1 file2 {| heap := heap w1; clock := later |}
        = Some (out2, w2)
     /\ heap w2 !! out2
        = Some {| cols := cols fr
                          ++ ["ingest_ts"; "source_file"; "record_hash"];
                  data :=
                    map (fun r =>
                           r ++ [PStr (isoformat later); PStr file2;
                                 row_hash
                                   (r ++ [PStr (isoformat later); PStr file2;
                                          row_hash
                                            (r ++ [PStr (isoformat (clock w));
                                                   PStr file1])])])
                        (data fr) |})
  /\ (forall (r : list cell) (ts file : string),
        join "|" (map str (r ++ [PStr ts; PStr file;
                                 row_hash (r ++ [PStr ts; PStr file])]))
        = String.append (message r ts file)
            (String.append "|" (Sha256.hexdigest (message r ts file)))
        /\ join "|" (map str (r ++ [PStr ts; PStr file;
                                    row_hash (r ++ [PStr ts; PStr file])]))
           <> message r ts file)
  /\ row_hash ([PInt 1; PStr "x"]
               ++ [PStr (isoformat test_clock); PStr "file.csv";
                   row_hash ([PInt 1; PStr "x"]
                             ++ [PStr (isoformat test_clock);
                                 PStr "file.csv"])])
     <> row_hash ([PInt 1; PStr "x"]
                  ++ [PStr (isoformat test_clock); PStr "file.csv"]).
Proof.
  intros Hdf Hplain.
  pose proof (plain_frame_spec fr Hplain) as (Hpos & _ & Hlen).
  split; [|split].
  - eexists _, _, _, _.
    split; [apply (add_audit_columns_run _ _ _ fr Hdf)|].
    split.
    + apply add_audit_columns_run. cbn [heap]. apply lookup_insert_eq.
    + cbn [heap clock]. rewrite lookup_insert_eq. f_equal.
      rewrite (HashFacts.audited_plain _ _ _ _ Hplain).
      rewrite (audited_again row_hash (cols fr) (data fr)
                 (fun r => [PStr (isoformat (clock w)); PStr file1;
                            row_hash (r ++ [PStr (isoformat (clock w));
                                            PStr file1])]));
        auto.
  - intros r ts file.
    assert (Hm : join "|" (map str (r ++ [PStr ts; PStr file;
                                          row_hash (r ++ [PStr ts; PStr file])]))
                 = String.append (message r ts file)
                     (String.append "|"
                        (Sha256.hexdigest (message r ts file)))).
    { change (r ++ [PStr ts; PStr file; row_hash (r ++ [PStr ts; PStr file])])
        with (r ++ [PStr ts; PStr file]
                ++ [row_hash (r ++ [PStr ts; PStr file])]).
      rewrite app_assoc, map_app. cbn [map].
      rewrite join_snoc; [reflexivity|].
      rewrite map_app. cbn [map]. intro H.
      apply app_eq_nil in H. destruct H as [_ H]. discriminate. }
    split; [exact Hm|]. rewrite Hm. apply append_longer.
  - intro Heq. vm_compute in Heq. discriminate.
Qed.

Lemma add_audit_columns_twice_witness :
  exists out1 w1 out2 w2,
    add_audit_columns 0 "file.csv" test_world = Some (out1, w1)
    /\ add_audit_columns out1 "file.csv"
                         {| heap := heap w1; clock := test_clock |}
       = Some (out2, w2)
    /\ heap w2 !! out2
       = Some {| cols := cols test_frame
                         ++ ["ingest_ts"; "source_file"; "record_hash"];
                 data :=
                   map (fun r =>
                          r ++ [PStr (isoformat test_clock); PStr "file.csv";
                                row_hash
                                  (r ++ [PStr (isoformat test_clock);
                                         PStr "file.csv";
                                         row_hash
                                           (r ++ [PStr (isoformat
                                                          (clock test_world));
                                                  PStr "file.csv"])])])
                       (data test_frame) |}.
Proof.
  exact (proj1 (add_audit_columns_twice 0 "file.csv" "file.csv" test_world
                                        test_frame test_clock eq_refl eq_refl)).
Defined.

End AuditMore.
